(** * editcap: the per-packet transformation pipeline

    A shallow embedding of the packet-editing stages of [editcap.c]
    (chopping, duplicate detection, time adjustment, error injection)
    together with the properties of these stages.

    Conventions.
    - A C [int] is a [Z] in [-2^31, 2^31); a [guint32] is a [Z] in
      [0, 2^32).  Every arithmetic operation of the source whose result is
      stored in such a variable is followed by the matching wrap
      ([wrap32s] or [wrap32u]), so that the conversions between the two
      types that the source relies on are explicit.  Signed overflow, which
      C leaves undefined, wraps as it does on two's-complement targets.
    - [time_t] (the seconds of an [nstime_t]) is declared by the platform,
      its overflow is undefined in C: seconds are unbounded [Z].
    - Bytes are [Z] in [0, 256). *)

From Stdlib Require Import ZArith Lia List Bool Sorted.
From stdpp Require Import base tactics option list gmap strings.

Local Open Scope Z_scope.

(** ** Machine integers *)

Definition wrap32u (z : Z) : Z := z mod 2 ^ 32.

Definition wrap32s (z : Z) : Z := (z + 2 ^ 31) mod 2 ^ 32 - 2 ^ 31.

Definition int_range (z : Z) : Prop := - 2 ^ 31 <= z < 2 ^ 31.

Definition guint32_range (z : Z) : Prop := 0 <= z < 2 ^ 32.

(** ** Chopping: [handle_chopping] *)

Module Chop.

Record chop_t := mk_chop {
  len_begin : Z;
  off_begin_pos : Z;
  off_begin_neg : Z;
  len_end : Z;
  off_end_pos : Z;
  off_end_neg : Z
}.

(** The two fields of [wtap_packet_header] that chopping reads and
    writes, both [guint32]. *)
Record wtap_packet_header := mk_phdr {
  caplen : Z;
  len : Z
}.

(** The packet buffer behind [guint8 **buf]: the allocation and the
    position of [*buf] in it. *)
Record pkt_buf := mk_buf {
  bytes : list Z;
  ptr : Z
}.

(** [memmove(dst, src, n)] on positions of the allocation.  Outside the
    allocation the behaviour of the C function is undefined: [None]. *)
Definition memmove (l : list Z) (dst src n : Z) : option (list Z) :=
  if (0 <=? dst) && (0 <=? src) && (0 <=? n)
     && (dst + n <=? Z.of_nat (length l)) && (src + n <=? Z.of_nat (length l))
  then Some (take (Z.to_nat dst) l
             ++ take (Z.to_nat n) (drop (Z.to_nat src) l)
             ++ drop (Z.to_nat (dst + n)) l)
  else None.

(** A chop directive [-C [offset:]length] as the option loop of
    [real_main] accumulates it. *)
Definition add_chop (chop : chop_t) (chopoff choplen : Z) : chop_t :=
  if 0 <? choplen then
    if 0 <? chopoff then
      mk_chop (wrap32s (len_begin chop + choplen))
              (wrap32s (off_begin_pos chop + chopoff)) (off_begin_neg chop)
              (len_end chop) (off_end_pos chop) (off_end_neg chop)
    else
      mk_chop (wrap32s (len_begin chop + choplen))
              (off_begin_pos chop) (wrap32s (off_begin_neg chop + chopoff))
              (len_end chop) (off_end_pos chop) (off_end_neg chop)
  else if choplen <? 0 then
    if 0 <? chopoff then
      mk_chop (len_begin chop) (off_begin_pos chop) (off_begin_neg chop)
              (wrap32s (len_end chop + choplen))
              (wrap32s (off_end_pos chop + chopoff)) (off_end_neg chop)
    else
      mk_chop (len_begin chop) (off_begin_pos chop) (off_begin_neg chop)
              (wrap32s (len_end chop + choplen))
              (off_end_pos chop) (wrap32s (off_end_neg chop + chopoff))
  else chop.

Definition chop_zero : chop_t := mk_chop 0 0 0 0 0 0.

(** Lines 2000-2003: an offset without a length is meaningless. *)
Definition chop_clear_offsets (chop : chop_t) : chop_t :=
  let chop :=
    if len_begin chop =? 0
    then mk_chop (len_begin chop) 0 0
                 (len_end chop) (off_end_pos chop) (off_end_neg chop)
    else chop in
  if len_end chop =? 0
  then mk_chop (len_begin chop) (off_begin_pos chop) (off_begin_neg chop)
               (len_end chop) 0 0
  else chop.

(** Lines 2005-2012: a negative front offset becomes a positive one, a
    positive back offset becomes a negative one. *)
Definition chop_fold_offsets (cap : Z) (chop : chop_t) : chop_t :=
  let chop :=
    if off_begin_neg chop <? 0
    then mk_chop (len_begin chop)
                 (wrap32s (off_begin_pos chop + wrap32u (cap + off_begin_neg chop)))
                 0
                 (len_end chop) (off_end_pos chop) (off_end_neg chop)
    else chop in
  if 0 <? off_end_pos chop
  then mk_chop (len_begin chop) (off_begin_pos chop) (off_begin_neg chop)
               (len_end chop)
               0
               (wrap32s (off_end_neg chop + wrap32u (off_end_pos chop - cap)))
  else chop.

(** Lines 2014-2028: crossed regions are swapped. *)
Definition chop_swap (cap : Z) (chop : chop_t) : chop_t :=
  if negb (len_begin chop =? 0) && negb (len_end chop =? 0) then
    if wrap32s (wrap32s cap + off_end_neg chop) <? off_begin_pos chop then
      let tmp_off := wrap32s (cap + off_end_neg chop + len_end chop) in
      let tmp_len := wrap32s (- len_end chop) in
      mk_chop tmp_len tmp_off (off_begin_neg chop)
              (wrap32s (- len_begin chop))
              (off_end_pos chop)
              (wrap32s (len_begin chop + off_begin_pos chop - cap))
    else chop
  else chop.

(** The offsets taken by the two regions together, as the comparisons of
    lines 2031 and 2036 read them: [(guint32)(off_begin_pos - off_end_neg)]. *)
Definition chop_offsets (chop : chop_t) : Z :=
  wrap32u (off_begin_pos chop - off_end_neg chop).

(** Lines 2030-2039: never chop more than is available. *)
Definition chop_clamp (cap : Z) (chop : chop_t) : chop_t :=
  let chop :=
    if cap <? chop_offsets chop
    then mk_chop 0 (off_begin_pos chop) (off_begin_neg chop)
                 0 (off_end_pos chop) (off_end_neg chop)
    else chop in
  if wrap32u (cap - chop_offsets chop) <? wrap32u (len_begin chop - len_end chop)
  then mk_chop (wrap32s (cap - (off_begin_pos chop - off_end_neg chop)))
               (off_begin_pos chop) (off_begin_neg chop)
               0 (off_end_pos chop) (off_end_neg chop)
  else chop.

(** The chop regions before clamping (lines 2000-2028). *)
Definition chop_regions (cap : Z) (chop : chop_t) : chop_t :=
  chop_swap cap (chop_fold_offsets cap (chop_clear_offsets chop)).

Definition chop_normalize (cap : Z) (chop : chop_t) : chop_t :=
  chop_clamp cap (chop_regions cap chop).

(** Lines 2043-2062: chopping from the beginning.  Returns the header
    written through [out_phdr], the header [in_phdr] points to afterwards
    and the buffer. *)
Definition chop_begin (chop : chop_t) (out_phdr in_phdr : wtap_packet_header)
    (buf : option pkt_buf) (adjlen : bool)
  : wtap_packet_header * wtap_packet_header * option pkt_buf :=
  if 0 <? len_begin chop then
    let out := in_phdr in
    let buf' :=
      b ← buf;
      if 0 <? off_begin_pos chop then
        l ← memmove (bytes b)
              (ptr b + off_begin_pos chop)
              (ptr b + off_begin_pos chop + len_begin chop)
              (wrap32u (caplen out - len_begin chop));
        Some (mk_buf l (ptr b))
      else Some (mk_buf (bytes b) (ptr b + len_begin chop)) in
    let out := mk_phdr (wrap32u (caplen out - len_begin chop)) (len out) in
    let out :=
      if adjlen then
        if wrap32u (len_begin chop) <? len in_phdr
        then mk_phdr (caplen out) (wrap32u (len out - len_begin chop))
        else mk_phdr (caplen out) 0
      else out in
    (out, out, buf')
  else (out_phdr, in_phdr, buf).

(** Lines 2066-2083: chopping from the end. *)
Definition chop_end (chop : chop_t) (out_phdr in_phdr : wtap_packet_header)
    (buf : option pkt_buf) (adjlen : bool)
  : wtap_packet_header * option pkt_buf :=
  if len_end chop <? 0 then
    let out := in_phdr in
    let buf' :=
      b ← buf;
      if off_end_neg chop <? 0 then
        l ← memmove (bytes b)
              (ptr b + wrap32s (caplen out)
               + wrap32s (len_end chop + off_end_neg chop))
              (ptr b + wrap32s (caplen out) + off_end_neg chop)
              (wrap32s (- off_end_neg chop) mod 2 ^ 64);
        Some (mk_buf l (ptr b))
      else Some b in
    let out := mk_phdr (wrap32u (caplen out + len_end chop)) (len out) in
    let out :=
      if adjlen then
        if 0 <? wrap32s (wrap32s (len in_phdr) + len_end chop)
        then mk_phdr (caplen out) (wrap32u (len out + len_end chop))
        else mk_phdr (caplen out) 0
      else out in
    (out, buf')
  else (out_phdr, buf).

(** [handle_chopping(chop, out_phdr, in_phdr, buf, adjlen)]: the header
    left in [*out_phdr] and the buffer left in [*buf]. *)
Definition handle_chopping (chop : chop_t)
    (out_phdr in_phdr : wtap_packet_header) (buf : pkt_buf) (adjlen : bool)
  : wtap_packet_header * option pkt_buf :=
  let chop := chop_normalize (caplen in_phdr) chop in
  let '(out_phdr, in_phdr, buf) :=
    chop_begin chop out_phdr in_phdr (Some buf) adjlen in
  chop_end chop out_phdr in_phdr buf adjlen.

(** The call of [real_main]: [temp_rec = *rec] first, so that both headers
    start as the packet's header. *)
Definition chop_packet (chop : chop_t) (hdr : wtap_packet_header)
    (buf : pkt_buf) (adjlen : bool) : wtap_packet_header * option pkt_buf :=
  handle_chopping chop hdr hdr buf adjlen.

(** What the option loop guarantees of a chop configuration: a front length
    is a sum of positive lengths, a back length a sum of negative ones. *)
Record chop_config (chop : chop_t) : Prop := {
  cc_len_begin : 0 <= len_begin chop < 2 ^ 31;
  cc_len_end : - 2 ^ 31 <= len_end chop <= 0;
  cc_off_begin_pos : int_range (off_begin_pos chop);
  cc_off_begin_neg : int_range (off_begin_neg chop);
  cc_off_end_pos : int_range (off_end_pos chop);
  cc_off_end_neg : int_range (off_end_neg chop)
}.

End Chop.

(** ** Time stamps: [nstime_t] *)

Module Nstime.

Record nstime_t := mk_nstime {
  secs : Z;
  nsecs : Z
}.

Definition ONE_BILLION : Z := 1000000000.

Definition NSTIME_INIT_ZERO : nstime_t := mk_nstime 0 0.

Definition G_MAXINT : Z := 2 ^ 31 - 1.

(** Modelled from the spec: [nstime_set_unset] and [nstime_is_unset] of
    wsutil are not in the source file.  A slot of the ring that "has never
    been written" carries the unset time stamp, which is no time stamp of a
    packet: zero seconds with the largest [int] as nanoseconds. *)
Definition nstime_unset : nstime_t := mk_nstime 0 G_MAXINT.

Definition nstime_is_unset (t : nstime_t) : bool :=
  (secs t =? 0) && (nsecs t =? G_MAXINT).

(** Modelled from the spec: [nstime_delta] of wsutil is not in the source
    file.  "delta = current_timestamp - candidate_timestamp"; the delta is
    negative when the first time stamp precedes the second, and then no
    field of it is positive. *)
Definition nstime_delta (b a : nstime_t) : nstime_t :=
  if secs b =? secs a then
    mk_nstime 0 (nsecs b - nsecs a)
  else if secs b <? secs a then
    let s := secs b - secs a in
    let n := nsecs b - nsecs a in
    if 0 <? n then mk_nstime (s + 1) (n - ONE_BILLION) else mk_nstime s n
  else
    let s := secs b - secs a in
    let n := nsecs b - nsecs a in
    if n <? 0 then mk_nstime (s - 1) (n + ONE_BILLION) else mk_nstime s n.

(** Modelled from the spec: [nstime_cmp] of wsutil is not in the source
    file.  Positive when the first time "exceeds" the second, zero when they
    are equal, negative otherwise. *)
Definition nstime_cmp (a b : nstime_t) : Z :=
  if secs a =? secs b then nsecs a - nsecs b else secs a - secs b.

(** The time stamp in nanoseconds. *)
Definition ns_of (t : nstime_t) : Z := secs t * ONE_BILLION + nsecs t.

(** Nanoseconds are a fraction of a second. *)
Definition normalized (t : nstime_t) : Prop := 0 <= nsecs t < ONE_BILLION.

Definition delta_negative (d : nstime_t) : bool :=
  (secs d <? 0) || (nsecs d <? 0).

End Nstime.

(** ** Time adjustment: the time-stamp block of [real_main] *)

Module TimeAdj.
Import Nstime.

Record time_adjustment := mk_adj {
  tv : nstime_t;
  is_negative : bool
}.

(** A record as the time adjustment sees it: the [WTAP_HAS_TS] bit of
    [presence_flags] and the time stamp. *)
Record wtap_rec := mk_rec {
  has_ts : bool;
  ts : nstime_t
}.

Definition set_ts (rec : wtap_rec) (t : nstime_t) : wtap_rec :=
  mk_rec (has_ts rec) t.

(** Lines 1597-1605 and again 1617-1625: [previous_time] plus the strict
    delta, with the carry of the nanoseconds. *)
Definition after_previous (previous_time : nstime_t)
    (strict_time_adj : time_adjustment) : nstime_t :=
  let s := secs previous_time + secs (tv strict_time_adj) in
  let n := nsecs previous_time in
  if ONE_BILLION <=? wrap32s (n + nsecs (tv strict_time_adj)) then
    mk_nstime (s + 1)
              (wrap32s (n + wrap32s (nsecs (tv strict_time_adj) - ONE_BILLION)))
  else
    mk_nstime s (wrap32s (n + nsecs (tv strict_time_adj))).

(** Lines 1575-1630: the strict adjustment of a record that has a time
    stamp.  Returns the record and the new [previous_time]. *)
Definition strict_adjust (strict_time_adj : time_adjustment)
    (previous_time : nstime_t) (rec : wtap_rec) : wtap_rec * nstime_t :=
  let rec' :=
    if negb (secs previous_time =? 0) || negb (nsecs previous_time =? 0) then
      if negb (is_negative strict_time_adj) then
        let current := ts rec in
        let delta := nstime_delta current previous_time in
        if (secs delta <? 0) || (nsecs delta <? 0) then
          set_ts rec (after_previous previous_time strict_time_adj)
        else rec
      else
        set_ts rec (after_previous previous_time strict_time_adj)
    else rec in
  (rec', ts rec').

(** Lines 1632-1661: the fixed shift, seconds first, then nanoseconds. *)
Definition time_shift (time_adj : time_adjustment) (t : nstime_t) : nstime_t :=
  let t :=
    if negb (secs (tv time_adj) =? 0) then
      if is_negative time_adj
      then mk_nstime (secs t - secs (tv time_adj)) (nsecs t)
      else mk_nstime (secs t + secs (tv time_adj)) (nsecs t)
    else t in
  if negb (nsecs (tv time_adj) =? 0) then
    if is_negative time_adj then
      let t :=
        if nsecs t <? nsecs (tv time_adj)
        then mk_nstime (secs t - 1) (wrap32s (nsecs t + ONE_BILLION))
        else t in
      mk_nstime (secs t) (wrap32s (nsecs t - nsecs (tv time_adj)))
    else
      if ONE_BILLION <=? wrap32s (nsecs t + nsecs (tv time_adj)) then
        mk_nstime (secs t + 1)
                  (wrap32s (nsecs t + wrap32s (nsecs (tv time_adj) - ONE_BILLION)))
      else
        mk_nstime (secs t) (wrap32s (nsecs t + nsecs (tv time_adj)))
  else t.

(** The process-wide state of the adjustment and its configuration. *)
Record adj_config := mk_adj_config {
  do_strict_time_adjustment : bool;
  strict_time_adj : time_adjustment;
  time_adj : time_adjustment
}.

Definition previous_time_init : nstime_t := NSTIME_INIT_ZERO.

(** Lines 1572-1630: the strict step of one record; records without a
    time stamp are passed on and leave [previous_time] alone. *)
Definition strict_stage (cfg : adj_config) (previous_time : nstime_t)
    (rec : wtap_rec) : wtap_rec * nstime_t :=
  if has_ts rec then
    if do_strict_time_adjustment cfg
    then strict_adjust (strict_time_adj cfg) previous_time rec
    else (rec, previous_time)
  else (rec, previous_time).

(** Lines 1572-1662: both transforms. *)
Definition adjust_timestamp (cfg : adj_config) (previous_time : nstime_t)
    (rec : wtap_rec) : wtap_rec * nstime_t :=
  let '(rec', prev') := strict_stage cfg previous_time rec in
  if has_ts rec'
  then (set_ts rec' (time_shift (time_adj cfg) (ts rec')), prev')
  else (rec', prev').

(** The records of a run right after the strict step. *)
Fixpoint strict_run (cfg : adj_config) (previous_time : nstime_t)
    (recs : list wtap_rec) : list wtap_rec :=
  match recs with
  | [] => []
  | rec :: rest =>
      let '(rec', prev') := strict_stage cfg previous_time rec in
      rec' :: strict_run cfg prev' rest
  end.

(** A configured delta: seconds that are not negative, nanoseconds a
    fraction of a second (what [set_strict_time_adj] and
    [set_time_adjustment] accept). *)
Definition adj_valid (a : time_adjustment) : Prop :=
  0 <= secs (tv a) /\ normalized (tv a).

End TimeAdj.

(** ** Duplicate detection: [is_duplicate] and [is_duplicate_rel_time] *)

Module Dedup.
Import Nstime.

Record fd_hash_t := mk_fd_hash {
  digest : Z;            (* guint8 digest[16], as a 128-bit number *)
  len : Z;               (* guint32 *)
  frame_time : nstime_t
}.

Definition DEFAULT_DUP_DEPTH : Z := 5.
Definition MAX_DUP_DEPTH : Z := 1000000.

(** An entry of the static array before anything is written to it. *)
Definition fd_hash_zero : fd_hash_t := mk_fd_hash 0 0 NSTIME_INIT_ZERO.

(** The globals of the duplicate detection: the array [fd_hash] (a slot
    that is not in the map is still zero) and the cursor. *)
Record dedup_state := mk_dedup {
  fd_hash : gmap Z fd_hash_t;
  cur_dup_entry : Z
}.

Definition fd_hash_at (st : dedup_state) (i : Z) : fd_hash_t :=
  default fd_hash_zero (fd_hash st !! i).

Record dedup_config := mk_dedup_config {
  dup_window : Z;                  (* int *)
  ignored_bytes : Z;               (* guint32, -I *)
  skip_radiotap : bool;            (* --skip-radiotap-header *)
  relative_time_window : nstime_t  (* -w *)
}.

(** A frame handed to the duplicate detection: the buffer, the captured
    length and, for the time window, the time stamp. *)
Record frame := mk_frame {
  fr_data : list Z;
  fr_len : Z;
  fr_time : nstime_t
}.

(** Lines 1422-1428: the slots below the window are cleared and their
    time stamps unset before the first packet. *)
Fixpoint fd_hash_clear (n : nat) (h : gmap Z fd_hash_t) : gmap Z fd_hash_t :=
  match n with
  | O => h
  | S n' => <[Z.of_nat n' := mk_fd_hash 0 0 nstime_unset]> (fd_hash_clear n' h)
  end.

Definition dedup_init (cfg : dedup_config) : dedup_state :=
  mk_dedup (fd_hash_clear (Z.to_nat (dup_window cfg)) ∅) 0.

Definition fd_at (fd : list Z) (i : nat) : Z := default 0 (fd !! i).

(** [pletoh16]: a 16-bit little-endian value. *)
Definition pletoh16 (p : list Z) : Z :=
  Z.lor (fd_at p 0) (Z.shiftl (fd_at p 1) 8).

(** Modelled from the spec: [struct ieee80211_radiotap_header] is declared
    outside the source file.  The header describes itself: its length
    [it_len] is read "from the first bytes of the packet", the 16-bit field
    that follows the two one-byte fields [it_version] and [it_pad]. *)
Definition it_len (fd : list Z) : Z := pletoh16 (drop 2 fd).

(** Lines 584-598: the offset [is_duplicate] skips. *)
Definition dup_offset (cfg : dedup_config) (fd : list Z) (len : Z) : Z :=
  let offset := ignored_bytes cfg in
  let offset := if len <=? ignored_bytes cfg then 0 else offset in
  if skip_radiotap cfg then
    let offset := it_len fd in
    if len <=? offset then 0 else offset
  else offset.

(** Lines 631-637: the offset [is_duplicate_rel_time] skips. *)
Definition rel_time_offset (cfg : dedup_config) (fd : list Z) (len : Z) : Z :=
  let offset := ignored_bytes cfg in
  if len <=? ignored_bytes cfg then 0 else offset.

(** The bytes [new_fd[0 .. new_len)] that are digested. *)
Definition digested (fd : list Z) (len offset : Z) : list Z :=
  take (Z.to_nat (wrap32u (len - offset))) (drop (Z.to_nat offset) fd).

(** [cur_dup_entry++; if (cur_dup_entry >= dup_window) cur_dup_entry = 0;] *)
Definition next_entry (cfg : dedup_config) (cur : Z) : Z :=
  let cur := wrap32s (cur + 1) in
  if dup_window cfg <=? cur then 0 else cur.

Definition same_hash (a b : fd_hash_t) : bool :=
  (len a =? len b) && (digest a =? digest b).

(** Lines 613-621: [for (i = 0; i < dup_window; i++)], [n] slots to go. *)
Fixpoint dup_scan (st : dedup_state) (n : nat) (i : Z) : bool :=
  match n with
  | O => false
  | S n' =>
      if i =? cur_dup_entry st then dup_scan st n' (i + 1)
      else if same_hash (fd_hash_at st i) (fd_hash_at st (cur_dup_entry st))
      then true
      else dup_scan st n' (i + 1)
  end.

(** Lines 674-734: the walk back from the newest entry.  [i] is the loop
    variable as the loop head finds it, before it wraps.  The walk ends
    within [dup_window] rounds; [None] stands for a walk that has not ended
    when the rounds are used up. *)
Fixpoint rel_time_scan (cfg : dedup_config) (st : dedup_state)
    (current : nstime_t) (rounds : nat) (i : Z) : option bool :=
  match rounds with
  | O => None
  | S rounds' =>
      let i := if i <? 0 then dup_window cfg - 1 else i in
      if i =? cur_dup_entry st then Some false
      else if nstime_is_unset (frame_time (fd_hash_at st i)) then Some false
      else
        let delta := nstime_delta current (frame_time (fd_hash_at st i)) in
        if (secs delta <? 0) || (nsecs delta <? 0)
        then rel_time_scan cfg st current rounds' (i - 1)
        else
          let cmp := nstime_cmp delta (relative_time_window cfg) in
          if 0 <? cmp then Some false
          else if same_hash (fd_hash_at st i) (fd_hash_at st (cur_dup_entry st))
          then Some true
          else rel_time_scan cfg st current rounds' (i - 1)
  end.

Section Digest.

(** [gcry_md_hash_buffer(GCRY_MD_MD5, ...)]: the digest of libgcrypt, a
    function of the digested bytes. *)
Variable md5 : list Z -> Z.

(** Lines 584-610: what [is_duplicate] writes before it looks for
    duplicates.  The time stamp of the slot is not touched. *)
Definition dup_store (cfg : dedup_config) (fd : list Z) (len : Z)
    (st : dedup_state) : dedup_state :=
  let offset := dup_offset cfg fd len in
  let cur := next_entry cfg (cur_dup_entry st) in
  let entry :=
    mk_fd_hash (md5 (digested fd len offset)) len
               (frame_time (fd_hash_at st cur)) in
  mk_dedup (<[cur := entry]> (fd_hash st)) cur.

Definition is_duplicate (cfg : dedup_config) (fd : list Z) (len : Z)
    (st : dedup_state) : bool * dedup_state :=
  let st' := dup_store cfg fd len st in
  (dup_scan st' (Z.to_nat (dup_window cfg)) 0, st').

(** Lines 631-651: what [is_duplicate_rel_time] writes. *)
Definition rel_time_store (cfg : dedup_config) (fd : list Z) (len : Z)
    (current : nstime_t) (st : dedup_state) : dedup_state :=
  let offset := rel_time_offset cfg fd len in
  let cur := next_entry cfg (cur_dup_entry st) in
  let entry :=
    mk_fd_hash (md5 (digested fd len offset)) len
               (mk_nstime (secs current) (nsecs current)) in
  mk_dedup (<[cur := entry]> (fd_hash st)) cur.

Definition is_duplicate_rel_time (cfg : dedup_config) (fd : list Z) (len : Z)
    (current : nstime_t) (st : dedup_state) : option bool * dedup_state :=
  let st' := rel_time_store cfg fd len current st in
  (rel_time_scan cfg st' current (Z.to_nat (dup_window cfg))
     (cur_dup_entry st' - 1),
   st').

(** The frames of a run, one call each. *)
Definition dup_run (cfg : dedup_config) (frames : list frame)
    (st : dedup_state) : dedup_state :=
  fold_left (fun st f => snd (is_duplicate cfg (fr_data f) (fr_len f) st))
            frames st.

Definition rel_time_run (cfg : dedup_config) (frames : list frame)
    (st : dedup_state) : dedup_state :=
  fold_left
    (fun st f =>
       snd (is_duplicate_rel_time cfg (fr_data f) (fr_len f) (fr_time f) st))
    frames st.

(** The fingerprint [is_duplicate] keeps of a frame: digest and length. *)
Definition dup_fingerprint (cfg : dedup_config) (f : frame) : Z * Z :=
  (md5 (digested (fr_data f) (fr_len f)
          (dup_offset cfg (fr_data f) (fr_len f))),
   fr_len f).

(** The entry [is_duplicate_rel_time] keeps of a frame. *)
Definition rel_time_entry (cfg : dedup_config) (f : frame) : fd_hash_t :=
  mk_fd_hash
    (md5 (digested (fr_data f) (fr_len f)
            (rel_time_offset cfg (fr_data f) (fr_len f))))
    (fr_len f) (fr_time f).

End Digest.

(** The cursor points into the window. *)
Definition cursor_ok (cfg : dedup_config) (st : dedup_state) : Prop :=
  0 <= cur_dup_entry st < dup_window cfg.

End Dedup.

(** ** Error injection: the mutation loop of [real_main] *)

Module ErrInj.

Definition ERR_WT_BIT : Z := 5.
Definition ERR_WT_BYTE : Z := 5.
Definition ERR_WT_ALNUM : Z := 5.
Definition ERR_WT_FMT : Z := 2.
Definition ERR_WT_AA : Z := 1.
Definition ERR_WT_TOTAL : Z :=
  ERR_WT_BIT + ERR_WT_BYTE + ERR_WT_ALNUM + ERR_WT_FMT + ERR_WT_AA.

Definition codes (s : string) : list Z :=
  map (fun a => Z.of_nat (Ascii.nat_of_ascii a)) (String.list_ascii_of_string s).

Definition ALNUM_CHARS : list Z :=
  codes "ABCDEFGHIJKLMNOPQRSTUVWXYZabcdefghijklmnopqrstuvwxyz0123456789"%string.
Definition ALNUM_LEN : Z := Z.of_nat (length ALNUM_CHARS).

Definition byte_at (buf : list Z) (i : Z) : Z := default 0 (buf !! Z.to_nat i).

(** [buf[i] = v] for a position of the buffer. *)
Definition set_byte (buf : list Z) (i v : Z) : list Z :=
  if i <? 0 then buf else <[Z.to_nat i := v mod 256]> buf.

Fixpoint write_bytes (buf : list Z) (i : Z) (src : list Z) : list Z :=
  match src with
  | [] => buf
  | c :: rest => write_bytes (set_byte buf i c) (i + 1) rest
  end.

(** [g_strlcpy(dest, src, dest_size)] of GLib, [dest] being [&buf[i]] and
    [src] the characters before the terminating NUL: at most
    [dest_size - 1] characters are copied and the copy is always
    NUL-terminated, unless [dest_size] is 0. *)
Definition g_strlcpy (buf : list Z) (i : Z) (src : list Z) (dest_size : Z)
  : list Z :=
  if dest_size <=? 0 then buf
  else write_bytes buf i (take (Z.to_nat (dest_size - 1)) src ++ [0]).

(** Lines 1845-1846: [for (j = i; j < (int) caplen; j++) buf[j] = 0xAA]. *)
Fixpoint fill_aa (n : nat) (buf : list Z) (j : Z) : list Z :=
  match n with
  | O => buf
  | S n' => fill_aa n' (set_byte buf j 170) (j + 1)
  end.

(** Lines 1836-1839: the format outcome at position [i]. *)
Definition inject_fmt (buf : list Z) (i caplen : Z) : list Z :=
  if wrap32u i <? wrap32u (caplen - 2)
  then g_strlcpy buf i (codes "%s"%string) 2
  else buf.

Section Rand.

(** The generator behind [rand()]: a state and the draw. *)
Variable rng : Type.
Variable rand : rng -> Z * rng.
Variable RAND_MAX : Z.
(** [rand() <= err_prob * RAND_MAX], a comparison of doubles, as a test on
    the number drawn. *)
Variable err_hit : Z -> bool.

(** Lines 1813-1848: one error at position [i], chosen by [err_type]; the
    buffer, the loop variable and the generator afterwards. *)
Definition inject (buf : list Z) (i caplen err_type : Z) (g : rng)
  : list Z * Z * rng :=
  let '(buf, err_type, g) :=
    if err_type <? ERR_WT_BIT then
      let '(r, g) := rand g in
      (set_byte buf i
         (Z.lxor (byte_at buf i) (Z.shiftl 1 (r / (RAND_MAX / 8 + 1)))),
       ERR_WT_TOTAL, g)
    else (buf, err_type - ERR_WT_BYTE, g) in
  let '(buf, err_type, g) :=
    if err_type <? ERR_WT_BYTE then
      let '(r, g) := rand g in
      (set_byte buf i (r / (RAND_MAX / 255 + 1)), ERR_WT_TOTAL, g)
    else (buf, err_type - ERR_WT_BYTE, g) in
  let '(buf, err_type, g) :=
    if err_type <? ERR_WT_ALNUM then
      let '(r, g) := rand g in
      (set_byte buf i (byte_at ALNUM_CHARS (r / (RAND_MAX / ALNUM_LEN + 1))),
       ERR_WT_TOTAL, g)
    else (buf, err_type - ERR_WT_ALNUM, g) in
  let '(buf, err_type) :=
    if err_type <? ERR_WT_FMT then (inject_fmt buf i caplen, ERR_WT_TOTAL)
    else (buf, err_type - ERR_WT_FMT) in
  if err_type <? ERR_WT_AA
  then (fill_aa (Z.to_nat (wrap32s caplen - i)) buf i, wrap32s caplen, g)
  else (buf, i, g).

(** Lines 1811-1850: the loop over the positions, [n] of them to go. *)
Fixpoint mutate (n : nat) (buf : list Z) (i caplen : Z) (g : rng)
  : list Z * rng :=
  match n with
  | O => (buf, g)
  | S n' =>
      if i <? wrap32s caplen then
        let '(r, g) := rand g in
        if err_hit r then
          let '(r, g) := rand g in
          let err_type := r / (RAND_MAX / ERR_WT_TOTAL + 1) in
          let '(buf, i, g) := inject buf i caplen err_type g in
          mutate n' buf (wrap32s (i + 1)) caplen g
        else mutate n' buf (wrap32s (i + 1)) caplen g
      else (buf, g)
  end.

End Rand.

End ErrInj.

(** ** Error injection: what is mutated, from where *)

Module ErrStage.
Import ErrInj.

(** [for (; buf[n] != '\0'; n++);] over the bytes from [buf[n]] on.  A
    buffer that ends before a NUL is read past its end: [None]. *)
Fixpoint skip_to_nul (l : list Z) (n : Z) : option Z :=
  match l with
  | [] => None
  | c :: rest => if c =? 0 then Some n else skip_to_nul rest (wrap32s (n + 1))
  end.

Definition scan_string (buf : list Z) (n : Z) : option Z :=
  if n <? 0 then None else skip_to_nul (drop (Z.to_nat n) buf) n.

(** Lines 1968-1987: the offset of the protocol data in a DCT2000 record. *)
Definition find_dct2000_real_data (buf : list Z) : option Z :=
  n ← scan_string buf 0;                  (* Context name *)
  let n := wrap32s (n + 1) in
  let n := wrap32s (n + 1) in             (* Context port number *)
  n ← scan_string buf n;                  (* Timestamp *)
  let n := wrap32s (n + 1) in
  n ← scan_string buf n;                  (* Protocol name *)
  let n := wrap32s (n + 1) in
  n ← scan_string buf n;                  (* Variant number (as string) *)
  let n := wrap32s (n + 1) in
  n ← scan_string buf n;                  (* Outhdr (as string) *)
  let n := wrap32s (n + 1) in
  Some (wrap32s (n + 2)).                 (* Direction & encap *)

Section Stage.

Variable rng : Type.
Variable rand : rng -> Z * rng.
Variable RAND_MAX : Z.
Variable err_hit : Z -> bool.

(** Lines 1767-1851 for a packet record.  [err_prob_positive] is the test
    [err_prob > 0.0]; [dct2000] says whether the file is a Catapult DCT2000
    file, the only one with data to protect.  The loop runs at most once
    per position from the start to [caplen]. *)
Definition mutation_stage (err_prob_positive dct2000 : bool)
    (change_offset caplen : Z) (buf : list Z) (g : rng)
  : option (list Z * rng) :=
  let do_mutation := err_prob_positive && negb (caplen <? change_offset) in
  if do_mutation then
    real_data_start ← (if dct2000 then find_dct2000_real_data buf else Some 0);
    let real_data_start := wrap32s (real_data_start + change_offset) in
    Some (mutate rng rand RAND_MAX err_hit
            (Z.to_nat (wrap32s caplen - real_data_start))
            buf real_data_start caplen g)
  else Some (buf, g).

End Stage.

End ErrStage.

(** ** Packet selection: [add_selection] and [selected] *)

Module Select.

Definition G_MAXUINT : Z := 4294967295.
Definition MAX_SELECTIONS : Z := 512.

Record select_item := mk_select {
  inclusive : bool;
  first : Z;
  second : Z
}.

(** [strchr(sel, '-')] and the split at it (lines 280, 295-296): the text
    before the first dash and the text after it.  Characters are their
    codes. *)
Fixpoint split_dash (sel : list Z) : option (list Z * list Z) :=
  match sel with
  | [] => None
  | c :: rest =>
      if c =? 45 then Some ([], rest)
      else match split_dash rest with
           | Some (before, next) => Some (c :: before, next)
           | None => None
           end
  end.

Section Numbers.

(** [get_guint32] of the option helpers: the number a text denotes, a
    [guint32]; it ends the program on any other text. *)
Variable get_guint32 : list Z -> Z.

(** Lines 265-316.  The table [selectfrm] is the list of its first
    [max_selected] entries; the entries are static storage, so the
    [second] of a single number is 0. *)
Definition add_selection (sel : list Z) (selectfrm : list select_item)
    (max_selection : Z) : bool * list select_item * Z :=
  if MAX_SELECTIONS <=? Z.of_nat (length selectfrm)
  then (false, selectfrm, max_selection)
  else
    match split_dash sel with
    | None =>
        let first := get_guint32 sel in
        (true, selectfrm ++ [mk_select false first 0],
         if max_selection <? first then first else max_selection)
    | Some (sel, next) =>
        let first := get_guint32 sel in
        let second := get_guint32 next in
        if second =? 0
        then (true, selectfrm ++ [mk_select true first G_MAXUINT], G_MAXUINT)
        else (true, selectfrm ++ [mk_select true first second],
              if max_selection <? second then second else max_selection)
    end.

(** Lines 1415-1417: the selections of the command line, up to the first
    one that is refused. *)
Fixpoint add_selections (args : list (list Z))
    (selectfrm : list select_item) (max_packet_number : Z)
  : list select_item * Z :=
  match args with
  | [] => (selectfrm, max_packet_number)
  | sel :: rest =>
      let '(ok, selectfrm, max_packet_number) :=
        add_selection sel selectfrm max_packet_number in
      if ok then add_selections rest selectfrm max_packet_number
      else (selectfrm, max_packet_number)
  end.

(** Lines 1415-1420, from the empty table and [max_packet_number = 0]. *)
Definition selection_setup (keep_em : bool) (args : list (list Z))
  : list select_item * Z :=
  let '(selectfrm, max_packet_number) := add_selections args [] 0 in
  (selectfrm, if keep_em then max_packet_number else G_MAXUINT).

End Numbers.

(** Lines 320-336. *)
Fixpoint selected (selectfrm : list select_item) (recno : Z) : bool :=
  match selectfrm with
  | [] => false
  | item :: rest =>
      if inclusive item then
        if (first item <=? recno) && (recno <=? second item) then true
        else selected rest recno
      else
        if recno =? first item then true else selected rest recno
  end.

(** What the selection reads of a record: whether it has a time stamp, and
    its seconds. *)
Record sel_rec := mk_sel_rec {
  rec_has_ts : bool;
  rec_secs : Z
}.

Record sel_config := mk_sel_config {
  selectfrm : list select_item;
  keep_em : bool;
  check_startstop : bool;
  starttime : Z;
  stoptime : Z
}.

(** Lines 1544-1559. *)
Definition ts_okay (cfg : sel_config) (rec : sel_rec) : bool :=
  if check_startstop cfg then
    if rec_has_ts rec
    then (starttime cfg <=? rec_secs rec) && (rec_secs rec <? stoptime cfg)
    else false
  else true.

(** Lines 1561-1562: is the record processed and written? *)
Definition keep (cfg : sel_config) (count : Z) (rec : sel_rec) : bool :=
  ts_okay cfg rec
  && ((negb (selected (selectfrm cfg) count) && negb (keep_em cfg))
      || (selected (selectfrm cfg) count && keep_em cfg)).

(** The read loop (lines 1431-1435, 1561, 1884) as far as the selection
    goes: the numbers of the records that pass it, in order.  The loop ends
    with the file or at [max_packet_number]. *)
Fixpoint read_loop (cfg : sel_config) (max_packet_number : Z)
    (recs : list sel_rec) (read_count count : Z) : list Z :=
  match recs with
  | [] => []
  | rec :: rest =>
      if max_packet_number <=? read_count then []
      else
        let read_count := wrap32u (read_count + 1) in
        (if keep cfg count rec then [count] else [])
        ++ read_loop cfg max_packet_number rest read_count
             (wrap32u (count + 1))
  end.

End Select.

(** ** Removal of the VLAN tag: [remove_vlan_info] *)

Module Vlan.
Import Chop.

Definition LINUX_SLL_OFFSETP : Z := 14.
Definition VLAN_SIZE : Z := 4.
(** The 802.1Q tag protocol identifier of the Ethernet type table. *)
Definition ETHERTYPE_VLAN : Z := 33024.

(** [pntoh16(fd + off)]: two bytes in network order.  The list is the
    buffer; a byte past its end reads as 0 here. *)
Definition pntoh16 (fd : list Z) (off : Z) : Z :=
  default 0 (fd !! Z.to_nat off) * 256 + default 0 (fd !! Z.to_nat (off + 1)).

(** Lines 552-564.  [rest_len] is an [int] that [memmove] takes as a
    [size_t]: a negative one is a size beyond any buffer. *)
Definition sll_remove_vlan_info (fd : list Z) (len : Z)
  : option (list Z * Z) :=
  if pntoh16 fd LINUX_SLL_OFFSETP =? ETHERTYPE_VLAN then
    let rest_len := wrap32s (len - (LINUX_SLL_OFFSETP + VLAN_SIZE)) in
    fd' ← memmove fd LINUX_SLL_OFFSETP (LINUX_SLL_OFFSETP + VLAN_SIZE)
            rest_len;
    Some (fd', wrap32u (len - 4))
  else Some (fd, len).

(** Lines 566-576; [sll] is the test [phdr->pkt_encap == WTAP_ENCAP_SLL]. *)
Definition remove_vlan_info (sll : bool) (fd : list Z) (len : Z)
  : option (list Z * Z) :=
  if sll then sll_remove_vlan_info fd len else Some (fd, len).

End Vlan.

(** ** Names of the files of a set: [fileset_extract_prefix_suffix] *)

Module Fileset.

(** [strrchr(s, c)]: the position of the last [c] in [s]. *)
Fixpoint strrchr (s : list Z) (c : Z) : option nat :=
  match s with
  | [] => None
  | x :: rest =>
      match strrchr rest c with
      | Some n => Some (S n)
      | None => if x =? c then Some 0%nat else None
      end
  end.

Section Separator.

(** GLib's [G_DIR_SEPARATOR]: the slash, or the backslash on Windows. *)
Variable G_DIR_SEPARATOR : Z.

(** Lines 225-262: the prefix and the suffix ([None] for [NULL]). *)
Definition fileset_extract_prefix_suffix (fname : list Z)
  : list Z * option (list Z) :=
  let last_pathsep := strrchr fname G_DIR_SEPARATOR in
  match strrchr fname 46 with
  | Some pfx =>
      if match last_pathsep with
         | None => true
         | Some sep => (sep <? pfx)%nat
         end
      then (take pfx fname, Some (drop pfx fname))
      else (fname, None)
  | None => (fname, None)
  end.

End Separator.

End Fileset.

(** ** Splitting the output: the file rotation of [real_main] *)

Module Split.
Import Nstime TimeAdj.

(** Lines 1483-1485: is the record at or past the end of the block?
    The difference of the seconds is cast to [guint32]. *)
Definition block_over (secs_per_block : Z) (block_start ts : nstime_t)
  : bool :=
  (secs_per_block <? wrap32u (secs ts - secs block_start))
  || ((wrap32u (secs ts - secs block_start) =? secs_per_block)
      && (nsecs block_start <=? nsecs ts)).

(** Lines 1483-1511: each round closes the file, moves the block on and
    opens the next file; [block_cnt] counts the files.  [None] when the
    rounds given do not suffice. *)
Fixpoint next_block (rounds : nat) (secs_per_block : Z)
    (block_start : nstime_t) (block_cnt : Z) (ts : nstime_t)
  : option (nstime_t * Z) :=
  match rounds with
  | O => None
  | S rounds' =>
      if block_over secs_per_block block_start ts then
        next_block rounds' secs_per_block
          (mk_nstime (secs block_start + secs_per_block) (nsecs block_start))
          (wrap32s (block_cnt + 1)) ts
      else Some (block_start, block_cnt)
  end.

(** Lines 1478-1513. *)
Definition time_block (rounds : nat) (secs_per_block : Z)
    (block_start : nstime_t) (block_cnt : Z) (rec : wtap_rec)
  : option (nstime_t * Z) :=
  if has_ts rec then
    let block_start :=
      if nstime_is_unset block_start then ts rec else block_start in
    if secs_per_block =? 0 then Some (block_start, block_cnt)
    else next_block rounds secs_per_block block_start block_cnt (ts rec)
  else Some (block_start, block_cnt).

(** Lines 1515-1517: time for the next file?  [written_count] is an [int]
    and the remainder is taken in [guint32]. *)
Definition count_over (split_packet_count written_count : Z) : bool :=
  negb (split_packet_count =? 0)
  && (0 <? written_count)
  && (wrap32u written_count mod split_packet_count =? 0).

(** The read loop as far as splitting by count goes (lines 1515-1542,
    1882): for each record read, whether it is written; the result is the
    index of the file that each written record goes to.  The file in use
    is the one named last, with the index [block_cnt - 1]. *)
Fixpoint split_run (split_packet_count written_count block_cnt : Z)
    (written : list bool) : list Z :=
  match written with
  | [] => []
  | w :: rest =>
      let block_cnt :=
        if count_over split_packet_count written_count
        then wrap32s (block_cnt + 1) else block_cnt in
      if w then
        (block_cnt - 1)
        :: split_run split_packet_count (wrap32s (written_count + 1))
             block_cnt rest
      else split_run split_packet_count written_count block_cnt rest
  end.

End Split.

(** ** Time values of the options: [set_time_adjustment] and the like *)

Module TimeOpt.
Import Nstime TimeAdj.

(** [isspace] and [isdigit] of the C locale. *)
Definition isspace (c : Z) : bool := (c =? 32) || ((9 <=? c) && (c <=? 13)).
Definition isdigit (c : Z) : bool := (48 <=? c) && (c <=? 57).

Fixpoint skip_spaces (s : list Z) : list Z :=
  match s with
  | c :: rest => if isspace c then skip_spaces rest else s
  | [] => []
  end.

(** The decimal digits at the head of [s]: their value after [acc], and
    the text that is left. *)
Fixpoint digits (s : list Z) (acc : Z) : Z * list Z :=
  match s with
  | c :: rest => if isdigit c then digits rest (10 * acc + (c - 48))
                 else (acc, s)
  | [] => (acc, [])
  end.

Section Long.

(** The largest [long] of the platform. *)
Variable LONG_MAX : Z.
Definition LONG_MIN : Z := - LONG_MAX - 1.

(** [strtol(s, &end, 10)] of the C library on the text [s] (its
    characters before the NUL): the value and [end - s].  White space and
    one sign are skipped; without a digit nothing is consumed and the value
    is 0; a value out of range becomes [LONG_MAX] or [LONG_MIN]. *)
Definition strtol (s : list Z) : Z * Z :=
  let body := skip_spaces s in
  let '(negative, body) :=
    match body with
    | 45 :: rest => (true, rest)
    | 43 :: rest => (false, rest)
    | _ => (false, body)
    end in
  let '(v, rest) := digits body 0 in
  if (length rest =? length body)%nat then (0, 0)
  else (if negative then Z.max LONG_MIN (- v) else Z.min LONG_MAX v,
        Z.of_nat (length s - length rest)).

(** Lines 348-350: the leading blanks and tabs are skipped. *)
Fixpoint skip_blanks (s : list Z) : list Z :=
  match s with
  | c :: rest => if (c =? 32) || (c =? 9) then skip_blanks rest else s
  | [] => []
  end.

(** Lines 399-402: the loop that multiplies [val] by 10 while
    [frac_digits] is below 9, [n] rounds of it. *)
Fixpoint scale (n : nat) (val : Z) : Z :=
  match n with
  | O => val
  | S n' => scale n' (val * 10)
  end.

(** Lines 358-375: the whole seconds of the text after the sign, and
    where they end.  [None] for [FALSE]. *)
Definition time_whole (s : list Z) : option (Z * Z) :=
  match s with
  | 46 :: _ => Some (0, 0)
  | _ =>
      let '(val, used) := strtol s in
      if (used =? 0) || (val =? LONG_MIN) || (val =? LONG_MAX) then None
      else if val <? 0 then None
      else Some (val, used)
  end.

(** Lines 378-405: the partial seconds; [frac] is the text after the whole
    seconds and [t] the value with the seconds stored. *)
Definition time_fraction (frac : list Z) (t : nstime_t) : bool * nstime_t :=
  match frac with
  | [] => (true, t)
  | dot :: after =>
      let '(val, len) := strtol after in
      let '(val, len) :=
        if 9 <? len then strtol (<[9%nat := 116]> after) else (val, len) in
      if negb (dot =? 46) || (val <? 0) || (ONE_BILLION <=? val)
         || (val =? LONG_MIN) || (val =? LONG_MAX)
      then (false, t)
      else (true,
            mk_nstime (secs t) (wrap32s (scale (Z.to_nat (9 - len)) val)))
  end.

(** Lines 358-405, the same in the three functions: the result and the
    value left in the variable, [old] being the value it holds. *)
Definition time_value (s : list Z) (old : nstime_t) : bool * nstime_t :=
  match time_whole s with
  | None => (false, old)
  | Some (val, used) =>
      time_fraction (drop (Z.to_nat used) s) (mk_nstime val (nsecs old))
  end.

(** Lines 338-406, for the text of an option.  The sign is recorded before
    the value is read, and it is never cleared. *)
Definition set_time_adjustment (optarg : list Z) (time_adj : time_adjustment)
  : bool * time_adjustment :=
  let s := skip_blanks optarg in
  let '(negative, s) :=
    match s with
    | 45 :: rest => (true, rest)
    | _ => (is_negative time_adj, s)
    end in
  let '(ok, t) := time_value s (tv time_adj) in
  (ok, mk_adj t negative).

(** Lines 408-480. *)
Definition set_strict_time_adj (optarg : list Z)
    (strict_time_adj : time_adjustment) : bool * time_adjustment :=
  let s := skip_blanks optarg in
  let '(negative, s) :=
    match s with
    | 45 :: rest => (true, rest)
    | _ => (is_negative strict_time_adj, s)
    end in
  let '(ok, t) := time_value s (tv strict_time_adj) in
  (ok, mk_adj t negative).

(** Lines 482-548: the sign is skipped. *)
Definition set_rel_time (optarg : list Z) (relative_time_window : nstime_t)
  : bool * nstime_t :=
  let s := skip_blanks optarg in
  let s := match s with 45 :: rest => rest | _ => s end in
  time_value s relative_time_window.

End Long.

End TimeOpt.

(** * Properties *)

(** ** Machine integers *)

Lemma wrap32u_range z : guint32_range (wrap32u z).
Proof. unfold guint32_range, wrap32u. apply Z.mod_pos_bound. lia. Qed.

Lemma wrap32s_range z : int_range (wrap32s z).
Proof.
  unfold int_range, wrap32s.
  pose proof (Z.mod_pos_bound (z + 2 ^ 31) (2 ^ 32)). lia.
Qed.

Lemma wrap32u_id z : 0 <= z < 2 ^ 32 -> wrap32u z = z.
Proof. intros H. unfold wrap32u. now apply Z.mod_small. Qed.

Lemma wrap32s_id z : - 2 ^ 31 <= z < 2 ^ 31 -> wrap32s z = z.
Proof. intros H. unfold wrap32s. rewrite Z.mod_small; lia. Qed.

Lemma wrap32u_neg z : - 2 ^ 32 <= z < 0 -> wrap32u z = z + 2 ^ 32.
Proof.
  intros H. unfold wrap32u.
  replace z with (z + 2 ^ 32 + (-1) * 2 ^ 32) at 1 by ring.
  rewrite Z.mod_add by lia. apply Z.mod_small. lia.
Qed.

Lemma wrap32u_wrap32s z : wrap32u (wrap32s z) = wrap32u z.
Proof.
  unfold wrap32u, wrap32s.
  rewrite Zminus_mod, Z.mod_mod by lia.
  rewrite <- Zminus_mod. f_equal. ring.
Qed.

(** ** Properties of chopping *)

Module ChopFacts.
Import Chop.

(** Case analysis on the boolean comparisons of the embedding. *)
Ltac split_tests :=
  repeat match goal with
    | |- context [ (?a <? ?b) ] =>
        destruct (Z.ltb_spec a b)
    | |- context [ (?a =? ?b) ] =>
        destruct (Z.eqb_spec a b)
    end;
  cbn [negb andb orb].

Lemma chop_zero_config : chop_config chop_zero.
Proof. constructor; unfold int_range; cbn; lia. Qed.

(** Directives accumulated without overflow of the lengths keep the
    signs of the lengths. *)
Lemma add_chop_config chop chopoff choplen :
  chop_config chop ->
  len_begin chop + choplen < 2 ^ 31 -> - 2 ^ 31 <= len_end chop + choplen ->
  chop_config (add_chop chop chopoff choplen).
Proof.
  intros [Hb He H1 H2 H3 H4] Hub Hle. unfold add_chop.
  destruct (Z.ltb_spec 0 choplen); [|destruct (Z.ltb_spec choplen 0)];
    try destruct (Z.ltb_spec 0 chopoff);
    constructor; cbn; try assumption; try apply wrap32s_range;
    rewrite wrap32s_id; lia.
Qed.

(** The lengths of the two regions after the swap: the front length can
    only be negative as the wrapped negation of [INT_MIN]. *)
Definition lens_ordered (chop : chop_t) : Prop :=
  int_range (len_begin chop)
  /\ - 2 ^ 31 <= len_end chop <= 0
  /\ (len_begin chop < 0 ->
      len_begin chop = - 2 ^ 31 /\ - 2 ^ 31 < len_end chop).

Lemma chop_clear_offsets_lens chop :
  len_begin (chop_clear_offsets chop) = len_begin chop
  /\ len_end (chop_clear_offsets chop) = len_end chop.
Proof. unfold chop_clear_offsets. split_tests; cbn; auto. Qed.

Lemma chop_fold_offsets_lens cap chop :
  len_begin (chop_fold_offsets cap chop) = len_begin chop
  /\ len_end (chop_fold_offsets cap chop) = len_end chop.
Proof. unfold chop_fold_offsets. split_tests; cbn; auto. Qed.

Lemma wrap32s_opp_nonneg z : 0 <= z < 2 ^ 31 -> wrap32s (- z) = - z.
Proof. intros H. apply wrap32s_id. lia. Qed.

Lemma wrap32s_opp_nonpos z :
  - 2 ^ 31 <= z <= 0 ->
  (z = - 2 ^ 31 /\ wrap32s (- z) = - 2 ^ 31)
  \/ (- 2 ^ 31 < z /\ wrap32s (- z) = - z).
Proof.
  intros H. destruct (Z.eq_dec z (- 2 ^ 31)) as [->|Hne].
  - left. split; [reflexivity|]. reflexivity.
  - right. split; [lia|]. apply wrap32s_id. lia.
Qed.

Lemma chop_regions_lens cap chop :
  0 <= len_begin chop < 2 ^ 31 -> - 2 ^ 31 <= len_end chop <= 0 ->
  lens_ordered (chop_regions cap chop).
Proof.
  intros Hb He. unfold chop_regions.
  destruct (chop_clear_offsets_lens chop) as [Hb1 He1].
  destruct (chop_fold_offsets_lens cap (chop_clear_offsets chop)) as [Hb2 He2].
  set (c := chop_fold_offsets cap (chop_clear_offsets chop)) in *.
  assert (Hcb : 0 <= len_begin c < 2 ^ 31) by (rewrite Hb2, Hb1; exact Hb).
  assert (Hce : - 2 ^ 31 <= len_end c <= 0) by (rewrite He2, He1; exact He).
  clearbody c. clear - Hcb Hce.
  unfold chop_swap, lens_ordered, int_range.
  destruct (negb (len_begin c =? 0) && negb (len_end c =? 0)) eqn:Hboth;
    [|lia].
  destruct (wrap32s (wrap32s cap + off_end_neg c) <? off_begin_pos c);
    [|lia].
  cbn. apply andb_true_iff in Hboth as [Hnb _].
  apply negb_true_iff, Z.eqb_neq in Hnb.
  rewrite (wrap32s_opp_nonneg (len_begin c)) by lia.
  destruct (wrap32s_opp_nonpos (len_end c) Hce) as [[-> ->]|[Hlt ->]]; lia.
Qed.

(** Total number of bytes the two regions remove. *)
Definition removed (chop : chop_t) : Z :=
  (if 0 <? len_begin chop then len_begin chop else 0)
  + (if len_end chop <? 0 then - len_end chop else 0).

(** Linear arithmetic through the wraps. *)
Ltac wrap_lia :=
  unfold wrap32u, wrap32s, int_range, guint32_range in *;
  Z.div_mod_to_equations; lia.

Lemma chop_clamp_removed cap chop :
  guint32_range cap -> lens_ordered chop ->
  0 <= removed (chop_clamp cap chop) <= cap.
Proof.
  unfold lens_ordered.
  intros Hcap (Hb & He & Hmin).
  unfold chop_clamp, removed, chop_offsets.
  destruct (Z.ltb_spec cap (wrap32u (off_begin_pos chop - off_end_neg chop)))
    as [Hlt|Hge]; cbn [len_begin len_end off_begin_pos off_end_neg].
  - (* the offsets alone exceed the packet: both lengths are zeroed *)
    change (wrap32u (0 - 0)) with 0.
    destruct (Z.ltb_spec
                (wrap32u (cap - wrap32u (off_begin_pos chop - off_end_neg chop)))
                0) as [Hneg|_]; cbn [len_begin len_end].
    + exfalso. wrap_lia.
    + cbn. wrap_lia.
  - destruct (Z.ltb_spec
                (wrap32u (cap - wrap32u (off_begin_pos chop - off_end_neg chop)))
                (wrap32u (len_begin chop - len_end chop)))
      as [Hover|Hfit]; cbn [len_begin len_end].
    + (* too long: the front length becomes what is left after the offsets *)
      destruct (Z.ltb_spec 0
                  (wrap32s (cap - (off_begin_pos chop - off_end_neg chop))));
        cbn; wrap_lia.
    + destruct (Z.ltb_spec 0 (len_begin chop));
        destruct (Z.ltb_spec (len_end chop) 0); wrap_lia.
Qed.

Lemma chop_normalize_removed cap chop :
  guint32_range cap -> chop_config chop ->
  0 <= removed (chop_normalize cap chop) <= cap.
Proof.
  intros Hcap Hc. unfold chop_normalize.
  apply chop_clamp_removed; [assumption|].
  apply chop_regions_lens; [apply (cc_len_begin _ Hc)|apply (cc_len_end _ Hc)].
Qed.

(** The captured length written by the two chopping steps, for regions
    that fit the packet. *)
Lemma chop_steps_caplen chop out_phdr in_phdr buf adjlen :
  caplen out_phdr = caplen in_phdr ->
  0 <= removed chop <= caplen in_phdr -> caplen in_phdr < 2 ^ 32 ->
  let '(o, i, b) := chop_begin chop out_phdr in_phdr buf adjlen in
  caplen (fst (chop_end chop o i b adjlen)) = caplen in_phdr - removed chop.
Proof.
  intros Heq Hrem Hcap. unfold chop_begin, chop_end, removed in *.
  destruct (Z.ltb_spec 0 (len_begin chop));
    destruct (Z.ltb_spec (len_end chop) 0);
    destruct adjlen; cbn;
    repeat match goal with
      | |- context [ if ?c then _ else _ ] => destruct c; cbn
      end;
    rewrite ?Heq; rewrite ?wrap32u_id; try lia;
    rewrite ?wrap32u_id; lia.
Qed.

Lemma handle_chopping_caplen chop hdr buf adjlen :
  guint32_range (caplen hdr) -> chop_config chop ->
  caplen (fst (chop_packet chop hdr buf adjlen))
  = caplen hdr - removed (chop_normalize (caplen hdr) chop).
Proof.
  intros Hcap Hc. unfold chop_packet, handle_chopping.
  pose proof (chop_normalize_removed _ _ Hcap Hc) as Hrem.
  pose proof (chop_steps_caplen (chop_normalize (caplen hdr) chop)
                hdr hdr (Some buf) adjlen eq_refl Hrem) as Hs.
  destruct (chop_begin _ hdr hdr (Some buf) adjlen) as [[o i] b].
  apply Hs. apply Hcap.
Qed.

(** C1. For every packet and every chop configuration (a front length
    that is not negative, a back length that is not positive, any offsets),
    the captured length after [handle_chopping] lies between 0 and the
    captured length of the packet: chopping never removes more bytes than
    were captured. *)
Theorem handle_chopping_caplen_bounded chop hdr buf adjlen :
  guint32_range (caplen hdr) -> chop_config chop ->
  0 <= caplen (fst (chop_packet chop hdr buf adjlen)) <= caplen hdr.
Proof.
  intros Hcap Hc.
  rewrite handle_chopping_caplen by assumption.
  pose proof (chop_normalize_removed _ _ Hcap Hc). lia.
Qed.

Definition sample_chop : chop_t := mk_chop 3 2 0 (-4) 0 (-1).
Definition sample_hdr : wtap_packet_header := mk_phdr 8 60.
Definition sample_buf : pkt_buf := mk_buf [10; 11; 12; 13; 14; 15; 16; 17; 18; 19; 20] 0.

Lemma sample_chop_config : chop_config sample_chop.
Proof. constructor; unfold int_range; cbn; lia. Defined.

Lemma handle_chopping_caplen_bounded_witness :
  0 <= caplen (fst (chop_packet sample_chop sample_hdr sample_buf true)) <= 8.
Proof.
  apply (handle_chopping_caplen_bounded sample_chop sample_hdr sample_buf true).
  - unfold guint32_range. cbn. lia.
  - exact sample_chop_config.
Defined.

(** When the offsets of the regions alone exceed the packet, both lengths
    are zeroed: nothing is written. *)
Lemma chop_clamp_offsets_exceed cap chop :
  cap < chop_offsets chop ->
  len_begin (chop_clamp cap chop) = 0 /\ len_end (chop_clamp cap chop) = 0.
Proof.
  intros Hlt. unfold chop_clamp.
  destruct (Z.ltb_spec cap (chop_offsets chop)) as [_|Hge]; [|lia].
  cbn [len_begin len_end].
  change (wrap32u (0 - 0)) with 0.
  match goal with
  | |- context [ ?a <? 0 ] =>
      pose proof (wrap32u_range (cap - chop_offsets
        (mk_chop 0 (off_begin_pos chop) (off_begin_neg chop)
                 0 (off_end_pos chop) (off_end_neg chop)))) as Hw;
      unfold guint32_range in Hw;
      destruct (Z.ltb_spec a 0); [lia|]
  end.
  cbn. auto.
Qed.

(** C2, as the code has it. During chop normalization, if the offsets of
    the two regions taken together already exceed the packet's captured
    length, both chop lengths are zeroed and the packet is left completely
    unchanged: header and buffer are the ones passed in. *)
Theorem handle_chopping_offsets_exceed chop hdr buf adjlen :
  caplen hdr < chop_offsets (chop_regions (caplen hdr) chop) ->
  chop_packet chop hdr buf adjlen = (hdr, Some buf).
Proof.
  intros Hlt. unfold chop_packet, handle_chopping, chop_normalize.
  destruct (chop_clamp_offsets_exceed _ _ Hlt) as [Hb He].
  unfold chop_begin, chop_end. rewrite Hb, He. reflexivity.
Qed.

Definition far_chop : chop_t := mk_chop 2 10 0 0 0 0.
Definition small_hdr : wtap_packet_header := mk_phdr 4 4.
Definition small_buf : pkt_buf := mk_buf [1; 2; 3; 4] 0.

Lemma handle_chopping_offsets_exceed_witness :
  chop_packet far_chop small_hdr small_buf true = (small_hdr, Some small_buf).
Proof.
  apply (handle_chopping_offsets_exceed far_chop small_hdr small_buf true).
  vm_compute. reflexivity.
Defined.

(** A front length alone that exceeds the packet ([-C 10] on four captured
    bytes) is not a no-op: the length is clamped to what is available and
    the packet is chopped to nothing. *)
Definition long_chop : chop_t := mk_chop 10 0 0 0 0 0.

Lemma handle_chopping_long_front_truncates :
  caplen small_hdr < len_begin long_chop
  /\ chop_packet long_chop small_hdr small_buf false
     = (mk_phdr 0 4, Some (mk_buf [1; 2; 3; 4] 4))
  /\ chop_packet long_chop small_hdr small_buf false
     <> (small_hdr, Some small_buf).
Proof.
  split; [cbn; lia|]. split; [vm_compute; reflexivity|].
  vm_compute. intros H. discriminate H.
Qed.

End ChopFacts.

(** ** Properties of time stamps *)

Module NstimeFacts.
Import Nstime.

Lemma nstime_eq (a b : nstime_t) :
  secs a = secs b -> nsecs a = nsecs b -> a = b.
Proof. destruct a, b; cbn; intros -> ->; reflexivity. Qed.

Lemma ns_of_inj a b :
  normalized a -> normalized b -> ns_of a = ns_of b -> a = b.
Proof.
  unfold normalized, ns_of, ONE_BILLION. intros Ha Hb H.
  apply nstime_eq; nia.
Qed.

Lemma normalized_not_unset t : normalized t -> nstime_is_unset t = false.
Proof.
  unfold normalized, nstime_is_unset, ONE_BILLION, G_MAXINT. intros H.
  destruct (Z.eqb_spec (nsecs t) (2 ^ 31 - 1)); [lia|].
  apply andb_false_r.
Qed.

(** Case analysis on every comparison, reducing in between. *)
Ltac cmp_cases :=
  repeat (cbn [secs nsecs andb orb negb];
          match goal with
          | |- context [ if ?x <? ?y then _ else _ ] => destruct (Z.ltb_spec x y)
          | |- context [ if ?x <=? ?y then _ else _ ] => destruct (Z.leb_spec x y)
          | |- context [ if ?x =? ?y then _ else _ ] => destruct (Z.eqb_spec x y)
          end);
  repeat (cbn [secs nsecs andb orb negb];
          match goal with
          | |- context [ ?x <? ?y ] => destruct (Z.ltb_spec x y)
          | |- context [ ?x <=? ?y ] => destruct (Z.leb_spec x y)
          | |- context [ ?x =? ?y ] => destruct (Z.eqb_spec x y)
          end);
  cbn [secs nsecs andb orb negb] in *.

Lemma nstime_delta_ns b a : ns_of (nstime_delta b a) = ns_of b - ns_of a.
Proof.
  unfold nstime_delta, ns_of, ONE_BILLION. cmp_cases; lia.
Qed.

Lemma nstime_delta_later b a :
  normalized a -> normalized b -> ns_of a <= ns_of b ->
  delta_negative (nstime_delta b a) = false
  /\ normalized (nstime_delta b a).
Proof.
  unfold normalized, nstime_delta, delta_negative, ns_of, ONE_BILLION.
  intros Ha Hb Hle.
  cmp_cases; first [ split; [reflexivity | lia] | exfalso; lia ].
Qed.

Lemma nstime_delta_earlier b a :
  normalized a -> normalized b -> ns_of b < ns_of a ->
  delta_negative (nstime_delta b a) = true.
Proof.
  unfold normalized, nstime_delta, delta_negative, ns_of, ONE_BILLION.
  intros Ha Hb Hlt. cmp_cases; first [ reflexivity | exfalso; lia ].
Qed.

Lemma nstime_eq_dec_zero t : {t = NSTIME_INIT_ZERO} + {t <> NSTIME_INIT_ZERO}.
Proof.
  destruct t as [s n]. unfold NSTIME_INIT_ZERO.
  destruct (Z.eq_dec s 0) as [->|Hs]; [destruct (Z.eq_dec n 0) as [->|Hn]|].
  - left. reflexivity.
  - right. intros H. injection H as H. contradiction.
  - right. intros H. injection H as H _. contradiction.
Qed.

Lemma nstime_cmp_pos a b :
  normalized a -> normalized b ->
  (0 <? nstime_cmp a b) = (ns_of b <? ns_of a).
Proof.
  unfold normalized, nstime_cmp, ns_of, ONE_BILLION. intros Ha Hb.
  cmp_cases; first [ reflexivity | exfalso; lia ].
Qed.

End NstimeFacts.

(** ** Properties of the time adjustment *)

Module TimeAdjFacts.
Import Nstime NstimeFacts TimeAdj.

Ltac unfold_time :=
  unfold adj_valid, normalized, ns_of, ONE_BILLION in *.

Lemma after_previous_exact prev adj :
  normalized prev -> adj_valid adj ->
  normalized (after_previous prev adj)
  /\ ns_of (after_previous prev adj) = ns_of prev + ns_of (tv adj).
Proof.
  intros Hp [Hs Hn]. unfold after_previous. unfold_time.
  rewrite (wrap32s_id (nsecs prev + nsecs (tv adj))) by lia.
  rewrite (wrap32s_id (nsecs (tv adj) - 1000000000)) by lia.
  rewrite (wrap32s_id (nsecs prev + (nsecs (tv adj) - 1000000000))) by lia.
  destruct (Z.leb_spec 1000000000 (nsecs prev + nsecs (tv adj))); cbn; lia.
Qed.

(** C7. The fixed shift is exact fixed-point arithmetic: for a time stamp
    and a shift whose nanoseconds both lie in [0, 1e9), the nanoseconds of
    the result lie in [0, 1e9) again and the result is the exact sum (or,
    for a negative shift, the exact difference) of the two times; and
    (5, 900000000) shifted by +(0, 200000000) is (6, 100000000). *)
Theorem time_shift_exact adj t :
  normalized t -> normalized (tv adj) ->
  normalized (time_shift adj t)
  /\ ns_of (time_shift adj t)
     = (if is_negative adj then ns_of t - ns_of (tv adj)
        else ns_of t + ns_of (tv adj))
  /\ time_shift (mk_adj (mk_nstime 0 200000000) false)
                (mk_nstime 5 900000000)
     = mk_nstime 6 100000000.
Proof.
  intros Ht Ha. split; [|split; [|reflexivity]].
  - unfold time_shift. unfold_time.
    destruct (is_negative adj); cmp_cases; unfold_time;
      rewrite ?wrap32s_id; rewrite ?wrap32s_id in *; cbn [nsecs secs] in *;
      try lia.
    all: rewrite ?wrap32s_id; lia.
  - unfold time_shift. unfold_time.
    destruct (is_negative adj); cmp_cases; unfold_time;
      rewrite ?wrap32s_id; rewrite ?wrap32s_id in *; cbn [nsecs secs] in *;
      try lia.
    all: rewrite ?wrap32s_id; lia.
Qed.

Lemma time_shift_exact_witness :
  normalized (time_shift (mk_adj (mk_nstime 0 200000000) false)
                         (mk_nstime 5 900000000))
  /\ ns_of (time_shift (mk_adj (mk_nstime 0 200000000) false)
                       (mk_nstime 5 900000000))
     = 5900000000 + 200000000.
Proof.
  destruct (time_shift_exact (mk_adj (mk_nstime 0 200000000) false)
              (mk_nstime 5 900000000)) as (Hn & He & _).
  - unfold normalized, ONE_BILLION. cbn. lia.
  - unfold normalized, ONE_BILLION. cbn. lia.
  - split; [exact Hn | exact He].
Defined.

(** *** The strict adjustment *)

Definition stamped (t : nstime_t) : wtap_rec := mk_rec true t.

Lemma strict_adjust_previous adj prev rec :
  snd (strict_adjust adj prev rec) = ts (fst (strict_adjust adj prev rec)).
Proof. reflexivity. Qed.

(** With a recorded previous time stamp, the mode that is not negative
    never lets a time stamp fall behind it. *)
Lemma strict_adjust_not_earlier adj prev rec :
  is_negative adj = false -> adj_valid adj ->
  normalized prev -> normalized (ts rec) ->
  prev <> NSTIME_INIT_ZERO ->
  ns_of prev <= ns_of (ts (fst (strict_adjust adj prev rec)))
  /\ normalized (ts (fst (strict_adjust adj prev rec))).
Proof.
  intros Hneg Hadj Hp Hr Hnz. unfold strict_adjust. rewrite Hneg.
  cbn [negb fst].
  destruct (negb (secs prev =? 0) || negb (nsecs prev =? 0)) eqn:Hz.
  - fold (delta_negative (nstime_delta (ts rec) prev)).
    destruct (Z.le_gt_cases (ns_of prev) (ns_of (ts rec))) as [Hle|Hgt].
    + destruct (nstime_delta_later _ _ Hp Hr Hle) as [-> _]. split; assumption.
    + rewrite (nstime_delta_earlier _ _ Hp Hr) by lia.
      destruct (after_previous_exact prev adj Hp Hadj) as [Hn He].
      cbn [ts set_ts]. split; [|exact Hn].
      rewrite He. destruct Hadj as [Hs Hv]. unfold_time. nia.
  - exfalso. apply Hnz. apply orb_false_iff in Hz as [H1 H2].
    apply negb_false_iff, Z.eqb_eq in H1, H2.
    apply nstime_eq; assumption.
Qed.

(** Time stamps at or after the epoch come out of the run in order. *)
Definition from_epoch (rec : wtap_rec) : Prop :=
  has_ts rec = true /\ normalized (ts rec) /\ 0 <= secs (ts rec).

Lemma strict_run_ordered cfg prev recs :
  do_strict_time_adjustment cfg = true ->
  is_negative (strict_time_adj cfg) = false ->
  adj_valid (strict_time_adj cfg) ->
  normalized prev -> 0 <= secs prev ->
  Forall from_epoch recs ->
  Forall (fun r => ns_of prev <= ns_of (ts r)) (strict_run cfg prev recs)
  /\ Sorted (fun a b => ns_of (ts a) <= ns_of (ts b)) (strict_run cfg prev recs).
Proof.
  intros Hdo Hneg Hadj Hp Hs Hall.
  revert prev Hp Hs. induction Hall as [|rec rest (Hts & Hn & Hsec) _ IH];
    intros prev Hp Hs; cbn [strict_run].
  - split; constructor.
  - unfold strict_stage. rewrite Hts, Hdo.
    destruct (strict_adjust (strict_time_adj cfg) prev rec) as [rec' prev'] eqn:Hstep.
    assert (Hprev' : prev' = ts rec').
    { pose proof (strict_adjust_previous (strict_time_adj cfg) prev rec) as H.
      rewrite Hstep in H. exact H. }
    assert (Hout : ns_of prev <= ns_of (ts rec') /\ normalized (ts rec')).
    { destruct (nstime_eq_dec_zero prev) as [Hz|Hnz].
      - subst prev. unfold strict_adjust in Hstep. cbn in Hstep.
        injection Hstep as <- _. split; [|exact Hn].
        unfold_time. cbn. lia.
      - pose proof (strict_adjust_not_earlier _ prev rec Hneg Hadj Hp Hn Hnz) as H.
        rewrite Hstep in H. exact H. }
    destruct Hout as [Hle Hn'].
    assert (Hs' : 0 <= secs prev').
    { subst prev'. unfold_time. nia. }
    subst prev'.
    destruct (IH (ts rec') Hn' Hs') as [Hall' Hsorted].
    split.
    + constructor; [exact Hle|].
      eapply Forall_impl; [exact Hall'|]. cbn. intros r Hr. lia.
    + constructor; [exact Hsorted|].
      destruct (strict_run cfg (ts rec') rest) as [|r' rs]; constructor.
      inversion Hall'; subst. assumption.
Qed.

(** Strict adjustment by a zero delta, no fixed shift. *)
Definition strict_zero : adj_config :=
  mk_adj_config true (mk_adj (mk_nstime 0 0) false) (mk_adj (mk_nstime 0 0) false).

(** C5. In strict adjustment with a delta that is not negative, a
    packet's time stamp after the strict step should never be earlier than
    the previous packet's.  The run below has a packet stamped at the epoch,
    (0, 0), followed by one stamped a second before it: the second leaves the
    strict step unchanged, one second earlier than its predecessor. *)
Theorem strict_run_epoch_then_earlier :
  strict_run strict_zero previous_time_init
    [stamped (mk_nstime 0 0); stamped (mk_nstime (-1) 0)]
  = [stamped (mk_nstime 0 0); stamped (mk_nstime (-1) 0)]
  /\ ns_of (mk_nstime (-1) 0) < ns_of (mk_nstime 0 0).
Proof. split; [reflexivity|]. unfold ns_of, ONE_BILLION. cbn. lia. Qed.

(** With a recorded previous time stamp, the negative mode rewrites the
    time stamp to the previous one plus the delta, whatever it was. *)
Lemma strict_adjust_forced adj prev rec :
  is_negative adj = true -> adj_valid adj -> normalized prev ->
  prev <> NSTIME_INIT_ZERO ->
  ns_of (ts (fst (strict_adjust adj prev rec))) = ns_of prev + ns_of (tv adj)
  /\ normalized (ts (fst (strict_adjust adj prev rec))).
Proof.
  intros Hneg Hadj Hp Hnz. unfold strict_adjust. rewrite Hneg.
  cbn [negb fst].
  destruct (negb (secs prev =? 0) || negb (nsecs prev =? 0)) eqn:Hz.
  - cbn [ts set_ts].
    destruct (after_previous_exact prev adj Hp Hadj) as [Hn He]. auto.
  - exfalso. apply Hnz. apply orb_false_iff in Hz as [H1 H2].
    apply negb_false_iff, Z.eqb_eq in H1, H2.
    apply nstime_eq; assumption.
Qed.

Lemma strict_adjust_stamped adj prev t :
  exists o, strict_adjust adj prev (stamped t) = (stamped o, o).
Proof.
  unfold strict_adjust.
  repeat match goal with
    | |- context [ if ?c then _ else _ ] => destruct c
    end; eexists; reflexivity.
Qed.

(** Three packets in the forced mode, the first stamped after the epoch:
    the outputs are t0, t0 + delta and t0 + 2 delta. *)
Lemma strict_run_forced_three cfg t0 t1 t2 :
  do_strict_time_adjustment cfg = true ->
  is_negative (strict_time_adj cfg) = true ->
  adj_valid (strict_time_adj cfg) ->
  normalized t0 -> 0 < ns_of t0 ->
  exists o1 o2,
    strict_run cfg previous_time_init [stamped t0; stamped t1; stamped t2]
    = [stamped t0; stamped o1; stamped o2]
    /\ normalized o1 /\ normalized o2
    /\ ns_of o1 = ns_of t0 + ns_of (tv (strict_time_adj cfg))
    /\ ns_of o2 = ns_of t0 + 2 * ns_of (tv (strict_time_adj cfg)).
Proof.
  intros Hdo Hneg Hadj Hn0 Hpos.
  assert (Hd : 0 <= ns_of (tv (strict_time_adj cfg))).
  { destruct Hadj as [Hs Hv]. unfold_time. nia. }
  assert (Hnz : forall t, 0 < ns_of t -> t <> NSTIME_INIT_ZERO).
  { intros t Ht ->. unfold ns_of in Ht. cbn in Ht. lia. }
  destruct (strict_adjust_stamped (strict_time_adj cfg) t0 t1) as [o1 H1].
  destruct (strict_adjust_forced _ t0 (stamped t1) Hneg Hadj Hn0 (Hnz _ Hpos))
    as [He1 Hn1].
  rewrite H1 in He1, Hn1. cbn [fst ts stamped] in He1, Hn1.
  destruct (strict_adjust_stamped (strict_time_adj cfg) o1 t2) as [o2 H2].
  assert (Hpos1 : 0 < ns_of o1) by lia.
  destruct (strict_adjust_forced _ o1 (stamped t2) Hneg Hadj Hn1 (Hnz _ Hpos1))
    as [He2 Hn2].
  rewrite H2 in He2, Hn2. cbn [fst ts stamped] in He2, Hn2.
  exists o1, o2.
  split; [|split; [exact Hn1|split; [exact Hn2|split; [exact He1|lia]]]].
  unfold stamped in *. cbn [strict_run]. unfold strict_stage.
  cbn [has_ts]. rewrite Hdo.
  change (strict_adjust (strict_time_adj cfg) previous_time_init
            (mk_rec true t0)) with (mk_rec true t0, t0).
  cbn iota. rewrite H1. cbn iota. rewrite H2. reflexivity.
Qed.

(** The negative mode with a delta of a microsecond, no fixed shift. *)
Definition strict_forced : adj_config :=
  mk_adj_config true (mk_adj (mk_nstime 0 1000) true) (mk_adj (mk_nstime 0 0) false).

(** C6. In the negative (forced) mode with a delta of 0.000001 s, three
    packets should come out stamped t0, t0 + 0.000001 and t0 + 0.000002.
    With the first packet stamped (0, 0) the second keeps its own time
    stamp, here (7, 0), and only the third is rewritten, to (7, 1000). *)
Theorem strict_run_forced_from_epoch :
  strict_run strict_forced previous_time_init
    [stamped (mk_nstime 0 0); stamped (mk_nstime 7 0); stamped (mk_nstime 3 0)]
  = [stamped (mk_nstime 0 0); stamped (mk_nstime 7 0); stamped (mk_nstime 7 1000)]
  /\ strict_run strict_forced previous_time_init
       [stamped (mk_nstime 0 0); stamped (mk_nstime 7 0); stamped (mk_nstime 3 0)]
     <> [stamped (mk_nstime 0 0); stamped (mk_nstime 0 1000);
         stamped (mk_nstime 0 2000)].
Proof. split; [reflexivity|]. vm_compute. intros H. discriminate H. Qed.

(** C10. "No previous time stamp yet" is the time stamp (0, 0): that is the
    initial [previous_time], and whenever a packet leaves the strict step
    stamped exactly (0, 0), the next stamped packet is passed through
    unchanged and becomes the new previous time stamp, as the first packet
    of a run would, in the negative mode as in the other. *)
Theorem strict_zero_stamp_restarts cfg prev rec next :
  do_strict_time_adjustment cfg = true ->
  has_ts rec = true -> has_ts next = true ->
  ts (fst (strict_stage cfg prev rec)) = mk_nstime 0 0 ->
  previous_time_init = mk_nstime 0 0
  /\ snd (strict_stage cfg prev rec) = previous_time_init
  /\ strict_stage cfg (snd (strict_stage cfg prev rec)) next = (next, ts next)
  /\ strict_stage cfg previous_time_init next = (next, ts next).
Proof.
  intros Hdo Hrec Hnext Hzero.
  assert (Hfirst : strict_stage cfg previous_time_init next = (next, ts next)).
  { unfold strict_stage. rewrite Hnext, Hdo. reflexivity. }
  assert (Hprev : snd (strict_stage cfg prev rec) = previous_time_init).
  { unfold strict_stage in *. rewrite Hrec, Hdo in *.
    rewrite strict_adjust_previous. exact Hzero. }
  split; [reflexivity|]. split; [exact Hprev|].
  split; [rewrite Hprev|]; exact Hfirst.
Qed.

Lemma strict_zero_stamp_restarts_witness :
  strict_stage strict_zero
    (snd (strict_stage strict_zero previous_time_init (stamped (mk_nstime 0 0))))
    (stamped (mk_nstime 3 250))
  = (stamped (mk_nstime 3 250), mk_nstime 3 250).
Proof.
  apply (strict_zero_stamp_restarts strict_zero previous_time_init
           (stamped (mk_nstime 0 0)) (stamped (mk_nstime 3 250)));
    reflexivity.
Defined.

End TimeAdjFacts.

(** ** Properties of the duplicate detection *)

Module DedupFacts.
Import Nstime NstimeFacts Dedup.

(** *** The ring: the slot written [n] calls ago *)

Definition slot (W cur : Z) (n : nat) : Z := (cur - Z.of_nat n) mod W.

Lemma mod_wrap_back W a :
  0 < W -> - W <= a < W -> a mod W = if a <? 0 then a + W else a.
Proof.
  intros HW Ha. destruct (Z.ltb_spec a 0).
  - rewrite <- (Z.mod_add a 1 W) by lia. rewrite Z.mul_1_l.
    apply Z.mod_small. lia.
  - apply Z.mod_small. lia.
Qed.

Lemma slot_0 W cur : 0 <= cur < W -> slot W cur 0 = cur.
Proof. intros H. unfold slot. rewrite Z.sub_0_r. apply Z.mod_small, H. Qed.

Lemma slot_range W cur n : 0 < W -> 0 <= slot W cur n < W.
Proof. intros H. unfold slot. apply Z.mod_pos_bound, H. Qed.

Lemma slot_ne_cur W cur n :
  0 <= cur < W -> (1 <= n)%nat -> Z.of_nat n < W -> slot W cur n <> cur.
Proof.
  intros Hc Hn HW. unfold slot.
  rewrite mod_wrap_back by lia.
  destruct (Z.ltb_spec (cur - Z.of_nat n) 0); lia.
Qed.

Lemma slot_full W cur : 0 <= cur < W -> slot W cur (Z.to_nat W) = cur.
Proof.
  intros Hc. unfold slot. rewrite Z2Nat.id by lia.
  rewrite mod_wrap_back by lia.
  destruct (Z.ltb_spec (cur - W) 0); lia.
Qed.

(** The decrement of the walk, with its wrap at the start of the array. *)
Lemma slot_step W cur n :
  0 < W ->
  (if slot W cur n - 1 <? 0 then W - 1 else slot W cur n - 1)
  = slot W cur (S n).
Proof.
  intros HW. pose proof (slot_range W cur n HW) as Hr.
  unfold slot in *.
  replace (cur - Z.of_nat (S n)) with (cur - Z.of_nat n - 1) by lia.
  rewrite <- (Zminus_mod_idemp_l (cur - Z.of_nat n) 1 W).
  set (s := (cur - Z.of_nat n) mod W) in *.
  rewrite (mod_wrap_back W (s - 1)) by lia.
  destruct (Z.ltb_spec (s - 1) 0); lia.
Qed.

(** The advance of the cursor, with its wrap at the end of the window. *)
Lemma slot_next W cur n :
  0 <= cur < W ->
  slot W (if W <=? cur + 1 then 0 else cur + 1) (S n) = slot W cur n.
Proof.
  intros Hc. unfold slot. destruct (Z.leb_spec W (cur + 1)).
  - replace (0 - Z.of_nat (S n)) with (cur - Z.of_nat n + (-1) * W) by lia.
    apply Z.mod_add. lia.
  - f_equal. lia.
Qed.

Lemma slot_onto W cur j :
  0 <= cur < W -> 0 <= j < W ->
  exists n, Z.of_nat n < W /\ slot W cur n = j /\ (j <> cur -> (1 <= n)%nat).
Proof.
  intros Hc Hj. exists (Z.to_nat ((cur - j) mod W)).
  pose proof (Z.mod_pos_bound (cur - j) W ltac:(lia)) as Hr.
  unfold slot. rewrite Z2Nat.id by lia.
  rewrite (mod_wrap_back W (cur - j)) in * by lia.
  destruct (Z.ltb_spec (cur - j) 0).
  - split; [lia|]. split; [|lia].
    rewrite mod_wrap_back by lia.
    destruct (Z.ltb_spec (cur - (cur - j + W)) 0); lia.
  - split; [lia|]. split; [|lia].
    rewrite mod_wrap_back by lia.
    destruct (Z.ltb_spec (cur - (cur - j)) 0); lia.
Qed.

(** The window is an [int] and holds at least one slot. *)
Definition window_ok (cfg : dedup_config) : Prop :=
  1 <= dup_window cfg < 2 ^ 31.

(** The window of the time mode ([-w] sets [dup_window] to
    [MAX_DUP_DEPTH]) and the default one. *)
Lemma max_window_ok cfg :
  dup_window cfg = MAX_DUP_DEPTH \/ dup_window cfg = DEFAULT_DUP_DEPTH ->
  window_ok cfg.
Proof.
  unfold window_ok, MAX_DUP_DEPTH, DEFAULT_DUP_DEPTH. intros [-> | ->]; lia.
Qed.

Lemma next_entry_wraps cfg cur :
  window_ok cfg -> 0 <= cur < dup_window cfg ->
  next_entry cfg cur = (if dup_window cfg <=? cur + 1 then 0 else cur + 1)
  /\ 0 <= next_entry cfg cur < dup_window cfg.
Proof.
  intros HW Hc. unfold window_ok in HW. unfold next_entry.
  rewrite wrap32s_id by lia.
  destruct (Z.leb_spec (dup_window cfg) (cur + 1)); split; auto; lia.
Qed.

(** [ring_holds proj cfg st hist]: seen through [proj], the newest entry
    of the ring is the head of [hist], the one before it comes next, and so
    on for as many entries as the window has slots. *)
Definition ring_holds {A} (proj : fd_hash_t -> A) (cfg : dedup_config)
    (st : dedup_state) (hist : list A) : Prop :=
  forall n a, hist !! n = Some a -> Z.of_nat n < dup_window cfg ->
    proj (fd_hash_at st (slot (dup_window cfg) (cur_dup_entry st) n)) = a.

Lemma fd_hash_at_insert h cur i e :
  fd_hash_at (mk_dedup (<[i := e]> h) cur) i = e.
Proof. unfold fd_hash_at. cbn. rewrite lookup_insert_eq. reflexivity. Qed.

Lemma fd_hash_at_insert_ne h cur cur' i j e :
  i <> j ->
  fd_hash_at (mk_dedup (<[i := e]> h) cur) j = fd_hash_at (mk_dedup h cur') j.
Proof.
  intros Hne. unfold fd_hash_at. cbn. rewrite lookup_insert_ne by exact Hne.
  reflexivity.
Qed.

Lemma ring_holds_store {A} (proj : fd_hash_t -> A) cfg st e hist :
  window_ok cfg -> cursor_ok cfg st ->
  ring_holds proj cfg st hist ->
  let st' := mk_dedup (<[next_entry cfg (cur_dup_entry st) := e]> (fd_hash st))
                      (next_entry cfg (cur_dup_entry st)) in
  ring_holds proj cfg st' (proj e :: hist) /\ cursor_ok cfg st'.
Proof.
  intros HW Hc Hh st'. unfold cursor_ok in *.
  destruct (next_entry_wraps cfg _ HW Hc) as [Hnext Hrange].
  split; [|exact Hrange].
  intros n a Hn Hlt. subst st'. cbn [cur_dup_entry].
  destruct n as [|m].
  - cbn in Hn. injection Hn as <-.
    rewrite slot_0 by exact Hrange. rewrite fd_hash_at_insert. reflexivity.
  - cbn in Hn.
    pose proof (slot_ne_cur (dup_window cfg) _ (S m) Hrange ltac:(lia) Hlt) as Hne.
    rewrite (fd_hash_at_insert_ne _ _ (cur_dup_entry st)) by (intros H; apply Hne; auto).
    rewrite Hnext, slot_next by exact Hc.
    destruct st as [h c]. apply Hh; [exact Hn|lia].
Qed.

Lemma ring_holds_nil {A} (proj : fd_hash_t -> A) cfg st :
  ring_holds proj cfg st [].
Proof. intros n a Hn. discriminate Hn. Qed.

(** *** The window of [is_duplicate] *)

Definition hash_pair (e : fd_hash_t) : Z * Z := (digest e, len e).

Lemma same_hash_pair a b : same_hash a b = true <-> hash_pair a = hash_pair b.
Proof.
  unfold same_hash, hash_pair. rewrite andb_true_iff, !Z.eqb_eq.
  split; [intros [-> ->]; reflexivity|intros H; injection H; auto].
Qed.

Lemma same_hash_pair_false a b :
  hash_pair a <> hash_pair b -> same_hash a b = false.
Proof.
  intros H. destruct (same_hash a b) eqn:E; [|reflexivity].
  apply same_hash_pair in E. contradiction.
Qed.

Lemma dup_scan_true st n i j :
  i <= j < i + Z.of_nat n -> j <> cur_dup_entry st ->
  same_hash (fd_hash_at st j) (fd_hash_at st (cur_dup_entry st)) = true ->
  dup_scan st n i = true.
Proof.
  revert i. induction n as [|n IH]; intros i Hj Hne Hs; [lia|].
  cbn [dup_scan]. destruct (Z.eqb_spec i (cur_dup_entry st)) as [Hi|Hi].
  - apply IH; [lia|assumption|assumption].
  - destruct (same_hash (fd_hash_at st i) _) eqn:E; [reflexivity|].
    apply IH; [|assumption|assumption].
    destruct (Z.eq_dec i j) as [->|]; [congruence|lia].
Qed.

Lemma dup_scan_false st n i :
  (forall j, i <= j < i + Z.of_nat n -> j <> cur_dup_entry st ->
     same_hash (fd_hash_at st j) (fd_hash_at st (cur_dup_entry st)) = false) ->
  dup_scan st n i = false.
Proof.
  revert i. induction n as [|n IH]; intros i H; [reflexivity|].
  cbn [dup_scan]. destruct (Z.eqb_spec i (cur_dup_entry st)) as [Hi|Hi].
  - apply IH. intros j Hj. apply H. lia.
  - rewrite H by (try lia; assumption).
    apply IH. intros j Hj. apply H. lia.
Qed.

Section ContentWindow.

Variable md5 : list Z -> Z.
Variable cfg : dedup_config.
Hypothesis Hwindow : window_ok cfg.

Lemma dup_store_holds f st hist :
  cursor_ok cfg st -> ring_holds hash_pair cfg st hist ->
  ring_holds hash_pair cfg (dup_store md5 cfg (fr_data f) (fr_len f) st)
    (dup_fingerprint md5 cfg f :: hist)
  /\ cursor_ok cfg (dup_store md5 cfg (fr_data f) (fr_len f) st).
Proof.
  intros Hc Hh. unfold dup_store.
  apply (ring_holds_store hash_pair cfg st
           (mk_fd_hash _ (fr_len f) _) hist Hwindow Hc Hh).
Qed.

Lemma dup_run_holds frames st hist :
  cursor_ok cfg st -> ring_holds hash_pair cfg st hist ->
  ring_holds hash_pair cfg (dup_run md5 cfg frames st)
    (rev (map (dup_fingerprint md5 cfg) frames) ++ hist)
  /\ cursor_ok cfg (dup_run md5 cfg frames st).
Proof.
  revert st hist. induction frames as [|f fs IH]; intros st hist Hc Hh.
  - cbn. auto.
  - destruct (dup_store_holds f st hist Hc Hh) as [Hh' Hc'].
    destruct (IH _ _ Hc' Hh') as [Hh'' Hc''].
    cbn [dup_run fold_left map rev] in *. unfold is_duplicate. cbn [snd].
    rewrite <- app_assoc. cbn [app]. auto.
Qed.

(** The ring right after the second of two frames is stored. *)
Lemma dup_store_after_run p mid q st :
  cursor_ok cfg st ->
  let st' := dup_store md5 cfg (fr_data q) (fr_len q)
               (dup_run md5 cfg (p :: mid) st) in
  ring_holds hash_pair cfg st'
    (dup_fingerprint md5 cfg q
     :: rev (map (dup_fingerprint md5 cfg) mid) ++ [dup_fingerprint md5 cfg p])
  /\ cursor_ok cfg st'.
Proof.
  intros Hc st'.
  destruct (dup_run_holds (p :: mid) st [] Hc (ring_holds_nil _ _ _)) as [Hh1 Hc1].
  rewrite app_nil_r in Hh1. cbn [map rev] in Hh1.
  apply (dup_store_holds q _ _ Hc1 Hh1).
Qed.

(** C3, as the code has it. With a ring of W slots: a frame with the same
    bytes after the skipped prefix and the same captured length as a frame
    among the previous W - 1 calls is reported as a duplicate; and a frame
    that comes after W - 1 or more frames none of which matches it (so after
    W of them) is not reported, whatever came before them: the earlier entry
    is gone. *)
Theorem is_duplicate_window p mid q st :
  cursor_ok cfg st ->
  (Z.of_nat (length mid) + 2 <= dup_window cfg ->
   dup_fingerprint md5 cfg q = dup_fingerprint md5 cfg p ->
   fst (is_duplicate md5 cfg (fr_data q) (fr_len q)
          (dup_run md5 cfg (p :: mid) st)) = true)
  /\ (dup_window cfg - 1 <= Z.of_nat (length mid) ->
      Forall (fun m => dup_fingerprint md5 cfg m <> dup_fingerprint md5 cfg q)
             mid ->
      fst (is_duplicate md5 cfg (fr_data q) (fr_len q)
             (dup_run md5 cfg (p :: mid) st)) = false).
Proof.
  intros Hc.
  destruct (dup_store_after_run p mid q st Hc) as [Hh Hc'].
  unfold is_duplicate. cbn [fst].
  set (st' := dup_store md5 cfg (fr_data q) (fr_len q)
                (dup_run md5 cfg (p :: mid) st)) in *.
  set (fps := rev (map (dup_fingerprint md5 cfg) mid)) in *.
  assert (Hlen : length fps = length mid).
  { unfold fps. rewrite length_rev, length_map. reflexivity. }
  pose proof Hwindow as HW. unfold window_ok in HW. unfold cursor_ok in Hc'.
  assert (Hcur : hash_pair (fd_hash_at st' (cur_dup_entry st'))
                 = dup_fingerprint md5 cfg q).
  { rewrite <- (slot_0 (dup_window cfg) (cur_dup_entry st')) at 1 by exact Hc'.
    apply Hh; [reflexivity|lia]. }
  split.
  - intros Hfit Hsame.
    apply (dup_scan_true st' _ 0
             (slot (dup_window cfg) (cur_dup_entry st') (S (length mid)))).
    + pose proof (slot_range (dup_window cfg) (cur_dup_entry st')
                    (S (length mid)) ltac:(lia)). lia.
    + apply slot_ne_cur; [exact Hc'|lia|lia].
    + apply same_hash_pair. rewrite Hcur, Hsame.
      apply Hh; [|lia].
      change ((fps ++ [dup_fingerprint md5 cfg p]) !! length mid
              = Some (dup_fingerprint md5 cfg p)).
      rewrite lookup_app_r by lia. rewrite Hlen, Nat.sub_diag. reflexivity.
  - intros Hmany Hdiff.
    apply dup_scan_false. intros j Hj Hne.
    destruct (slot_onto (dup_window cfg) (cur_dup_entry st') j Hc' ltac:(lia))
      as (n & Hn & Hslot & Hpos).
    specialize (Hpos Hne). destruct n as [|n]; [lia|].
    apply same_hash_pair_false. rewrite Hcur, <- Hslot.
    destruct (lookup_lt_is_Some_2 fps n ltac:(lia)) as [a Ha].
    rewrite (Hh (S n) a) by
      (try exact Hn;
       change ((fps ++ [dup_fingerprint md5 cfg p]) !! n = Some a);
       rewrite lookup_app_l by lia; exact Ha).
    assert (Hin : a ∈ fps) by (eapply list_elem_of_lookup_2; exact Ha).
    unfold fps in Hin. apply list_elem_of_In in Hin.
    apply In_rev in Hin. apply in_map_iff in Hin.
    destruct Hin as (m & <- & Hm).
    rewrite Forall_forall in Hdiff. apply Hdiff. apply list_elem_of_In, Hm.
Qed.

End ContentWindow.

(** A stand-in for the digest where a concrete value is needed. *)
Definition sum_digest (l : list Z) : Z := fold_left Z.add l 0.

Definition window2 : dedup_config :=
  mk_dedup_config 2 0 false (mk_nstime 0 0).
Definition frame_a : frame := mk_frame [1; 2; 3] 3 (mk_nstime 10 0).
Definition frame_b : frame := mk_frame [1; 2; 3; 4] 4 (mk_nstime 10 5).

Lemma window2_ok : window_ok window2.
Proof. unfold window_ok. cbn. lia. Defined.

Lemma is_duplicate_window_witness :
  fst (is_duplicate sum_digest (mk_dedup_config 3 0 false (mk_nstime 0 0))
         (fr_data frame_a) (fr_len frame_a)
         (dup_run sum_digest (mk_dedup_config 3 0 false (mk_nstime 0 0))
            [frame_a; frame_b]
            (dedup_init (mk_dedup_config 3 0 false (mk_nstime 0 0))))) = true
  /\ fst (is_duplicate sum_digest window2 (fr_data frame_a) (fr_len frame_a)
            (dup_run sum_digest window2 [frame_a; frame_b]
               (dedup_init window2))) = false.
Proof.
  split.
  - apply (is_duplicate_window sum_digest
             (mk_dedup_config 3 0 false (mk_nstime 0 0))
             ltac:(unfold window_ok; cbn; lia)
             frame_a [frame_b] frame_a
             (dedup_init (mk_dedup_config 3 0 false (mk_nstime 0 0)))).
    + unfold cursor_ok. cbn. lia.
    + cbn. lia.
    + reflexivity.
  - apply (is_duplicate_window sum_digest window2 window2_ok
             frame_a [frame_b] frame_a (dedup_init window2)).
    + unfold cursor_ok. cbn. lia.
    + cbn. lia.
    + constructor; [|constructor]. vm_compute. intros H. discriminate H.
Defined.

(** With a ring of two slots, the frame stored two calls ago is gone when
    the same frame comes again: it was among the previous W = 2 calls, and
    is not reported. *)
Lemma is_duplicate_window_edge :
  dup_fingerprint sum_digest window2 frame_a
  = dup_fingerprint sum_digest window2 frame_a
  /\ In frame_a [frame_a; frame_b]
  /\ Z.of_nat (length [frame_a; frame_b]) <= dup_window window2
  /\ fst (is_duplicate sum_digest window2 (fr_data frame_a) (fr_len frame_a)
            (dup_run sum_digest window2 [frame_a; frame_b]
               (dedup_init window2))) = false.
Proof.
  split; [reflexivity|]. split; [left; reflexivity|].
  split; [cbn; lia|]. vm_compute. reflexivity.
Qed.

(** *** The window of [is_duplicate_rel_time] *)

(** The walk of lines 674-734 over the entries it meets, newest first;
    [None] when the entries end before the walk does. *)
Fixpoint hist_scan (cfg : dedup_config) (current : nstime_t) (me : fd_hash_t)
    (hist : list fd_hash_t) : option bool :=
  match hist with
  | [] => None
  | e :: rest =>
      if nstime_is_unset (frame_time e) then Some false
      else
        let delta := nstime_delta current (frame_time e) in
        if (secs delta <? 0) || (nsecs delta <? 0)
        then hist_scan cfg current me rest
        else if 0 <? nstime_cmp delta (relative_time_window cfg) then Some false
        else if same_hash e me then Some true
        else hist_scan cfg current me rest
  end.

Lemma rel_time_scan_hist cfg st current hist k rounds b :
  window_ok cfg -> cursor_ok cfg st ->
  (forall n e, hist !! n = Some e ->
     fd_hash_at st (slot (dup_window cfg) (cur_dup_entry st) (S k + n)) = e) ->
  Z.of_nat (S k + length hist) <= dup_window cfg ->
  hist_scan cfg current (fd_hash_at st (cur_dup_entry st)) hist = Some b ->
  (length hist <= rounds)%nat ->
  rel_time_scan cfg st current rounds
    (slot (dup_window cfg) (cur_dup_entry st) k - 1) = Some b.
Proof.
  intros HW Hc. unfold window_ok, cursor_ok in *.
  revert b k rounds.
  induction hist as [|e rest IH]; intros b k rounds Hh Hfit Hs Hr.
  - discriminate Hs.
  - destruct rounds as [|rounds]; [cbn in Hr; lia|].
    cbn [rel_time_scan]. rewrite slot_step by lia.
    pose proof (slot_ne_cur (dup_window cfg) (cur_dup_entry st) (S k) Hc
                  ltac:(lia) ltac:(cbn [length] in Hfit; lia)) as Hne.
    destruct (Z.eqb_spec (slot (dup_window cfg) (cur_dup_entry st) (S k))
                (cur_dup_entry st)) as [Heq|_]; [contradiction|].
    pose proof (Hh 0%nat e eq_refl) as He. rewrite Nat.add_0_r in He.
    rewrite He.
    assert (Hrest : rel_time_scan cfg st current rounds
                      (slot (dup_window cfg) (cur_dup_entry st) (S k) - 1)
                    = hist_scan cfg current
                        (fd_hash_at st (cur_dup_entry st)) rest
                    \/ hist_scan cfg current
                         (fd_hash_at st (cur_dup_entry st)) rest = None).
    { destruct (hist_scan cfg current (fd_hash_at st (cur_dup_entry st)) rest)
        as [b'|] eqn:Hrest; [left|right; reflexivity].
      apply IH.
      - intros n e' Hn. rewrite <- (Hh (S n) e' Hn). do 2 f_equal. lia.
      - cbn [length] in Hfit. lia.
      - reflexivity.
      - cbn [length] in Hr. lia. }
    cbn [hist_scan] in Hs.
    destruct (nstime_is_unset (frame_time e)); [exact Hs|].
    destruct ((secs (nstime_delta current (frame_time e)) <? 0)
              || (nsecs (nstime_delta current (frame_time e)) <? 0)).
    + destruct Hrest as [->|Hnone]; [exact Hs|congruence].
    + destruct (0 <? nstime_cmp (nstime_delta current (frame_time e))
                       (relative_time_window cfg)); [exact Hs|].
      destruct (same_hash e (fd_hash_at st (cur_dup_entry st))); [exact Hs|].
      destruct Hrest as [->|Hnone]; [exact Hs|congruence].
Qed.

(** The walk always ends within [dup_window] rounds. *)
Lemma rel_time_scan_ends cfg st current k rounds :
  window_ok cfg -> cursor_ok cfg st ->
  Z.of_nat (S k + rounds) = dup_window cfg + 1 -> (1 <= rounds)%nat ->
  exists b,
    rel_time_scan cfg st current rounds
      (slot (dup_window cfg) (cur_dup_entry st) k - 1) = Some b.
Proof.
  intros HW Hc. unfold window_ok, cursor_ok in *.
  revert k. induction rounds as [|rounds IH]; intros k Hsum Hpos; [lia|].
  cbn [rel_time_scan]. rewrite slot_step by lia.
  destruct (Z.eqb_spec (slot (dup_window cfg) (cur_dup_entry st) (S k))
              (cur_dup_entry st)) as [Heq|Hne]; [eauto|].
  assert (Hmore : (1 <= rounds)%nat).
  { destruct rounds; [|lia]. exfalso. apply Hne.
    replace (S k) with (Z.to_nat (dup_window cfg)) by lia.
    apply slot_full, Hc. }
  destruct (IH (S k) ltac:(lia) Hmore) as [b Hb].
  repeat match goal with
    | |- context [ if ?c then _ else _ ] => destruct c
    end; eauto.
Qed.

Section TimeWindow.

Variable md5 : list Z -> Z.
Variable cfg : dedup_config.
Hypothesis Hwindow : window_ok cfg.

Lemma is_duplicate_rel_time_total fd len current st :
  cursor_ok cfg st ->
  exists b, fst (is_duplicate_rel_time md5 cfg fd len current st) = Some b.
Proof.
  intros Hc. unfold is_duplicate_rel_time. cbn [fst].
  set (st' := rel_time_store md5 cfg fd len current st).
  assert (Hc' : cursor_ok cfg st').
  { unfold cursor_ok, st', rel_time_store. cbn [cur_dup_entry].
    apply next_entry_wraps; assumption. }
  replace (cur_dup_entry st' - 1)
    with (slot (dup_window cfg) (cur_dup_entry st') 0 - 1)
    by (rewrite slot_0 by exact Hc'; reflexivity).
  apply rel_time_scan_ends; [exact Hwindow|exact Hc'| |];
    unfold window_ok in Hwindow; lia.
Qed.

Lemma nstime_eta t : mk_nstime (secs t) (nsecs t) = t.
Proof. destruct t. reflexivity. Qed.

Lemma rel_time_store_holds f st hist :
  cursor_ok cfg st -> ring_holds id cfg st hist ->
  ring_holds id cfg
    (rel_time_store md5 cfg (fr_data f) (fr_len f) (fr_time f) st)
    (rel_time_entry md5 cfg f :: hist)
  /\ cursor_ok cfg
       (rel_time_store md5 cfg (fr_data f) (fr_len f) (fr_time f) st).
Proof.
  intros Hc Hh. unfold rel_time_store. rewrite nstime_eta.
  apply (ring_holds_store id cfg st (rel_time_entry md5 cfg f) hist
           Hwindow Hc Hh).
Qed.

Lemma rel_time_run_holds frames st hist :
  cursor_ok cfg st -> ring_holds id cfg st hist ->
  ring_holds id cfg (rel_time_run md5 cfg frames st)
    (rev (map (rel_time_entry md5 cfg) frames) ++ hist)
  /\ cursor_ok cfg (rel_time_run md5 cfg frames st).
Proof.
  revert st hist. induction frames as [|f fs IH]; intros st hist Hc Hh.
  - cbn. auto.
  - destruct (rel_time_store_holds f st hist Hc Hh) as [Hh' Hc'].
    destruct (IH _ _ Hc' Hh') as [Hh'' Hc''].
    cbn [rel_time_run fold_left map rev] in *.
    unfold is_duplicate_rel_time. cbn [snd].
    rewrite <- app_assoc. cbn [app]. auto.
Qed.

(** Two frames in the order of their time stamps. *)
Definition frame_le (f g : frame) : Prop :=
  ns_of (fr_time f) <= ns_of (fr_time g).

Lemma sorted_between p mid q :
  Sorted frame_le (p :: mid ++ [q]) ->
  Forall (fun m => frame_le p m /\ frame_le m q) mid /\ frame_le p q.
Proof.
  revert p. induction mid as [|m mid IH]; intros p Hs.
  - cbn in Hs. inversion Hs as [|? ? _ Hhd]; subst.
    inversion Hhd; subst. split; [constructor|assumption].
  - cbn [app] in Hs. inversion Hs as [|? ? Hs' Hhd]; subst.
    inversion Hhd as [|? ? Hpm]; subst.
    destruct (IH m Hs') as [Hall Hmq]. unfold frame_le in *.
    split; [|lia]. constructor; [lia|].
    eapply Forall_impl; [exact Hall|]. cbn. intros x [H1 H2]. lia.
Qed.

(** One round of the walk at an entry inside the window. *)
Lemma hist_scan_inside current me e rest :
  normalized current -> normalized (relative_time_window cfg) ->
  normalized (frame_time e) -> ns_of (frame_time e) <= ns_of current ->
  ns_of current - ns_of (frame_time e) <= ns_of (relative_time_window cfg) ->
  hist_scan cfg current me (e :: rest)
  = if same_hash e me then Some true else hist_scan cfg current me rest.
Proof.
  intros Hcur Hwin Hn Hle Hin. cbn [hist_scan].
  rewrite (normalized_not_unset _ Hn).
  destruct (nstime_delta_later _ _ Hn Hcur Hle) as [Hneg Hdn].
  unfold delta_negative in Hneg. rewrite Hneg.
  rewrite (nstime_cmp_pos _ _ Hdn Hwin), nstime_delta_ns.
  destruct (Z.ltb_spec (ns_of (relative_time_window cfg))
              (ns_of current - ns_of (frame_time e))); [lia|reflexivity].
Qed.

(** Entries inside the window, the oldest of them matching: the walk
    reports a duplicate. *)
Lemma hist_scan_within current me entries last :
  normalized current -> normalized (relative_time_window cfg) ->
  Forall (fun e => normalized (frame_time e)
                   /\ ns_of (frame_time e) <= ns_of current
                   /\ ns_of current - ns_of (frame_time e)
                      <= ns_of (relative_time_window cfg))
         (entries ++ [last]) ->
  same_hash last me = true ->
  hist_scan cfg current me (entries ++ [last]) = Some true.
Proof.
  intros Hcur Hwin Hall Hsame.
  induction entries as [|e entries IH]; cbn [app] in *;
    inversion Hall as [|? ? (Hn & Hle & Hin) Hall']; subst;
    rewrite hist_scan_inside by assumption.
  - rewrite Hsame. reflexivity.
  - destruct (same_hash e me); [reflexivity|]. apply IH, Hall'.
Qed.

(** Entries that do not match, then one beyond the window: the walk stops
    there without a duplicate. *)
Lemma hist_scan_beyond current me entries last :
  normalized current -> normalized (relative_time_window cfg) ->
  Forall (fun e => normalized (frame_time e)
                   /\ ns_of (frame_time e) <= ns_of current
                   /\ same_hash e me = false) entries ->
  normalized (frame_time last) ->
  ns_of (relative_time_window cfg) < ns_of current - ns_of (frame_time last) ->
  ns_of (frame_time last) <= ns_of current ->
  hist_scan cfg current me (entries ++ [last]) = Some false.
Proof.
  intros Hcur Hwin Hall Hnl Hfar Hlel.
  induction entries as [|e entries IH]; cbn [app hist_scan].
  - rewrite (normalized_not_unset _ Hnl).
    destruct (nstime_delta_later _ _ Hnl Hcur Hlel) as [Hneg Hdn].
    unfold delta_negative in Hneg. rewrite Hneg.
    rewrite (nstime_cmp_pos _ _ Hdn Hwin), nstime_delta_ns.
    destruct (Z.ltb_spec (ns_of (relative_time_window cfg))
                (ns_of current - ns_of (frame_time last))); [reflexivity|lia].
  - inversion Hall as [|? ? (Hn & Hle & Hdiff) Hall']; subst.
    rewrite (normalized_not_unset _ Hn).
    destruct (nstime_delta_later _ _ Hn Hcur Hle) as [Hneg Hdn].
    unfold delta_negative in Hneg. rewrite Hneg.
    destruct (0 <? nstime_cmp (nstime_delta current (frame_time e))
                     (relative_time_window cfg)); [reflexivity|].
    rewrite Hdiff. apply IH, Hall'.
Qed.

Definition rel_time_fingerprint (f : frame) : Z * Z :=
  hash_pair (rel_time_entry md5 cfg f).

(** C4. For frames that come with time stamps that never decrease: a frame
    with the content and the length of an earlier one whose time stamp lies
    exactly the relative time window back is reported as a duplicate; with a
    time stamp one nanosecond further on, and no matching frame in between,
    it is not. *)
Theorem rel_time_window_boundary p mid q st :
  cursor_ok cfg st ->
  Z.of_nat (length mid) + 2 <= dup_window cfg ->
  normalized (relative_time_window cfg) ->
  Forall (fun f => normalized (fr_time f)) (p :: mid ++ [q]) ->
  Sorted frame_le (p :: mid ++ [q]) ->
  fr_data q = fr_data p -> fr_len q = fr_len p ->
  (ns_of (fr_time q)
   = ns_of (fr_time p) + ns_of (relative_time_window cfg) ->
   fst (is_duplicate_rel_time md5 cfg (fr_data q) (fr_len q) (fr_time q)
          (rel_time_run md5 cfg (p :: mid) st)) = Some true)
  /\ (ns_of (fr_time q)
      = ns_of (fr_time p) + ns_of (relative_time_window cfg) + 1 ->
      Forall (fun m => rel_time_fingerprint m <> rel_time_fingerprint q) mid ->
      fst (is_duplicate_rel_time md5 cfg (fr_data q) (fr_len q) (fr_time q)
             (rel_time_run md5 cfg (p :: mid) st)) = Some false).
Proof.
  intros Hc Hfit Hwin Hnorm Hsorted Hdata Hlen.
  destruct (sorted_between _ _ _ Hsorted) as [Hbetween Hpq].
  inversion Hnorm as [|? ? Hnp Hnorm']; subst.
  apply Forall_app in Hnorm' as [Hnmid Hnq].
  inversion Hnq as [|? ? Hnq' _]; subst. clear Hnq.
  destruct (rel_time_run_holds (p :: mid) st [] Hc (ring_holds_nil _ _ _))
    as [Hh1 Hc1].
  rewrite app_nil_r in Hh1. cbn [map rev] in Hh1.
  destruct (rel_time_store_holds q _ _ Hc1 Hh1) as [Hh Hc'].
  unfold is_duplicate_rel_time. cbn [fst].
  set (st' := rel_time_store md5 cfg (fr_data q) (fr_len q) (fr_time q)
                (rel_time_run md5 cfg (p :: mid) st)) in *.
  set (entries := rev (map (rel_time_entry md5 cfg) mid)) in *.
  assert (Hlen' : length entries = length mid).
  { unfold entries. rewrite length_rev, length_map. reflexivity. }
  pose proof Hwindow as HW. unfold window_ok in HW.
  assert (Hme : fd_hash_at st' (cur_dup_entry st') = rel_time_entry md5 cfg q).
  { rewrite <- (slot_0 (dup_window cfg) (cur_dup_entry st')) at 1 by exact Hc'.
    apply (Hh 0%nat); [reflexivity|lia]. }
  assert (Hwalk : forall b,
            hist_scan cfg (fr_time q) (rel_time_entry md5 cfg q)
              (entries ++ [rel_time_entry md5 cfg p]) = Some b ->
            rel_time_scan cfg st' (fr_time q) (Z.to_nat (dup_window cfg))
              (cur_dup_entry st' - 1) = Some b).
  { intros b Hb.
    replace (cur_dup_entry st' - 1)
      with (slot (dup_window cfg) (cur_dup_entry st') 0 - 1)
      by (rewrite slot_0 by exact Hc'; reflexivity).
    apply (rel_time_scan_hist cfg st' (fr_time q)
             (entries ++ [rel_time_entry md5 cfg p]) 0%nat);
      try assumption.
    - intros n e Hn. apply (Hh (S n) e); [exact Hn|].
      apply lookup_lt_Some in Hn. rewrite length_app, Hlen' in Hn.
      cbn [length] in Hn. lia.
    - rewrite length_app, Hlen'. cbn [length]. lia.
    - rewrite Hme. exact Hb.
    - rewrite length_app, Hlen'. cbn [length]. lia. }
  assert (Hsame : same_hash (rel_time_entry md5 cfg p) (rel_time_entry md5 cfg q)
                  = true).
  { apply same_hash_pair. unfold hash_pair, rel_time_entry. cbn.
    rewrite Hdata, Hlen. reflexivity. }
  unfold frame_le in *.
  split.
  - intros Hexact. apply Hwalk. apply hist_scan_within; try assumption.
    apply Forall_app. split.
    + unfold entries. apply Forall_rev, Forall_map.
      rewrite Forall_forall in *. intros m Hm.
      specialize (Hnmid m Hm). specialize (Hbetween m Hm).
      cbn [frame_time rel_time_entry]. split; [exact Hnmid|lia].
    + constructor; [|constructor].
      cbn [frame_time rel_time_entry]. split; [exact Hnp|lia].
  - intros Hpast Hdiff. apply Hwalk. apply hist_scan_beyond; try assumption.
    + unfold entries. apply Forall_rev, Forall_map.
      rewrite Forall_forall in *. intros m Hm.
      specialize (Hnmid m Hm). specialize (Hbetween m Hm).
      specialize (Hdiff m Hm). cbn [frame_time rel_time_entry].
      split; [exact Hnmid|]. split; [lia|].
      apply same_hash_pair_false. exact Hdiff.
    + cbn [frame_time rel_time_entry]. lia.
Qed.

End TimeWindow.

Definition window4 : dedup_config :=
  mk_dedup_config 4 0 false (mk_nstime 1 0).
Definition frame_a_later : frame := mk_frame [1; 2; 3] 3 (mk_nstime 11 0).
Definition frame_a_late : frame := mk_frame [1; 2; 3] 3 (mk_nstime 11 1).

Lemma window4_ok : window_ok window4.
Proof. unfold window_ok. cbn. lia. Defined.

Lemma stamps_normalized (l : list frame) :
  forallb (fun f => (0 <=? nsecs (fr_time f))
                    && (nsecs (fr_time f) <? ONE_BILLION)) l = true ->
  Forall (fun f => normalized (fr_time f)) l.
Proof.
  intros H. apply Forall_forall. intros f Hf.
  rewrite forallb_forall in H. apply list_elem_of_In in Hf.
  specialize (H f Hf). apply andb_true_iff in H as [H1 H2].
  unfold normalized. lia.
Defined.

Lemma rel_time_window_boundary_witness :
  fst (is_duplicate_rel_time sum_digest window4
         (fr_data frame_a_later) (fr_len frame_a_later) (fr_time frame_a_later)
         (rel_time_run sum_digest window4 [frame_a; frame_b]
            (dedup_init window4))) = Some true
  /\ fst (is_duplicate_rel_time sum_digest window4
            (fr_data frame_a_late) (fr_len frame_a_late) (fr_time frame_a_late)
            (rel_time_run sum_digest window4 [frame_a; frame_b]
               (dedup_init window4))) = Some false.
Proof.
  split.
  - apply (rel_time_window_boundary sum_digest window4 window4_ok
             frame_a [frame_b] frame_a_later (dedup_init window4)).
    + unfold cursor_ok. cbn. lia.
    + cbn. lia.
    + unfold normalized, ONE_BILLION. cbn. lia.
    + apply stamps_normalized. reflexivity.
    + repeat constructor; unfold frame_le, ns_of, ONE_BILLION; cbn; lia.
    + reflexivity.
    + reflexivity.
    + reflexivity.
  - apply (rel_time_window_boundary sum_digest window4 window4_ok
             frame_a [frame_b] frame_a_late (dedup_init window4)).
    + unfold cursor_ok. cbn. lia.
    + cbn. lia.
    + unfold normalized, ONE_BILLION. cbn. lia.
    + apply stamps_normalized. reflexivity.
    + repeat constructor; unfold frame_le, ns_of, ONE_BILLION; cbn; lia.
    + reflexivity.
    + reflexivity.
    + reflexivity.
    + constructor; [|constructor]. vm_compute. intros H. discriminate H.
Defined.

(** *** The two fingerprints *)

(** Without the radiotap mode both functions skip the same bytes. *)
Lemma rel_time_offset_plain cfg fd len :
  skip_radiotap cfg = false ->
  rel_time_offset cfg fd len = dup_offset cfg fd len.
Proof.
  intros H. unfold rel_time_offset, dup_offset. rewrite H.
  destruct (len <=? ignored_bytes cfg); reflexivity.
Qed.

(** The radiotap mode, and a frame with a radiotap header of 8 bytes. *)
Definition radiotap_mode : dedup_config :=
  mk_dedup_config 5 0 true (mk_nstime 1 0).
Definition radiotap_frame : list Z := [0; 0; 8; 0; 46; 72; 0; 0; 1; 2; 3; 4].

(** C8. The fingerprint of the time window should be computed as the one
    of the content window is, in the radiotap mode as well.  For a frame of
    twelve bytes whose radiotap header says it is eight bytes long,
    [is_duplicate] skips the eight bytes and [is_duplicate_rel_time] skips
    none: the flag is not read there. *)
Theorem rel_time_offset_radiotap :
  dup_offset radiotap_mode radiotap_frame 12 = 8
  /\ rel_time_offset radiotap_mode radiotap_frame 12 = 0
  /\ digested radiotap_frame 12 (dup_offset radiotap_mode radiotap_frame 12)
     = [1; 2; 3; 4]
  /\ digested radiotap_frame 12 (rel_time_offset radiotap_mode radiotap_frame 12)
     = radiotap_frame.
Proof. repeat split; reflexivity. Qed.

End DedupFacts.

(** ** Properties of the error injection *)

Module ErrInjFacts.
Import ErrInj.

Lemma set_byte_same buf i v :
  0 <= i < Z.of_nat (length buf) -> byte_at (set_byte buf i v) i = v mod 256.
Proof.
  intros H. unfold set_byte, byte_at.
  destruct (Z.ltb_spec i 0); [lia|].
  rewrite list_lookup_insert_eq by lia. reflexivity.
Qed.

Lemma set_byte_other buf i j v :
  0 <= j -> i <> j -> byte_at (set_byte buf i v) j = byte_at buf j.
Proof.
  intros Hj Hne. unfold set_byte, byte_at.
  destruct (Z.ltb_spec i 0); [reflexivity|].
  rewrite list_lookup_insert_ne by lia. reflexivity.
Qed.

Lemma set_byte_length buf i v : length (set_byte buf i v) = length buf.
Proof.
  unfold set_byte. destruct (i <? 0); [reflexivity|apply length_insert].
Qed.

(** What the format outcome leaves at a position with at least three
    bytes to the end of the captured data: a percent sign and a NUL. *)
Lemma inject_fmt_bytes buf i caplen :
  0 <= i -> i + 2 < caplen -> caplen < 2 ^ 32 ->
  caplen <= Z.of_nat (length buf) ->
  byte_at (inject_fmt buf i caplen) i = 37
  /\ byte_at (inject_fmt buf i caplen) (i + 1) = 0.
Proof.
  intros Hi Hend Hcap Hlen. unfold inject_fmt.
  rewrite !wrap32u_id by lia.
  destruct (Z.ltb_spec i (caplen - 2)); [|lia].
  unfold g_strlcpy. cbn [Z.leb Z.compare take codes map
                         String.list_ascii_of_string Z.sub Z.to_nat].
  change (Z.to_nat (2 - 1)) with 1%nat. cbn [take app write_bytes].
  split.
  - rewrite set_byte_other by lia. rewrite set_byte_same by lia. reflexivity.
  - rewrite set_byte_same by (rewrite set_byte_length; lia). reflexivity.
Qed.

(** A generator for the examples: the state is the next number. *)
Definition next_number (g : Z) : Z * Z := (g, g + 1).

(** C9. When the weighted draw selects the format outcome at a position
    three bytes or more before the end of the captured data, the bytes at
    the position and after it should become '%' and 's'.  On five captured
    bytes, with the draw 15 at position 0, they become '%' (37) and NUL (0):
    [g_strlcpy] is given a size of 2 and copies one character. *)
Theorem inject_fmt_writes_nul :
  inject Z next_number 2147483647 [65; 66; 67; 68; 69] 0 5 15 0
  = ([37; 0; 67; 68; 69], 0, 0)
  /\ codes "%s"%string = [37; 115]
  /\ byte_at (inject_fmt [65; 66; 67; 68; 69] 0 5) 1 <> 115.
Proof.
  split; [vm_compute; reflexivity|]. split; [reflexivity|].
  vm_compute. intros H. discriminate H.
Qed.

End ErrInjFacts.

(** ** More on chopping *)

Module ChopMore.
Import Chop ChopFacts.

(** The captured bytes: [caplen] bytes from [*buf] on. *)
Definition captured (b : pkt_buf) (cap : Z) : list Z :=
  take (Z.to_nat cap) (drop (Z.to_nat (ptr b)) (bytes b)).

Lemma memmove_lookup l dst src n l' (i : nat) :
  memmove l dst src n = Some l' ->
  l' !! i
  = if (Z.to_nat dst <=? i)%nat && (i <? Z.to_nat (dst + n))%nat
    then l !! (i - Z.to_nat dst + Z.to_nat src)%nat
    else l !! i.
Proof.
  unfold memmove.
  destruct ((0 <=? dst) && (0 <=? src) && (0 <=? n)
            && (dst + n <=? Z.of_nat (length l))
            && (src + n <=? Z.of_nat (length l))) eqn:Hg; [|discriminate].
  repeat (apply andb_true_iff in Hg as [Hg ?]).
  apply Z.leb_le in Hg, H, H0, H1, H2.
  intros Heq. injection Heq as <-.
  assert (Hlt : length (take (Z.to_nat dst) l) = Z.to_nat dst)
    by (apply length_take_le; lia).
  assert (Hln : length (take (Z.to_nat n) (drop (Z.to_nat src) l)) = Z.to_nat n)
    by (apply length_take_le; rewrite length_drop; lia).
  destruct (Nat.leb_spec (Z.to_nat dst) i) as [Hd|Hd]; cbn [andb].
  - destruct (Nat.ltb_spec i (Z.to_nat (dst + n))) as [Hi|Hi].
    + rewrite lookup_app_r by lia. rewrite Hlt.
      rewrite lookup_app_l by lia.
      rewrite lookup_take_lt by lia. rewrite lookup_drop. f_equal. lia.
    + rewrite lookup_app_r by lia. rewrite Hlt.
      rewrite lookup_app_r by lia. rewrite Hln.
      rewrite lookup_drop. f_equal. lia.
  - rewrite lookup_app_l by lia. apply lookup_take_lt. lia.
Qed.

Lemma memmove_length l dst src n l' :
  memmove l dst src n = Some l' -> length l' = length l.
Proof.
  unfold memmove.
  destruct ((0 <=? dst) && (0 <=? src) && (0 <=? n)
            && (dst + n <=? Z.of_nat (length l))
            && (src + n <=? Z.of_nat (length l))) eqn:Hg; [|discriminate].
  repeat (apply andb_true_iff in Hg as [Hg ?]).
  apply Z.leb_le in Hg, H, H0, H1, H2.
  intros Heq. injection Heq as <-.
  rewrite !length_app, !length_take, !length_drop. lia.
Qed.

Lemma memmove_defined l dst src n :
  0 <= dst -> 0 <= src -> 0 <= n ->
  dst + n <= Z.of_nat (length l) -> src + n <= Z.of_nat (length l) ->
  exists l', memmove l dst src n = Some l'.
Proof.
  intros. unfold memmove.
  repeat match goal with
    | |- context [ ?a <=? ?b ] => destruct (Z.leb_spec a b); [|lia]
    end.
  cbn. eauto.
Qed.

(** Deciding the tests of one step of the normalization. *)
Ltac step_eval :=
  cbn [len_begin len_end off_begin_pos off_begin_neg off_end_pos off_end_neg
       caplen len bytes ptr negb andb orb fst snd];
  repeat (first
    [ match goal with
      | |- context [ wrap32u ?z ] => rewrite (wrap32u_id z) by lia
      | |- context [ wrap32s ?z ] => rewrite (wrap32s_id z) by lia
      end
    | match goal with
      | |- context [ ?a <? ?b ] =>
          first [ rewrite (proj2 (Z.ltb_lt a b)) by lia
                | rewrite (proj2 (Z.ltb_ge a b)) by lia ]
      | |- context [ ?a =? ?b ] =>
          first [ rewrite (proj2 (Z.eqb_eq a b)) by lia
                | rewrite (proj2 (Z.eqb_neq a b)) by lia ]
      end ];
    cbn [len_begin len_end off_begin_pos off_begin_neg off_end_pos off_end_neg
         caplen len bytes ptr negb andb orb fst snd]).

(** Regions that lie in the packet, the front one before the back one,
    are left as they are by the normalization. *)
Lemma chop_normalize_fits cap A o B e :
  0 <= A -> B <= 0 -> 0 <= o -> e <= 0 ->
  (A = 0 -> o = 0) -> (B = 0 -> e = 0) ->
  o + A - B - e <= cap -> cap < 2 ^ 31 ->
  chop_normalize cap (mk_chop A o 0 B 0 e) = mk_chop A o 0 B 0 e.
Proof.
  intros HA HB Ho He HAo HBe Hfit Hcap.
  assert (H1 : chop_clear_offsets (mk_chop A o 0 B 0 e) = mk_chop A o 0 B 0 e).
  { unfold chop_clear_offsets. cbn [len_begin].
    destruct (Z.eqb_spec A 0) as [HA0|HA0];
      cbn [len_begin len_end off_begin_pos off_begin_neg off_end_pos off_end_neg];
      destruct (Z.eqb_spec B 0) as [HB0|HB0];
      try rewrite (HAo HA0); try rewrite (HBe HB0); reflexivity. }
  assert (H2 : chop_fold_offsets cap (mk_chop A o 0 B 0 e) = mk_chop A o 0 B 0 e).
  { unfold chop_fold_offsets. step_eval. reflexivity. }
  assert (H3 : chop_swap cap (mk_chop A o 0 B 0 e) = mk_chop A o 0 B 0 e).
  { unfold chop_swap. cbn [len_begin len_end off_begin_pos off_end_neg].
    destruct (negb (A =? 0) && negb (B =? 0)) eqn:Hboth; [|reflexivity].
    apply andb_true_iff in Hboth as [Ha Hb].
    apply negb_true_iff, Z.eqb_neq in Ha, Hb.
    step_eval. reflexivity. }
  unfold chop_normalize, chop_regions. rewrite H1, H2, H3.
  unfold chop_clamp, chop_offsets. step_eval. reflexivity.
Qed.

(** A chop configuration without lengths, whatever its offsets, leaves the
    packet as it is: header and buffer are the ones passed in. *)
Theorem chop_without_lengths chop hdr buf adjlen :
  len_begin chop = 0 -> len_end chop = 0 ->
  chop_packet chop hdr buf adjlen = (hdr, Some buf).
Proof.
  intros Hb He. destruct chop as [lb obp obn le oep oen]. cbn in Hb, He. subst.
  unfold chop_packet, handle_chopping, chop_normalize, chop_regions.
  change (chop_clear_offsets (mk_chop 0 obp obn 0 oep oen)) with chop_zero.
  change (chop_fold_offsets (caplen hdr) chop_zero) with chop_zero.
  change (chop_swap (caplen hdr) chop_zero) with chop_zero.
  assert (Hc : len_begin (chop_clamp (caplen hdr) chop_zero) = 0
               /\ len_end (chop_clamp (caplen hdr) chop_zero) = 0).
  { unfold chop_clamp. 
    destruct (caplen hdr <? chop_offsets chop_zero).
    - cbn [len_begin len_end off_begin_pos off_end_neg chop_zero].
      unfold chop_offsets. cbn [len_begin len_end off_begin_pos off_end_neg chop_zero].
      change (wrap32u (0 - 0)) with 0.
      pose proof (wrap32u_range (caplen hdr - 0)) as Hr. unfold guint32_range in Hr.
      destruct (Z.ltb_spec (wrap32u (caplen hdr - 0)) 0); [lia|].
      cbn. auto.
    - unfold chop_offsets. cbn [len_begin len_end off_begin_pos off_end_neg chop_zero].
      change (wrap32u (0 - 0)) with 0.
      pose proof (wrap32u_range (caplen hdr - 0)) as Hr. unfold guint32_range in Hr.
      destruct (Z.ltb_spec (wrap32u (caplen hdr - 0)) 0); [lia|].
      cbn. auto. }
  destruct Hc as [Hb He].
  unfold chop_begin, chop_end. rewrite Hb, He. reflexivity.
Qed.

Lemma chop_without_lengths_witness :
  chop_packet (mk_chop 0 7 (-3) 0 2 (-9)) (mk_phdr 4 4) (mk_buf [1; 2; 3; 4] 0)
    true
  = (mk_phdr 4 4, Some (mk_buf [1; 2; 3; 4] 0)).
Proof.
  apply (chop_without_lengths (mk_chop 0 7 (-3) 0 2 (-9))); reflexivity.
Defined.

(** X1. Chopping [n] bytes from the front and [m] from the back, without
    offsets and within the packet: the captured length drops by [n + m],
    the buffer pointer advances by [n] and no byte is copied. *)
Theorem chop_plain n m hdr buf adjlen :
  0 <= n -> 0 <= m -> n + m <= caplen hdr -> caplen hdr < 2 ^ 31 ->
  caplen (fst (chop_packet (mk_chop n 0 0 (- m) 0 0) hdr buf adjlen))
  = caplen hdr - n - m
  /\ snd (chop_packet (mk_chop n 0 0 (- m) 0 0) hdr buf adjlen)
     = Some (mk_buf (bytes buf) (ptr buf + n)).
Proof.
  intros Hn Hm Hfit Hcap. unfold chop_packet, handle_chopping.
  rewrite chop_normalize_fits by lia.
  unfold chop_begin, chop_end.
  destruct (Z.eq_dec n 0) as [->|Hn0]; destruct (Z.eq_dec m 0) as [->|Hm0];
    destruct adjlen; step_eval.
  all: repeat match goal with
         | |- context [ if ?c then _ else _ ] => destruct c
         end.
  all: step_eval.
  all: destruct buf as [bs p]; cbn [bytes ptr mbind option_bind]; split;
    [lia | repeat f_equal; lia].
Qed.

Lemma chop_plain_witness :
  caplen (fst (chop_packet (mk_chop 1 0 0 (- 2) 0 0) (mk_phdr 4 4)
                 (mk_buf [1; 2; 3; 4] 0) false)) = 4 - 1 - 2
  /\ snd (chop_packet (mk_chop 1 0 0 (- 2) 0 0) (mk_phdr 4 4)
            (mk_buf [1; 2; 3; 4] 0) false)
     = Some (mk_buf [1; 2; 3; 4] (0 + 1)).
Proof.
  apply (chop_plain 1 2 (mk_phdr 4 4) (mk_buf [1; 2; 3; 4] 0) false);
    cbn; lia.
Defined.

(** X2. Lengths without offsets that together exceed the packet: the front
    length is cut down to the whole packet and the back length dropped, so
    the captured length becomes 0 and the buffer pointer moves past the
    packet, also when only a back length was asked for. *)
Theorem chop_plain_overlong n m hdr buf adjlen :
  0 <= n < 2 ^ 31 -> 0 <= m <= 2 ^ 31 ->
  0 <= caplen hdr < 2 ^ 31 -> caplen hdr < n + m ->
  caplen (fst (chop_packet (mk_chop n 0 0 (- m) 0 0) hdr buf adjlen)) = 0
  /\ snd (chop_packet (mk_chop n 0 0 (- m) 0 0) hdr buf adjlen)
     = Some (mk_buf (bytes buf) (ptr buf + caplen hdr)).
Proof.
  intros Hn Hm Hcap Hover.
  assert (Hnorm : chop_normalize (caplen hdr) (mk_chop n 0 0 (- m) 0 0)
                  = mk_chop (caplen hdr) 0 0 0 0 0).
  { assert (H1 : chop_clear_offsets (mk_chop n 0 0 (- m) 0 0)
                 = mk_chop n 0 0 (- m) 0 0).
    { unfold chop_clear_offsets. cbn [len_begin].
      destruct (n =? 0);
        cbn [len_begin len_end off_begin_pos off_begin_neg off_end_pos off_end_neg];
        destruct (- m =? 0); reflexivity. }
    assert (H2 : chop_fold_offsets (caplen hdr) (mk_chop n 0 0 (- m) 0 0)
                 = mk_chop n 0 0 (- m) 0 0) by reflexivity.
    assert (H3 : chop_swap (caplen hdr) (mk_chop n 0 0 (- m) 0 0)
                 = mk_chop n 0 0 (- m) 0 0).
    { unfold chop_swap.
      cbn [len_begin len_end off_begin_pos off_end_neg].
      destruct (negb (n =? 0) && negb (- m =? 0)); [|reflexivity].
      step_eval. reflexivity. }
    unfold chop_normalize, chop_regions. rewrite H1, H2, H3.
    unfold chop_clamp, chop_offsets. step_eval. repeat f_equal. lia. }
  unfold chop_packet, handle_chopping. rewrite Hnorm.
  unfold chop_begin, chop_end.
  destruct (Z.eq_dec (caplen hdr) 0) as [Hc0|Hc0]; destruct adjlen; step_eval.
  all: repeat match goal with
         | |- context [ if ?c then _ else _ ] => destruct c
         end.
  all: step_eval.
  all: destruct buf as [bs p]; cbn [bytes ptr mbind option_bind]; split;
    [lia | repeat f_equal; lia].
Qed.

Lemma chop_plain_overlong_witness :
  caplen (fst (chop_packet (mk_chop 0 0 0 (- 9) 0 0) (mk_phdr 4 4)
                 (mk_buf [1; 2; 3; 4] 0) false)) = 0
  /\ snd (chop_packet (mk_chop 0 0 0 (- 9) 0 0) (mk_phdr 4 4)
            (mk_buf [1; 2; 3; 4] 0) false)
     = Some (mk_buf [1; 2; 3; 4] (0 + 4)).
Proof.
  apply (chop_plain_overlong 0 9 (mk_phdr 4 4) (mk_buf [1; 2; 3; 4] 0) false);
    cbn; lia.
Defined.


Ltac wrap_simpl :=
  repeat match goal with
    | |- context [ wrap32u ?z ] => rewrite (wrap32u_id z) by lia
    | |- context [ wrap32s ?z ] => rewrite (wrap32s_id z) by lia
    | H : context [ wrap32u ?z ] |- _ => rewrite (wrap32u_id z) in H by lia
    | H : context [ wrap32s ?z ] |- _ => rewrite (wrap32s_id z) in H by lia
    end.

Lemma chop_steps_len chop hdr buf :
  0 <= removed chop <= caplen hdr -> caplen hdr < 2 ^ 31 ->
  0 <= len hdr < 2 ^ 31 ->
  (let '(o, i, b) := chop_begin chop hdr hdr buf true in
   len (fst (chop_end chop o i b true)) = Z.max 0 (len hdr - removed chop))
  /\ (let '(o, i, b) := chop_begin chop hdr hdr buf false in
      len (fst (chop_end chop o i b false)) = len hdr).
Proof.
  intros Hrem Hcap Hlen. unfold chop_begin, chop_end, removed in *.
  destruct (Z.ltb_spec 0 (len_begin chop));
    destruct (Z.ltb_spec (len_end chop) 0); cbn [fst len caplen].
  all: split; [|reflexivity].
  all: rewrite ?(wrap32u_id (len_begin chop)) by lia;
    destruct (Z.ltb_spec (len_begin chop) (len hdr)); cbn [fst len caplen].
  all: repeat (wrap_simpl; cbn [fst len caplen] in *;
               try match goal with
                 | |- context [ if ?a <? ?b then _ else _ ] =>
                     destruct (Z.ltb_spec a b); cbn [fst len caplen] in *
                 end).
  all: wrap_simpl; lia.
Qed.

(** X3. With "adjust length" the reported length shrinks by exactly the bytes
    removed from the captured data and stops at 0; without it the reported
    length is not touched. *)
Theorem chop_reported_length chop hdr buf :
  0 <= caplen hdr < 2 ^ 31 -> 0 <= len hdr < 2 ^ 31 -> chop_config chop ->
  len (fst (chop_packet chop hdr buf true))
  = Z.max 0 (len hdr
             - (caplen hdr - caplen (fst (chop_packet chop hdr buf true))))
  /\ len (fst (chop_packet chop hdr buf false)) = len hdr.
Proof.
  intros Hcap Hlen Hc.
  assert (Hg : guint32_range (caplen hdr)) by (unfold guint32_range; lia).
  rewrite (handle_chopping_caplen chop hdr buf true Hg Hc).
  pose proof (chop_normalize_removed _ _ Hg Hc) as Hrem.
  destruct (chop_steps_len (chop_normalize (caplen hdr) chop) hdr (Some buf)
              Hrem ltac:(lia) Hlen) as [Ht Hf].
  unfold chop_packet, handle_chopping.
  destruct (chop_begin _ hdr hdr (Some buf) true) as [[o i] b].
  destruct (chop_begin _ hdr hdr (Some buf) false) as [[o' i'] b'].
  rewrite Ht, Hf. split; [f_equal; lia|reflexivity].
Qed.

Lemma chop_reported_length_witness :
  len (fst (chop_packet sample_chop sample_hdr sample_buf true))
  = Z.max 0 (60 - (8 - caplen (fst (chop_packet sample_chop sample_hdr
                                      sample_buf true))))
  /\ len (fst (chop_packet sample_chop sample_hdr sample_buf false)) = 60.
Proof.
  apply (chop_reported_length sample_chop sample_hdr sample_buf).
  - cbn. lia.
  - cbn. lia.
  - exact sample_chop_config.
Defined.

(** X4. A negative front offset counts from the end of the packet and a
    positive back offset from its beginning: [-C -k:n] chops like
    [-C (caplen-k):n], and a back chop at the positive offset [k] like one
    at the negative offset [k - caplen]. *)
Theorem chop_offset_from_end n k hdr buf adjlen :
  0 < k <= caplen hdr -> caplen hdr < 2 ^ 31 ->
  chop_packet (mk_chop n 0 (- k) 0 0 0) hdr buf adjlen
  = chop_packet (mk_chop n (caplen hdr - k) 0 0 0 0) hdr buf adjlen
  /\ chop_packet (mk_chop 0 0 0 (- n) k 0) hdr buf adjlen
     = chop_packet (mk_chop 0 0 0 (- n) 0 (k - caplen hdr)) hdr buf adjlen.
Proof.
  intros Hk Hcap. unfold chop_packet, handle_chopping, chop_normalize, chop_regions.
  split.
  - replace (chop_fold_offsets (caplen hdr)
               (chop_clear_offsets (mk_chop n 0 (- k) 0 0 0)))
      with (chop_fold_offsets (caplen hdr)
              (chop_clear_offsets (mk_chop n (caplen hdr - k) 0 0 0 0)));
      [reflexivity|].
    unfold chop_fold_offsets, chop_clear_offsets.
    cbn [len_begin len_end off_begin_pos off_begin_neg off_end_pos off_end_neg].
    destruct (Z.eqb_spec n 0); cbn; [reflexivity|].
    rewrite (proj2 (Z.ltb_lt (- k) 0)) by lia.
    rewrite wrap32u_id by lia. rewrite wrap32s_id by lia.
    repeat f_equal. 
  - replace (chop_fold_offsets (caplen hdr)
               (chop_clear_offsets (mk_chop 0 0 0 (- n) k 0)))
      with (chop_fold_offsets (caplen hdr)
              (chop_clear_offsets (mk_chop 0 0 0 (- n) 0 (k - caplen hdr))));
      [reflexivity|].
    unfold chop_fold_offsets, chop_clear_offsets.
    cbn [len_begin len_end off_begin_pos off_begin_neg off_end_pos off_end_neg
         Z.eqb Z.ltb Z.compare].
    destruct (Z.eqb_spec (- n) 0); cbn [len_begin len_end off_begin_pos off_begin_neg off_end_pos off_end_neg Z.eqb Z.ltb Z.compare]; [reflexivity|].
    rewrite (proj2 (Z.ltb_lt 0 k)) by lia.
    assert (Hw : wrap32s (0 + wrap32u (k - caplen hdr)) = k - caplen hdr).
    { unfold wrap32s, wrap32u. Z.div_mod_to_equations. lia. }
    rewrite Hw. reflexivity.
Qed.

Lemma chop_offset_from_end_witness :
  chop_packet (mk_chop 1 0 (- 3) 0 0 0) (mk_phdr 4 4) (mk_buf [1; 2; 3; 4; 5] 0)
    false
  = chop_packet (mk_chop 1 (4 - 3) 0 0 0 0) (mk_phdr 4 4)
      (mk_buf [1; 2; 3; 4; 5] 0) false
  /\ chop_packet (mk_chop 0 0 0 (- 1) 3 0) (mk_phdr 4 4)
       (mk_buf [1; 2; 3; 4; 5] 0) false
     = chop_packet (mk_chop 0 0 0 (- 1) 0 (3 - 4)) (mk_phdr 4 4)
         (mk_buf [1; 2; 3; 4; 5] 0) false.
Proof.
  apply (chop_offset_from_end 1 3 (mk_phdr 4 4) (mk_buf [1; 2; 3; 4; 5] 0) false);
    cbn; lia.
Defined.

(** X5. A front chop of [n] bytes at the offset [o]: the first [o] captured
    bytes stay, the [n] bytes after them go and the rest moves up.  The move
    copies [caplen - n] bytes, so it reads [o] bytes past the captured data:
    the buffer has to hold them. *)
Theorem chop_front_offset n o hdr buf adjlen :
  0 < n -> 0 < o -> o + n <= caplen hdr -> caplen hdr < 2 ^ 31 ->
  0 <= ptr buf ->
  ptr buf + o + caplen hdr <= Z.of_nat (length (bytes buf)) ->
  exists b,
    snd (chop_packet (mk_chop n o 0 0 0 0) hdr buf adjlen) = Some b
    /\ ptr b = ptr buf
    /\ caplen (fst (chop_packet (mk_chop n o 0 0 0 0) hdr buf adjlen))
       = caplen hdr - n
    /\ captured b (caplen hdr - n)
       = take (Z.to_nat o) (captured buf (caplen hdr))
         ++ drop (Z.to_nat (o + n)) (captured buf (caplen hdr)).
Proof.
  intros Hn Ho Hfit Hcap Hptr Halloc.
  destruct (memmove_defined (bytes buf) (ptr buf + o) (ptr buf + o + n)
              (caplen hdr - n)) as [l' Hl']; try lia.
  exists (mk_buf l' (ptr buf)).
  assert (Hres : snd (chop_packet (mk_chop n o 0 0 0 0) hdr buf adjlen)
                 = Some (mk_buf l' (ptr buf))
                 /\ caplen (fst (chop_packet (mk_chop n o 0 0 0 0) hdr buf adjlen))
                    = caplen hdr - n).
  { unfold chop_packet, handle_chopping.
    rewrite chop_normalize_fits by lia. unfold chop_begin, chop_end.
    destruct adjlen; step_eval; cbn [mbind option_bind]; rewrite Hl';
      cbn [mbind option_bind];
      repeat match goal with
        | |- context [ if ?c then _ else _ ] => destruct c
        end; step_eval; split; reflexivity. }
  destruct Hres as [Hb Hc]. split; [exact Hb|]. split; [reflexivity|].
  split; [exact Hc|].
  pose proof (memmove_length _ _ _ _ _ Hl') as Hlen.
  unfold captured. cbn [ptr bytes]. apply list_eq. intros i.
  destruct (Nat.lt_ge_cases i (Z.to_nat (caplen hdr - n))) as [Hi|Hi].
  - rewrite lookup_take_lt by exact Hi. rewrite lookup_drop.
    rewrite (memmove_lookup _ _ _ _ _ _ Hl').
    destruct (Nat.lt_ge_cases i (Z.to_nat o)) as [Hio|Hio].
    + rewrite lookup_app_l by (rewrite !length_take, length_drop; lia).
      rewrite (proj2 (Nat.leb_gt _ _)) by lia. cbn [andb].
      rewrite !lookup_take_lt by lia. rewrite lookup_drop. reflexivity.
    + rewrite lookup_app_r by (rewrite !length_take, length_drop; lia).
      rewrite !length_take, length_drop.
      rewrite (proj2 (Nat.leb_le _ _)) by lia.
      rewrite (proj2 (Nat.ltb_lt _ _)) by lia. cbn [andb].
      rewrite lookup_drop. rewrite lookup_take_lt by lia.
      rewrite lookup_drop. f_equal. lia.
  - rewrite lookup_take_ge by exact Hi. symmetry. apply lookup_ge_None_2.
    rewrite length_app, length_drop, !length_take, length_drop. lia.
Qed.

Lemma chop_front_offset_witness :
  exists b,
    snd (chop_packet (mk_chop 2 1 0 0 0 0) (mk_phdr 5 5)
           (mk_buf [1; 2; 3; 4; 5; 6] 0) false) = Some b
    /\ ptr b = 0
    /\ caplen (fst (chop_packet (mk_chop 2 1 0 0 0 0) (mk_phdr 5 5)
                      (mk_buf [1; 2; 3; 4; 5; 6] 0) false)) = 5 - 2
    /\ captured b (5 - 2)
       = take (Z.to_nat 1) (captured (mk_buf [1; 2; 3; 4; 5; 6] 0) 5)
         ++ drop (Z.to_nat (1 + 2)) (captured (mk_buf [1; 2; 3; 4; 5; 6] 0) 5).
Proof.
  apply (chop_front_offset 2 1 (mk_phdr 5 5) (mk_buf [1; 2; 3; 4; 5; 6] 0) false);
    cbn; lia.
Defined.

(** X6. A back chop of [m] bytes that ends [o] bytes before the end of the
    packet: the last [o] captured bytes move down over the chopped bytes and
    everything before them stays. *)
Theorem chop_back_offset m o hdr buf adjlen :
  0 < m -> 0 < o -> o + m <= caplen hdr -> caplen hdr < 2 ^ 31 ->
  0 <= ptr buf ->
  ptr buf + caplen hdr <= Z.of_nat (length (bytes buf)) ->
  exists b,
    snd (chop_packet (mk_chop 0 0 0 (- m) 0 (- o)) hdr buf adjlen) = Some b
    /\ ptr b = ptr buf
    /\ caplen (fst (chop_packet (mk_chop 0 0 0 (- m) 0 (- o)) hdr buf adjlen))
       = caplen hdr - m
    /\ captured b (caplen hdr - m)
       = take (Z.to_nat (caplen hdr - o - m)) (captured buf (caplen hdr))
         ++ drop (Z.to_nat (caplen hdr - o)) (captured buf (caplen hdr)).
Proof.
  intros Hm Ho Hfit Hcap Hptr Halloc.
  destruct (memmove_defined (bytes buf) (ptr buf + caplen hdr + (- m + - o))
              (ptr buf + caplen hdr + - o) o) as [l' Hl']; try lia.
  exists (mk_buf l' (ptr buf)).
  assert (Hres : snd (chop_packet (mk_chop 0 0 0 (- m) 0 (- o)) hdr buf adjlen)
                 = Some (mk_buf l' (ptr buf))
                 /\ caplen (fst (chop_packet (mk_chop 0 0 0 (- m) 0 (- o)) hdr buf adjlen))
                    = caplen hdr - m).
  { unfold chop_packet, handle_chopping.
    rewrite (chop_normalize_fits (caplen hdr) 0 0 (- m) (- o)) by lia.
    unfold chop_begin, chop_end.
    destruct adjlen; step_eval; cbn [mbind option_bind];
      rewrite Z.opp_involutive, (Z.mod_small o) by lia;
      rewrite Hl'; cbn [mbind option_bind];
      repeat match goal with
        | |- context [ if ?c then _ else _ ] => destruct c
        end; step_eval; split; try reflexivity; f_equal; lia. }
  destruct Hres as [Hb Hc]. split; [exact Hb|]. split; [reflexivity|].
  split; [exact Hc|].
  unfold captured. cbn [ptr bytes]. apply list_eq. intros i.
  destruct (Nat.lt_ge_cases i (Z.to_nat (caplen hdr - m))) as [Hi|Hi].
  - rewrite lookup_take_lt by exact Hi. rewrite lookup_drop.
    rewrite (memmove_lookup _ _ _ _ _ _ Hl').
    destruct (Nat.lt_ge_cases i (Z.to_nat (caplen hdr - o - m))) as [Hio|Hio].
    + rewrite lookup_app_l by (rewrite !length_take, length_drop; lia).
      rewrite (proj2 (Nat.leb_gt _ _)) by lia. cbn [andb].
      rewrite !lookup_take_lt by lia. rewrite lookup_drop. reflexivity.
    + rewrite lookup_app_r by (rewrite !length_take, length_drop; lia).
      rewrite !length_take, length_drop.
      rewrite (proj2 (Nat.leb_le _ _)) by lia.
      rewrite (proj2 (Nat.ltb_lt _ _)) by lia. cbn [andb].
      rewrite lookup_drop. rewrite lookup_take_lt by lia.
      rewrite lookup_drop. f_equal. lia.
  - rewrite lookup_take_ge by exact Hi. symmetry. apply lookup_ge_None_2.
    rewrite length_app, length_drop, !length_take, length_drop. lia.
Qed.

Lemma chop_back_offset_witness :
  exists b,
    snd (chop_packet (mk_chop 0 0 0 (- 2) 0 (- 1)) (mk_phdr 5 5)
           (mk_buf [1; 2; 3; 4; 5] 0) false) = Some b
    /\ ptr b = 0
    /\ caplen (fst (chop_packet (mk_chop 0 0 0 (- 2) 0 (- 1)) (mk_phdr 5 5)
                      (mk_buf [1; 2; 3; 4; 5] 0) false)) = 5 - 2
    /\ captured b (5 - 2)
       = take (Z.to_nat (5 - 1 - 2)) (captured (mk_buf [1; 2; 3; 4; 5] 0) 5)
         ++ drop (Z.to_nat (5 - 1)) (captured (mk_buf [1; 2; 3; 4; 5] 0) 5).
Proof.
  apply (chop_back_offset 2 1 (mk_phdr 5 5) (mk_buf [1; 2; 3; 4; 5] 0) false);
    cbn; lia.
Defined.

End ChopMore.

(** ** More on the duplicate detection *)

Module DedupMore.
Import Nstime NstimeFacts Dedup DedupFacts.

(** The entry the clearing loop leaves in a slot. *)
Definition cleared : fd_hash_t := mk_fd_hash 0 0 nstime_unset.

Lemma fd_hash_clear_lookup n h i :
  0 <= i < Z.of_nat n -> fd_hash_clear n h !! i = Some cleared.
Proof.
  induction n as [|n IH]; intros Hi; [lia|].
  cbn [fd_hash_clear]. destruct (Z.eq_dec i (Z.of_nat n)) as [->|Hne].
  - apply lookup_insert_eq.
  - rewrite lookup_insert_ne by congruence. apply IH. lia.
Qed.

Lemma dedup_init_holds {A} (proj : fd_hash_t -> A) cfg :
  window_ok cfg ->
  ring_holds proj cfg (dedup_init cfg)
    (replicate (Z.to_nat (dup_window cfg)) (proj cleared))
  /\ cursor_ok cfg (dedup_init cfg).
Proof.
  intros HW. unfold window_ok in HW. split; [|unfold cursor_ok; cbn; lia].
  intros n a Hn Hlt. apply lookup_replicate in Hn as [-> _].
  unfold fd_hash_at, dedup_init. cbn [fd_hash cur_dup_entry].
  rewrite fd_hash_clear_lookup; [reflexivity|].
  pose proof (slot_range (dup_window cfg) 0 n ltac:(lia)). lia.
Qed.

Lemma dup_scan_found st n i :
  dup_scan st n i = true ->
  exists j, i <= j < i + Z.of_nat n /\ j <> cur_dup_entry st
            /\ same_hash (fd_hash_at st j) (fd_hash_at st (cur_dup_entry st))
               = true.
Proof.
  revert i. induction n as [|n IH]; intros i H; [discriminate|].
  cbn [dup_scan] in H.
  destruct (Z.eqb_spec i (cur_dup_entry st)) as [Hi|Hi].
  - destruct (IH _ H) as (j & Hj & Hne & Hs). exists j. repeat split; try lia; auto.
  - destruct (same_hash (fd_hash_at st i) _) eqn:E.
    + exists i. repeat split; try lia; auto.
    + destruct (IH _ H) as (j & Hj & Hne & Hs). exists j.
      repeat split; try lia; auto.
Qed.

Section Content.
Variable md5 : list Z -> Z.
Variable cfg : dedup_config.

(** With a window of one slot or none ([-D 0], [-D 1]) [is_duplicate]
    never reports a duplicate, and the cursor stays at slot 0. *)
Theorem is_duplicate_small_window fd len st :
  dup_window cfg <= 1 -> cur_dup_entry st = 0 ->
  fst (is_duplicate md5 cfg fd len st) = false
  /\ cur_dup_entry (snd (is_duplicate md5 cfg fd len st)) = 0.
Proof.
  intros HW Hc. unfold is_duplicate, dup_store. cbn [fst snd cur_dup_entry].
  assert (Hnext : next_entry cfg (cur_dup_entry st) = 0).
  { unfold next_entry. rewrite Hc. rewrite wrap32s_id by lia.
    destruct (Z.leb_spec (dup_window cfg) (0 + 1)); [reflexivity|lia]. }
  rewrite Hnext. split; [|reflexivity].
  destruct (Z.to_nat (dup_window cfg)) as [|[|k]] eqn:Hk; [reflexivity| |lia].
  cbn [dup_scan cur_dup_entry Z.eqb]. reflexivity.
Qed.


Hypothesis Hwindow : window_ok cfg.

(** X7. No false alarm from [is_duplicate]: in a run that starts with the
    cleared ring, a frame that is reported has the digest and the length of
    one of the W - 1 frames before it, or the digest 0 and the length 0 of a
    slot that is still cleared. *)
Theorem is_duplicate_sound frames q :
  fst (is_duplicate md5 cfg (fr_data q) (fr_len q)
         (dup_run md5 cfg frames (dedup_init cfg))) = true ->
  (exists (k : nat) f,
      rev frames !! k = Some f /\ Z.of_nat k < dup_window cfg - 1
      /\ dup_fingerprint md5 cfg f = dup_fingerprint md5 cfg q)
  \/ dup_fingerprint md5 cfg q = (0, 0).
Proof.
  intros Hdup.
  destruct (dedup_init_holds hash_pair cfg Hwindow) as [Hh0 Hc0].
  destruct (dup_run_holds md5 cfg Hwindow frames _ _ Hc0 Hh0) as [Hh1 Hc1].
  destruct (dup_store_holds md5 cfg Hwindow q _ _ Hc1 Hh1) as [Hh Hc].
  unfold is_duplicate in Hdup. cbn [fst] in Hdup.
  set (st' := dup_store md5 cfg (fr_data q) (fr_len q)
                (dup_run md5 cfg frames (dedup_init cfg))) in *.
  pose proof Hwindow as HW. unfold window_ok in HW. unfold cursor_ok in Hc.
  assert (Hcur : hash_pair (fd_hash_at st' (cur_dup_entry st'))
                 = dup_fingerprint md5 cfg q).
  { rewrite <- (slot_0 (dup_window cfg) (cur_dup_entry st')) at 1 by exact Hc.
    apply Hh; [reflexivity|lia]. }
  destruct (dup_scan_found _ _ _ Hdup) as (j & Hj & Hne & Hsame).
  apply same_hash_pair in Hsame. rewrite Hcur in Hsame.
  destruct (slot_onto (dup_window cfg) (cur_dup_entry st') j Hc ltac:(lia))
    as (n & Hn & Hslot & Hpos).
  specialize (Hpos Hne). destruct n as [|n]; [lia|].
  set (fps := rev (map (dup_fingerprint md5 cfg) frames)) in *.
  destruct (Nat.lt_ge_cases n (length fps)) as [Hin|Hout].
  - left.
    destruct (lookup_lt_is_Some_2 fps n Hin) as [a Ha].
    assert (Ha' : hash_pair (fd_hash_at st' j) = a).
    { rewrite <- Hslot. apply Hh; [|exact Hn].
      change ((fps ++ replicate (Z.to_nat (dup_window cfg)) (hash_pair cleared))
                !! n = Some a).
      rewrite lookup_app_l by exact Hin. exact Ha. }
    unfold fps in Ha. rewrite <- map_rev in Ha.
    change (map (dup_fingerprint md5 cfg) (rev frames))
      with (dup_fingerprint md5 cfg <$> rev frames) in Ha.
    rewrite list_lookup_fmap in Ha.
    destruct (rev frames !! n) as [f|] eqn:Hf; [|discriminate].
    cbn in Ha. injection Ha as Ha. exists n, f.
    split; [exact Hf|]. split; [lia|]. congruence.
  - right. rewrite <- Hsame, <- Hslot.
    apply (Hh (S n)); [|exact Hn].
    change ((fps ++ replicate (Z.to_nat (dup_window cfg)) (hash_pair cleared))
              !! n = Some (0, 0)).
    rewrite lookup_app_r by exact Hout.
    apply lookup_replicate. split; [reflexivity|lia].
Qed.

(** X8. Two frames in a row of the same length that differ only in the
    ignored bytes ([-I]): the second one is reported as a duplicate. *)
Theorem is_duplicate_ignored_prefix fd1 fd2 len st :
  2 <= dup_window cfg -> cursor_ok cfg st ->
  skip_radiotap cfg = false ->
  0 <= ignored_bytes cfg < len -> len < 2 ^ 32 ->
  drop (Z.to_nat (ignored_bytes cfg)) (take (Z.to_nat len) fd1)
  = drop (Z.to_nat (ignored_bytes cfg)) (take (Z.to_nat len) fd2) ->
  fst (is_duplicate md5 cfg fd2 len
         (snd (is_duplicate md5 cfg fd1 len st))) = true.
Proof.
  intros HW2 Hc Hskip Hign Hlen Hsame.
  pose (p := mk_frame fd1 len (mk_nstime 0 0)).
  pose (q := mk_frame fd2 len (mk_nstime 0 0)).
  destruct (dup_store_after_run md5 cfg Hwindow p [] q st Hc) as [Hh Hc'].
  cbn [map rev app] in Hh. unfold is_duplicate. cbn [fst snd].
  change (dup_store md5 cfg fd2 len (dup_store md5 cfg fd1 len st))
    with (dup_store md5 cfg (fr_data q) (fr_len q)
            (dup_run md5 cfg [p] st)).
  set (st' := dup_store md5 cfg (fr_data q) (fr_len q)
                (dup_run md5 cfg [p] st)) in *.
  unfold cursor_ok in Hc'.
  assert (Hfp : dup_fingerprint md5 cfg p = dup_fingerprint md5 cfg q).
  { unfold dup_fingerprint, p, q. cbn [fr_data fr_len]. f_equal. f_equal.
    unfold dup_offset, digested. rewrite Hskip.
    destruct (Z.leb_spec len (ignored_bytes cfg)); [lia|].
    rewrite wrap32u_id by lia.
    rewrite !take_drop_commute.
    replace (Z.to_nat (ignored_bytes cfg) + Z.to_nat (len - ignored_bytes cfg))%nat
      with (Z.to_nat len) by lia.
    exact Hsame. }
  apply (dup_scan_true st' _ 0 (slot (dup_window cfg) (cur_dup_entry st') 1)).
  - pose proof (slot_range (dup_window cfg) (cur_dup_entry st') 1 ltac:(lia)).
    lia.
  - apply slot_ne_cur; [exact Hc'|lia|lia].
  - apply same_hash_pair.
    rewrite (Hh 1%nat (dup_fingerprint md5 cfg p)) by (try reflexivity; lia).
    rewrite Hfp. symmetry.
    rewrite <- (slot_0 (dup_window cfg) (cur_dup_entry st')) by exact Hc'.
    apply (Hh 0%nat); [reflexivity|lia].
Qed.

(** X9. The offset [is_duplicate] skips always lies inside the frame (a
    configured or radiotap length that does not is replaced by 0), what is
    digested is the rest of the frame up to the captured length, and a frame
    no longer than the ignored bytes is digested whole. *)
Theorem dup_offset_in_frame fd len :
  0 <= ignored_bytes cfg -> 0 < len < 2 ^ 32 ->
  Forall (fun b => 0 <= b < 256) fd -> len <= Z.of_nat (length fd) ->
  0 <= dup_offset cfg fd len < len
  /\ Z.of_nat (length (digested fd len (dup_offset cfg fd len)))
     = len - dup_offset cfg fd len
  /\ (skip_radiotap cfg = false -> len <= ignored_bytes cfg ->
      digested fd len (dup_offset cfg fd len) = take (Z.to_nat len) fd).
Proof.
  intros Hign Hlen Hbytes Hfd.
  assert (Hit : 0 <= it_len fd).
  { unfold it_len, pletoh16, fd_at.
    assert (Hb : forall i, 0 <= default 0 (drop 2 fd !! i)).
    { intros i. destruct (drop 2 fd !! i) as [b|] eqn:E; cbn; [|lia].
      rewrite lookup_drop in E. apply list_elem_of_lookup_2 in E.
      rewrite Forall_forall in Hbytes. apply Hbytes in E. lia. }
    apply Z.lor_nonneg. split; [apply Hb|].
    apply Z.shiftl_nonneg. apply Hb. }
  assert (Hoff : 0 <= dup_offset cfg fd len < len).
  { unfold dup_offset. destruct (skip_radiotap cfg).
    - destruct (Z.leb_spec len (it_len fd)); lia.
    - destruct (Z.leb_spec len (ignored_bytes cfg)); lia. }
  split; [exact Hoff|]. split.
  - unfold digested. rewrite wrap32u_id by lia.
    rewrite length_take, length_drop. lia.
  - intros Hskip Hshort. unfold dup_offset, digested. rewrite Hskip.
    destruct (Z.leb_spec len (ignored_bytes cfg)); [|lia].
    rewrite Z.sub_0_r, wrap32u_id by lia. reflexivity.
Qed.


End Content.

Lemma rel_time_scan_found cfg st current rounds i :
  1 <= dup_window cfg -> -1 <= i < dup_window cfg ->
  rel_time_scan cfg st current rounds i = Some true ->
  exists j,
    0 <= j < dup_window cfg /\ j <> cur_dup_entry st
    /\ nstime_is_unset (frame_time (fd_hash_at st j)) = false
    /\ delta_negative (nstime_delta current (frame_time (fd_hash_at st j)))
       = false
    /\ (0 <? nstime_cmp (nstime_delta current (frame_time (fd_hash_at st j)))
                (relative_time_window cfg)) = false
    /\ same_hash (fd_hash_at st j) (fd_hash_at st (cur_dup_entry st)) = true.
Proof.
  intros HW. revert i. induction rounds as [|rounds IH]; intros i Hi H;
    [discriminate|].
  cbn [rel_time_scan] in H.
  set (i' := if i <? 0 then dup_window cfg - 1 else i) in *.
  assert (Hi' : 0 <= i' < dup_window cfg).
  { unfold i'. destruct (Z.ltb_spec i 0); lia. }
  destruct (Z.eqb_spec i' (cur_dup_entry st)) as [Heq|Hne]; [discriminate|].
  destruct (nstime_is_unset (frame_time (fd_hash_at st i'))) eqn:Hu;
    [discriminate|].
  fold (delta_negative (nstime_delta current (frame_time (fd_hash_at st i'))))
    in H.
  destruct (delta_negative (nstime_delta current (frame_time (fd_hash_at st i'))))
    eqn:Hd.
  - apply IH in H; [exact H|lia].
  - destruct (0 <? nstime_cmp (nstime_delta current
                                 (frame_time (fd_hash_at st i')))
                       (relative_time_window cfg)) eqn:Hcmp; [discriminate|].
    destruct (same_hash (fd_hash_at st i') (fd_hash_at st (cur_dup_entry st)))
      eqn:Hs.
    + exists i'. repeat split; try lia; assumption.
    + apply IH in H; [exact H|lia].
Qed.

Section TimeWindowMore.
Variable md5 : list Z -> Z.
Variable cfg : dedup_config.
Hypothesis Hwindow : window_ok cfg.

(** X10. No false alarm from [is_duplicate_rel_time]: in a run that starts with
    the cleared ring, a frame that is reported has the digest and the length
    of one of the frames before it that is still in the ring, and that frame
    is not stamped later and at most the time window earlier. *)
Theorem is_duplicate_rel_time_sound frames q :
  normalized (relative_time_window cfg) -> normalized (fr_time q) ->
  Forall (fun f => normalized (fr_time f)) frames ->
  fst (is_duplicate_rel_time md5 cfg (fr_data q) (fr_len q) (fr_time q)
         (rel_time_run md5 cfg frames (dedup_init cfg))) = Some true ->
  exists (k : nat) f,
    rev frames !! k = Some f /\ Z.of_nat k < dup_window cfg - 1
    /\ rel_time_fingerprint md5 cfg f = rel_time_fingerprint md5 cfg q
    /\ 0 <= ns_of (fr_time q) - ns_of (fr_time f)
       <= ns_of (relative_time_window cfg).
Proof.
  intros Hwin Hnq Hnorm Hdup.
  destruct (dedup_init_holds id cfg Hwindow) as [Hh0 Hc0].
  destruct (rel_time_run_holds md5 cfg Hwindow frames _ _ Hc0 Hh0) as [Hh1 Hc1].
  destruct (rel_time_store_holds md5 cfg Hwindow q _ _ Hc1 Hh1) as [Hh Hc].
  unfold is_duplicate_rel_time in Hdup. cbn [fst] in Hdup.
  set (st' := rel_time_store md5 cfg (fr_data q) (fr_len q) (fr_time q)
                (rel_time_run md5 cfg frames (dedup_init cfg))) in *.
  pose proof Hwindow as HW. unfold window_ok in HW. unfold cursor_ok in Hc.
  assert (Hcur : fd_hash_at st' (cur_dup_entry st') = rel_time_entry md5 cfg q).
  { rewrite <- (slot_0 (dup_window cfg) (cur_dup_entry st')) at 1 by exact Hc.
    apply (Hh 0%nat); [reflexivity|lia]. }
  destruct (rel_time_scan_found cfg st' (fr_time q) _ (cur_dup_entry st' - 1)
              ltac:(lia) ltac:(lia) Hdup)
    as (j & Hj & Hne & Hset & Hneg & Hcmp & Hsame).
  destruct (slot_onto (dup_window cfg) (cur_dup_entry st') j Hc Hj)
    as (n & Hn & Hslot & Hpos).
  specialize (Hpos Hne). destruct n as [|n]; [lia|].
  set (entries := rev (map (rel_time_entry md5 cfg) frames)) in *.
  destruct (Nat.lt_ge_cases n (length entries)) as [Hin|Hout].
  - destruct (lookup_lt_is_Some_2 entries n Hin) as [a Ha].
    assert (Ha' : fd_hash_at st' j = a).
    { rewrite <- Hslot. apply (Hh (S n)); [|exact Hn].
      change ((entries ++ replicate (Z.to_nat (dup_window cfg)) (id cleared))
                !! n = Some a).
      rewrite lookup_app_l by exact Hin. exact Ha. }
    unfold entries in Ha. rewrite <- map_rev in Ha.
    change (map (rel_time_entry md5 cfg) (rev frames))
      with (rel_time_entry md5 cfg <$> rev frames) in Ha.
    rewrite list_lookup_fmap in Ha.
    destruct (rev frames !! n) as [f|] eqn:Hf; [|discriminate].
    cbn in Ha. injection Ha as Ha. exists n, f.
    split; [exact Hf|]. split; [lia|].
    rewrite Ha', <- Ha, Hcur in *. cbn [frame_time rel_time_entry] in *.
    assert (Hnf : normalized (fr_time f)).
    { rewrite Forall_forall in Hnorm. apply Hnorm.
      apply list_elem_of_In, in_rev, list_elem_of_In.
      eapply list_elem_of_lookup_2. exact Hf. }
    split; [apply same_hash_pair; exact Hsame|].
    assert (Hle : ns_of (fr_time f) <= ns_of (fr_time q)).
    { destruct (Z.le_gt_cases (ns_of (fr_time f)) (ns_of (fr_time q)))
        as [H|H]; [exact H|].
      rewrite (nstime_delta_earlier _ _ Hnf Hnq) in Hneg by lia.
      discriminate. }
    destruct (nstime_delta_later _ _ Hnf Hnq Hle) as [_ Hdn].
    rewrite (nstime_cmp_pos _ _ Hdn Hwin), nstime_delta_ns in Hcmp.
    apply Z.ltb_ge in Hcmp. lia.
  - exfalso.
    assert (Ha' : fd_hash_at st' j = cleared).
    { rewrite <- Hslot. apply (Hh (S n)); [|exact Hn].
      change ((entries ++ replicate (Z.to_nat (dup_window cfg)) (id cleared))
                !! n = Some cleared).
      rewrite lookup_app_r by exact Hout.
      apply lookup_replicate. split; [reflexivity|lia]. }
    rewrite Ha' in Hset. discriminate.
Qed.


(** The walk of [is_duplicate_rel_time] after a frame [p], frames [mid]
    and now [q], as a walk over their entries. *)
Lemma rel_time_walk p mid q st b :
  cursor_ok cfg st -> Z.of_nat (length mid) + 2 <= dup_window cfg ->
  hist_scan cfg (fr_time q) (rel_time_entry md5 cfg q)
    (rev (map (rel_time_entry md5 cfg) mid) ++ [rel_time_entry md5 cfg p])
  = Some b ->
  fst (is_duplicate_rel_time md5 cfg (fr_data q) (fr_len q) (fr_time q)
         (rel_time_run md5 cfg (p :: mid) st)) = Some b.
Proof.
  intros Hc Hfit Hb.
  destruct (rel_time_run_holds md5 cfg Hwindow (p :: mid) st []
              Hc (ring_holds_nil _ _ _)) as [Hh1 Hc1].
  rewrite app_nil_r in Hh1. cbn [map rev] in Hh1.
  destruct (rel_time_store_holds md5 cfg Hwindow q _ _ Hc1 Hh1) as [Hh Hc'].
  unfold is_duplicate_rel_time. cbn [fst].
  set (st' := rel_time_store md5 cfg (fr_data q) (fr_len q) (fr_time q)
                (rel_time_run md5 cfg (p :: mid) st)) in *.
  set (entries := rev (map (rel_time_entry md5 cfg) mid)) in *.
  assert (Hlen' : length entries = length mid).
  { unfold entries. rewrite length_rev, length_map. reflexivity. }
  pose proof Hwindow as HW. unfold window_ok in HW.
  assert (Hme : fd_hash_at st' (cur_dup_entry st') = rel_time_entry md5 cfg q).
  { rewrite <- (slot_0 (dup_window cfg) (cur_dup_entry st')) at 1 by exact Hc'.
    apply (Hh 0%nat); [reflexivity|lia]. }
  replace (cur_dup_entry st' - 1)
    with (slot (dup_window cfg) (cur_dup_entry st') 0 - 1)
    by (rewrite slot_0 by exact Hc'; reflexivity).
  apply (rel_time_scan_hist cfg st' (fr_time q)
           (entries ++ [rel_time_entry md5 cfg p]) 0%nat);
    try assumption.
  - intros n e Hn. apply (Hh (S n) e); [exact Hn|].
    apply lookup_lt_Some in Hn. rewrite length_app, Hlen' in Hn.
    cbn [length] in Hn. lia.
  - rewrite length_app, Hlen'. cbn [length]. lia.
  - rewrite Hme. exact Hb.
  - rewrite length_app, Hlen'. cbn [length]. lia.
Qed.

(** An entry stamped later than the current frame is passed over. *)
Lemma hist_scan_skips current me entries last :
  normalized current -> normalized (relative_time_window cfg) ->
  Forall (fun e => normalized (frame_time e)
                   /\ ns_of current - ns_of (frame_time e)
                      <= ns_of (relative_time_window cfg))
         (entries ++ [last]) ->
  ns_of (frame_time last) <= ns_of current ->
  same_hash last me = true ->
  hist_scan cfg current me (entries ++ [last]) = Some true.
Proof.
  intros Hcur Hwin Hall Hlast Hsame.
  induction entries as [|e entries IH]; cbn [app] in *;
    inversion Hall as [|? ? (Hn & Hin) Hall']; subst.
  - rewrite (hist_scan_inside cfg) by assumption. rewrite Hsame. reflexivity.
  - destruct (Z.le_gt_cases (ns_of (frame_time e)) (ns_of current)) as [Hle|Hgt].
    + rewrite (hist_scan_inside cfg) by assumption.
      destruct (same_hash e me); [reflexivity|]. apply IH, Hall'.
    + cbn [hist_scan]. rewrite (normalized_not_unset _ Hn).
      pose proof (nstime_delta_earlier _ _ Hn Hcur Hgt) as Hneg.
      unfold delta_negative in Hneg. rewrite Hneg. apply IH, Hall'.
Qed.

(** X11. Frames stamped later than the current frame do not hide a duplicate:
    a frame with the content and the length of an earlier one that lies
    within the time window is reported, whatever the order of the time
    stamps of the frames in between, as long as none of them is older than
    the window. *)
Theorem is_duplicate_rel_time_out_of_order p mid q st :
  cursor_ok cfg st -> Z.of_nat (length mid) + 2 <= dup_window cfg ->
  normalized (relative_time_window cfg) ->
  Forall (fun f => normalized (fr_time f)) (p :: mid ++ [q]) ->
  Forall (fun m => ns_of (fr_time q) - ns_of (fr_time m)
                   <= ns_of (relative_time_window cfg)) mid ->
  0 <= ns_of (fr_time q) - ns_of (fr_time p)
    <= ns_of (relative_time_window cfg) ->
  fr_data q = fr_data p -> fr_len q = fr_len p ->
  fst (is_duplicate_rel_time md5 cfg (fr_data q) (fr_len q) (fr_time q)
         (rel_time_run md5 cfg (p :: mid) st)) = Some true.
Proof.
  intros Hc Hfit Hwin Hnorm Hmid Hp Hdata Hlen.
  inversion Hnorm as [|? ? Hnp Hnorm']; subst.
  apply Forall_app in Hnorm' as [Hnmid Hnq].
  inversion Hnq as [|? ? Hnq' _]; subst. clear Hnq.
  apply rel_time_walk; [exact Hc|exact Hfit|].
  apply hist_scan_skips; try assumption.
  - apply Forall_app. split.
    + apply Forall_rev, Forall_map. rewrite Forall_forall in *.
      intros m Hm. cbn [frame_time rel_time_entry]. split; auto.
    + constructor; [|constructor]. cbn [frame_time rel_time_entry].
      split; [exact Hnp|lia].
  - cbn [frame_time rel_time_entry]. lia.
  - apply same_hash_pair. unfold hash_pair, rel_time_entry. cbn.
    rewrite Hdata, Hlen. reflexivity.
Qed.


End TimeWindowMore.
Lemma is_duplicate_small_window_witness :
  fst (is_duplicate sum_digest (mk_dedup_config 1 0 false (mk_nstime 0 0))
         [1; 2; 3] 3
         (snd (is_duplicate sum_digest
                 (mk_dedup_config 1 0 false (mk_nstime 0 0)) [1; 2; 3] 3
                 (dedup_init (mk_dedup_config 1 0 false (mk_nstime 0 0))))))
  = false.
Proof.
  apply (is_duplicate_small_window sum_digest
           (mk_dedup_config 1 0 false (mk_nstime 0 0))); [cbn; lia|].
  apply (is_duplicate_small_window sum_digest
           (mk_dedup_config 1 0 false (mk_nstime 0 0))); [cbn; lia|reflexivity].
Defined.

Lemma is_duplicate_sound_witness :
  (exists (k : nat) f,
      rev [frame_b; frame_a] !! k = Some f
      /\ Z.of_nat k < dup_window window4 - 1
      /\ dup_fingerprint sum_digest window4 f
         = dup_fingerprint sum_digest window4 frame_a)
  \/ dup_fingerprint sum_digest window4 frame_a = (0, 0).
Proof.
  apply (is_duplicate_sound sum_digest window4 window4_ok
           [frame_b; frame_a] frame_a).
  vm_compute. reflexivity.
Defined.

Lemma is_duplicate_ignored_prefix_witness :
  fst (is_duplicate sum_digest (mk_dedup_config 5 2 false (mk_nstime 0 0))
         [9; 9; 3; 4] 4
         (snd (is_duplicate sum_digest
                 (mk_dedup_config 5 2 false (mk_nstime 0 0)) [1; 2; 3; 4] 4
                 (dedup_init (mk_dedup_config 5 2 false (mk_nstime 0 0))))))
  = true.
Proof.
  apply (is_duplicate_ignored_prefix sum_digest
           (mk_dedup_config 5 2 false (mk_nstime 0 0))
           ltac:(unfold window_ok; cbn; lia)).
  - cbn. lia.
  - unfold cursor_ok. cbn. lia.
  - reflexivity.
  - cbn. lia.
  - lia.
  - reflexivity.
Defined.

Lemma dup_offset_in_frame_witness :
  0 <= dup_offset radiotap_mode radiotap_frame 12 < 12
  /\ Z.of_nat (length (digested radiotap_frame 12
                         (dup_offset radiotap_mode radiotap_frame 12)))
     = 12 - dup_offset radiotap_mode radiotap_frame 12
  /\ (skip_radiotap radiotap_mode = false ->
      12 <= ignored_bytes radiotap_mode ->
      digested radiotap_frame 12 (dup_offset radiotap_mode radiotap_frame 12)
      = take (Z.to_nat 12) radiotap_frame).
Proof.
  apply (dup_offset_in_frame radiotap_mode radiotap_frame 12).
  - cbn. lia.
  - lia.
  - unfold radiotap_frame. repeat constructor; lia.
  - cbn. lia.
Defined.

Lemma is_duplicate_rel_time_sound_witness :
  exists (k : nat) f,
    rev [frame_a; frame_b] !! k = Some f
    /\ Z.of_nat k < dup_window window4 - 1
    /\ rel_time_fingerprint sum_digest window4 f
       = rel_time_fingerprint sum_digest window4 frame_a_later
    /\ 0 <= ns_of (fr_time frame_a_later) - ns_of (fr_time f)
       <= ns_of (relative_time_window window4).
Proof.
  apply (is_duplicate_rel_time_sound sum_digest window4 window4_ok
           [frame_a; frame_b] frame_a_later).
  - unfold normalized, ONE_BILLION. cbn. lia.
  - unfold normalized, ONE_BILLION. cbn. lia.
  - apply stamps_normalized. reflexivity.
  - vm_compute. reflexivity.
Defined.

Definition frame_b_ahead : frame := mk_frame [1; 2; 3; 4] 4 (mk_nstime 12 0).

Lemma is_duplicate_rel_time_out_of_order_witness :
  fst (is_duplicate_rel_time sum_digest window4
         (fr_data frame_a_later) (fr_len frame_a_later) (fr_time frame_a_later)
         (rel_time_run sum_digest window4 [frame_a; frame_b_ahead]
            (dedup_init window4))) = Some true.
Proof.
  apply (is_duplicate_rel_time_out_of_order sum_digest window4 window4_ok
           frame_a [frame_b_ahead] frame_a_later (dedup_init window4)).
  - unfold cursor_ok. cbn. lia.
  - cbn. lia.
  - unfold normalized, ONE_BILLION. cbn. lia.
  - apply stamps_normalized. reflexivity.
  - repeat constructor. unfold ns_of, ONE_BILLION. cbn. lia.
  - unfold ns_of, ONE_BILLION. cbn. lia.
  - reflexivity.
  - reflexivity.
Defined.

(** X12. The walk back through the ring of [is_duplicate_rel_time] always comes
    to an end, within [dup_window] rounds, for a cursor inside the window:
    the function returns. *)
Theorem is_duplicate_rel_time_returns md5 cfg fd len current st :
  window_ok cfg -> cursor_ok cfg st ->
  exists b, fst (is_duplicate_rel_time md5 cfg fd len current st) = Some b.
Proof.
  intros HW Hc. apply is_duplicate_rel_time_total; assumption.
Qed.

Lemma is_duplicate_rel_time_returns_witness :
  exists b,
    fst (is_duplicate_rel_time sum_digest window4 [1; 2; 3] 3 (mk_nstime 10 0)
           (dedup_init window4)) = Some b.
Proof.
  apply (is_duplicate_rel_time_returns sum_digest window4 [1; 2; 3] 3
           (mk_nstime 10 0) (dedup_init window4)).
  - exact window4_ok.
  - unfold cursor_ok. cbn. lia.
Defined.

End DedupMore.

(** ** More on the time adjustment *)

Module TimeMore.
Import Nstime NstimeFacts TimeAdj TimeAdjFacts.

(** The fixed shift in nanoseconds (the arithmetic of lines 1632-1661). *)
Lemma time_shift_ns adj t :
  normalized t -> normalized (tv adj) ->
  normalized (time_shift adj t)
  /\ ns_of (time_shift adj t)
     = (if is_negative adj then ns_of t - ns_of (tv adj)
        else ns_of t + ns_of (tv adj)).
Proof.
  intros Ht Ha. split.
  - unfold time_shift. unfold_time.
    destruct (is_negative adj); cmp_cases; unfold_time;
      rewrite ?wrap32s_id; rewrite ?wrap32s_id in *; cbn [nsecs secs] in *;
      try lia.
    all: rewrite ?wrap32s_id; lia.
  - unfold time_shift. unfold_time.
    destruct (is_negative adj); cmp_cases; unfold_time;
      rewrite ?wrap32s_id; rewrite ?wrap32s_id in *; cbn [nsecs secs] in *;
      try lia.
    all: rewrite ?wrap32s_id; lia.
Qed.

(** X13. Shifting by a delta and then by the same delta with the other sign
    gives the time stamp back. *)
Theorem time_shift_undo d t :
  normalized t -> normalized d ->
  time_shift (mk_adj d true) (time_shift (mk_adj d false) t) = t
  /\ time_shift (mk_adj d false) (time_shift (mk_adj d true) t) = t.
Proof.
  intros Ht Hd.
  destruct (time_shift_ns (mk_adj d false) t Ht Hd) as [Hn1 He1].
  destruct (time_shift_ns (mk_adj d true) t Ht Hd) as [Hn2 He2].
  destruct (time_shift_ns (mk_adj d true) _ Hn1 Hd) as [Hn3 He3].
  destruct (time_shift_ns (mk_adj d false) _ Hn2 Hd) as [Hn4 He4].
  cbn [is_negative tv] in *.
  split; apply ns_of_inj; try assumption; lia.
Qed.

Lemma time_shift_undo_witness :
  time_shift (mk_adj (mk_nstime 1 600000000) true)
    (time_shift (mk_adj (mk_nstime 1 600000000) false) (mk_nstime 5 900000000))
  = mk_nstime 5 900000000
  /\ time_shift (mk_adj (mk_nstime 1 600000000) false)
       (time_shift (mk_adj (mk_nstime 1 600000000) true) (mk_nstime 5 900000000))
     = mk_nstime 5 900000000.
Proof.
  apply (time_shift_undo (mk_nstime 1 600000000) (mk_nstime 5 900000000));
    unfold normalized, ONE_BILLION; cbn; lia.
Defined.

(** A trace whose packets all carry a normalized time stamp. *)
Definition all_stamped (recs : list wtap_rec) : Prop :=
  Forall (fun r => has_ts r = true /\ normalized (ts r)) recs.

Definition rec_le (a b : wtap_rec) : Prop := ns_of (ts a) <= ns_of (ts b).

Lemma strict_adjust_keeps adj prev rec :
  is_negative adj = false -> normalized prev -> normalized (ts rec) ->
  prev = NSTIME_INIT_ZERO \/ ns_of prev <= ns_of (ts rec) ->
  strict_adjust adj prev rec = (rec, ts rec).
Proof.
  intros Hneg Hp Hr Hle. unfold strict_adjust. rewrite Hneg. cbn [negb].
  destruct (negb (secs prev =? 0) || negb (nsecs prev =? 0)) eqn:Hz;
    [|reflexivity].
  destruct Hle as [->|Hle]; [discriminate|].
  destruct (nstime_delta_later _ _ Hp Hr Hle) as [Hd _].
  unfold delta_negative in Hd. rewrite Hd. reflexivity.
Qed.

(** X14. In the mode that is not negative a trace that is in order already is
    not changed by the strict adjustment, whatever the delta. *)
Theorem strict_run_in_order_unchanged cfg recs :
  do_strict_time_adjustment cfg = true ->
  is_negative (strict_time_adj cfg) = false ->
  all_stamped recs -> Sorted rec_le recs ->
  strict_run cfg previous_time_init recs = recs.
Proof.
  intros Hdo Hneg Hall Hs.
  assert (Hgen : forall prev,
            normalized prev ->
            prev = NSTIME_INIT_ZERO
            \/ Forall (fun r => ns_of prev <= ns_of (ts r)) recs ->
            strict_run cfg prev recs = recs).
  { induction recs as [|r rest IH]; intros prev Hp Hle; [reflexivity|].
    inversion Hall as [|? ? [Hts Hn] Hall']; subst.
    apply Sorted_StronglySorted in Hs;
      [|intros a b c Hab Hbc; unfold rec_le in *; lia].
    inversion Hs as [|? ? Hs' Hhd]; subst.
    cbn [strict_run]. unfold strict_stage. rewrite Hts, Hdo.
    rewrite (strict_adjust_keeps _ prev r Hneg Hp Hn).
    - f_equal. apply IH; try assumption.
      + apply StronglySorted_Sorted. exact Hs'.
      + right. exact Hhd.
    - destruct Hle as [Hle|Hle]; [left; exact Hle|right].
      inversion Hle; subst. assumption. }
  apply Hgen; [unfold normalized, ONE_BILLION; cbn; lia|left; reflexivity].
Qed.

Lemma strict_run_in_order_unchanged_witness :
  strict_run strict_zero previous_time_init
    [stamped (mk_nstime 3 0); stamped (mk_nstime 3 0); stamped (mk_nstime 4 5)]
  = [stamped (mk_nstime 3 0); stamped (mk_nstime 3 0); stamped (mk_nstime 4 5)].
Proof.
  apply (strict_run_in_order_unchanged strict_zero).
  - reflexivity.
  - reflexivity.
  - repeat constructor; unfold normalized, ONE_BILLION; cbn; lia.
  - repeat constructor; unfold rec_le, ns_of, ONE_BILLION; cbn; lia.
Defined.

(** X15. In the mode that is not negative, a trace of normalized time stamps at
    or after the epoch leaves the strict adjustment in order: no packet is
    stamped earlier than the one before it. *)
Theorem strict_run_from_epoch_in_order cfg recs :
  do_strict_time_adjustment cfg = true ->
  is_negative (strict_time_adj cfg) = false ->
  adj_valid (strict_time_adj cfg) ->
  Forall from_epoch recs ->
  Sorted rec_le (strict_run cfg previous_time_init recs).
Proof.
  intros Hdo Hneg Hadj Hall.
  apply (strict_run_ordered cfg previous_time_init recs Hdo Hneg Hadj);
    try assumption; unfold normalized, ONE_BILLION; cbn; lia.
Qed.

Lemma strict_run_from_epoch_in_order_witness :
  Sorted rec_le
    (strict_run strict_zero previous_time_init
       [stamped (mk_nstime 9 0); stamped (mk_nstime 3 0); stamped (mk_nstime 4 5)]).
Proof.
  apply (strict_run_from_epoch_in_order strict_zero).
  - reflexivity.
  - reflexivity.
  - unfold adj_valid, normalized, ONE_BILLION. cbn. lia.
  - repeat constructor; unfold normalized, ONE_BILLION; cbn; lia.
Defined.

(** The forced run after a previous time stamp later than the epoch. *)
Lemma strict_run_forced_from cfg prev recs :
  do_strict_time_adjustment cfg = true ->
  is_negative (strict_time_adj cfg) = true ->
  adj_valid (strict_time_adj cfg) ->
  normalized prev -> 0 < ns_of prev ->
  Forall (fun r => has_ts r = true) recs ->
  forall (k : nat) r, strict_run cfg prev recs !! k = Some r ->
    normalized (ts r)
    /\ ns_of (ts r)
       = ns_of prev + (Z.of_nat k + 1) * ns_of (tv (strict_time_adj cfg)).
Proof.
  intros Hdo Hneg Hadj Hp Hpos Hall. revert prev Hp Hpos.
  assert (Hd : 0 <= ns_of (tv (strict_time_adj cfg))).
  { destruct Hadj as [Hs Hv]. unfold_time. nia. }
  induction Hall as [|rec rest Hts _ IH]; intros prev Hp Hpos k r Hk;
    [discriminate|].
  cbn [strict_run] in Hk. unfold strict_stage in Hk. rewrite Hts, Hdo in Hk.
  assert (Hnz : prev <> NSTIME_INIT_ZERO).
  { intros ->. unfold ns_of in Hpos. cbn in Hpos. lia. }
  destruct (strict_adjust_forced _ prev rec Hneg Hadj Hp Hnz) as [He Hn].
  pose proof (strict_adjust_previous (strict_time_adj cfg) prev rec) as Hprev.
  destruct (strict_adjust (strict_time_adj cfg) prev rec) as [rec' prev'].
  cbn [fst snd] in *. subst prev'.
  destruct k as [|k].
  - cbn in Hk. injection Hk as <-. split; [exact Hn|lia].
  - cbn in Hk.
    assert (Hpos' : 0 < ns_of (ts rec')) by lia.
    destruct (IH (ts rec') Hn Hpos' k r Hk) as [Hn' He'].
    split; [exact Hn'|]. rewrite He', He, Nat2Z.inj_succ. ring.
Qed.

(** X16. In the negative mode, after a first packet stamped [t0] later than
    the epoch, the packet [k] places further on is stamped exactly
    [t0 + k * delta], whatever its own time stamp was; with a delta of 0
    every packet gets the time stamp of the first. *)
Theorem strict_run_forced_spacing cfg t0 recs :
  do_strict_time_adjustment cfg = true ->
  is_negative (strict_time_adj cfg) = true ->
  adj_valid (strict_time_adj cfg) ->
  normalized t0 -> 0 < ns_of t0 ->
  Forall (fun r => has_ts r = true) recs ->
  forall (k : nat) r,
    strict_run cfg previous_time_init (stamped t0 :: recs) !! k = Some r ->
    normalized (ts r)
    /\ ns_of (ts r)
       = ns_of t0 + Z.of_nat k * ns_of (tv (strict_time_adj cfg)).
Proof.
  intros Hdo Hneg Hadj Hn0 Hpos Hall k r Hk.
  cbn [strict_run] in Hk. unfold strict_stage in Hk.
  cbn [has_ts stamped] in Hk. rewrite Hdo in Hk.
  change (strict_adjust (strict_time_adj cfg) previous_time_init
            (mk_rec true t0)) with (mk_rec true t0, t0) in Hk.
  cbn iota in Hk. destruct k as [|k].
  - cbn in Hk. injection Hk as <-. cbn [ts]. split; [exact Hn0|].
    unfold stamped. cbn [ts]. change (Z.of_nat 0) with 0. ring.
  - cbn in Hk.
    destruct (strict_run_forced_from cfg t0 recs Hdo Hneg Hadj Hn0 Hpos Hall
                k r Hk) as [Hn He].
    split; [exact Hn|]. rewrite He, Nat2Z.inj_succ. ring.
Qed.

Lemma strict_run_forced_spacing_witness :
  normalized (ts (stamped (mk_nstime 2 1000)))
  /\ ns_of (ts (stamped (mk_nstime 2 1000)))
     = ns_of (mk_nstime 2 0)
       + Z.of_nat 1 * ns_of (tv (strict_time_adj strict_forced)).
Proof.
  apply (strict_run_forced_spacing strict_forced (mk_nstime 2 0)
           [stamped (mk_nstime 9 0); stamped (mk_nstime 1 0)]
           ltac:(reflexivity) ltac:(reflexivity)
           ltac:(unfold adj_valid, normalized, ONE_BILLION; cbn; lia)
           ltac:(unfold normalized, ONE_BILLION; cbn; lia)
           ltac:(unfold ns_of, ONE_BILLION; cbn; lia)
           ltac:(repeat constructor)
           1%nat (stamped (mk_nstime 2 1000))).
  reflexivity.
Defined.

End TimeMore.

(** ** More on the error injection *)

Module ErrMore.
Import ErrInj ErrInjFacts ErrStage.

Lemma skip_to_nul_string s rest n :
  Forall (fun c => c <> 0) s ->
  - 2 ^ 31 <= n -> n + Z.of_nat (length s) < 2 ^ 31 ->
  skip_to_nul (s ++ 0 :: rest) n = Some (n + Z.of_nat (length s)).
Proof.
  intros Hs. revert n. induction Hs as [|c s Hc _ IH]; intros n Hlo Hhi.
  - cbn. f_equal. lia.
  - cbn [app skip_to_nul length] in *.
    destruct (Z.eqb_spec c 0); [contradiction|].
    rewrite wrap32s_id by lia. rewrite IH by lia. f_equal. lia.
Qed.

Lemma scan_string_at pre s rest :
  Forall (fun c => c <> 0) s ->
  Z.of_nat (length pre) + Z.of_nat (length s) < 2 ^ 31 ->
  scan_string (pre ++ s ++ 0 :: rest) (Z.of_nat (length pre))
  = Some (Z.of_nat (length pre) + Z.of_nat (length s)).
Proof.
  intros Hs Hlen. unfold scan_string.
  destruct (Z.ltb_spec (Z.of_nat (length pre)) 0); [lia|].
  rewrite Nat2Z.id, drop_app_length.
  apply skip_to_nul_string; [exact Hs|lia|lia].
Qed.

(** The scan of one string field that starts at [n]: the offset of its
    NUL. *)
Lemma scan_string_field pre s rest n :
  Forall (fun c => c <> 0) s ->
  n = Z.of_nat (length pre) ->
  n + Z.of_nat (length s) < 2 ^ 31 ->
  scan_string (pre ++ s ++ 0 :: rest) n = Some (n + Z.of_nat (length s)).
Proof. intros Hs -> Hlen. apply scan_string_at; assumption. Qed.

Ltac unwrap :=
  repeat match goal with
         | |- context [wrap32s ?z] => rewrite (wrap32s_id z) by lia
         end.

(** The layout of a DCT2000 record: five NUL-terminated strings, a port
    byte after the first, direction and encapsulation bytes after the last,
    then the data. *)
Definition dct2000_header (ctx : list Z) (port : Z)
    (tstamp proto variant outhdr : list Z) (dir encap : Z) : list Z :=
  ctx ++ 0 :: port :: tstamp ++ 0 :: proto ++ 0 :: variant ++ 0 :: outhdr
      ++ 0 :: dir :: encap :: [].

Definition no_nul (s : list Z) : Prop := Forall (fun c => c <> 0) s.

(** X17. For a record laid out as the DCT2000 reader leaves it (context name,
    port byte, time stamp, protocol name, variant, outhdr, direction and
    encapsulation bytes, then the data), [find_dct2000_real_data] returns
    the length of the header: the offset at which the data starts. *)
Theorem find_dct2000_real_data_layout ctx port tstamp proto variant outhdr
    dir encap payload :
  no_nul ctx -> no_nul tstamp -> no_nul proto -> no_nul variant ->
  no_nul outhdr ->
  Z.of_nat (length (dct2000_header ctx port tstamp proto variant outhdr
                      dir encap)) < 2 ^ 31 ->
  find_dct2000_real_data
    (dct2000_header ctx port tstamp proto variant outhdr dir encap ++ payload)
  = Some (Z.of_nat (length (dct2000_header ctx port tstamp proto variant
                              outhdr dir encap))).
Proof.
  unfold no_nul, dct2000_header. intros Hctx Hts Hproto Hvar Hout Hlen.
  repeat (rewrite ?length_app in Hlen; cbn [length] in Hlen).
  repeat (rewrite <- ?app_assoc; cbn [app]).
  unfold find_dct2000_real_data.
  match goal with
  | |- context [scan_string (ctx ++ 0 :: ?r) 0] =>
      pose proof (scan_string_field [] ctx r 0 Hctx eq_refl ltac:(lia)) as H0
  end.
  cbn [app] in H0. rewrite H0. clear H0.
  cbn [mbind option_bind]. unwrap.
  set (tl1 := proto ++ _).
  replace (ctx ++ 0 :: port :: tstamp ++ 0 :: tl1)
    with ((ctx ++ [0; port]) ++ tstamp ++ 0 :: tl1)
    by (rewrite <- app_assoc; reflexivity).
  rewrite (scan_string_field (ctx ++ [0; port]) tstamp)
    by (try assumption; rewrite ?length_app; cbn [length]; lia).
  cbn [mbind option_bind]. unwrap.
  subst tl1. set (tl2 := variant ++ _).
  replace ((ctx ++ [0; port]) ++ tstamp ++ 0 :: proto ++ 0 :: tl2)
    with ((ctx ++ [0; port] ++ tstamp ++ [0]) ++ proto ++ 0 :: tl2)
    by (repeat (rewrite <- ?app_assoc; cbn [app]); reflexivity).
  rewrite (scan_string_field (ctx ++ [0; port] ++ tstamp ++ [0]) proto)
    by (try assumption; repeat (rewrite ?length_app; cbn [length]); lia).
  cbn [mbind option_bind]. unwrap.
  subst tl2. set (tl3 := outhdr ++ _).
  replace ((ctx ++ [0; port] ++ tstamp ++ [0]) ++ proto ++ 0 :: variant
             ++ 0 :: tl3)
    with ((ctx ++ [0; port] ++ tstamp ++ [0] ++ proto ++ [0]) ++ variant
             ++ 0 :: tl3)
    by (repeat (rewrite <- ?app_assoc; cbn [app]); reflexivity).
  rewrite (scan_string_field
             (ctx ++ [0; port] ++ tstamp ++ [0] ++ proto ++ [0]) variant)
    by (try assumption; repeat (rewrite ?length_app; cbn [length]); lia).
  cbn [mbind option_bind]. unwrap.
  subst tl3.
  replace ((ctx ++ [0; port] ++ tstamp ++ [0] ++ proto ++ [0]) ++ variant
             ++ 0 :: outhdr ++ 0 :: dir :: encap :: payload)
    with ((ctx ++ [0; port] ++ tstamp ++ [0] ++ proto ++ [0] ++ variant ++ [0])
            ++ outhdr ++ 0 :: dir :: encap :: payload)
    by (repeat (rewrite <- ?app_assoc; cbn [app]); reflexivity).
  rewrite (scan_string_field
             (ctx ++ [0; port] ++ tstamp ++ [0] ++ proto ++ [0] ++ variant
                ++ [0]) outhdr)
    by (try assumption; repeat (rewrite ?length_app; cbn [length]); lia).
  cbn [mbind option_bind]. unwrap.
  f_equal. repeat (rewrite ?length_app; cbn [length]). lia.
Qed.

Lemma find_dct2000_real_data_layout_witness :
  find_dct2000_real_data
    (dct2000_header [65; 66] 7 [49] [80] [50] [51] 1 2 ++ [200; 201])
  = Some (Z.of_nat (length (dct2000_header [65; 66] 7 [49] [80] [50] [51]
                              1 2))).
Proof.
  apply find_dct2000_real_data_layout;
    first [ reflexivity | unfold no_nul; repeat constructor; lia ].
Defined.

(** The quotient [r / (RAND_MAX / w + 1)] of a draw is below [w]. *)
Lemma draw_range R w r :
  0 < w -> 0 <= r <= R -> 0 <= r / (R / w + 1) < w.
Proof.
  intros Hw Hr.
  assert (0 <= R / w) by (apply Z.div_pos; lia).
  split; [apply Z.div_pos; lia|].
  apply Z.div_lt_upper_bound; [lia|].
  pose proof (Z.mul_succ_div_gt R w Hw). lia.
Qed.

Lemma fill_aa_length n buf j : length (fill_aa n buf j) = length buf.
Proof.
  revert buf j. induction n as [|n IH]; intros buf j; [reflexivity|].
  cbn [fill_aa]. rewrite IH. apply set_byte_length.
Qed.

Lemma fill_aa_other n buf i j :
  0 <= j -> j < i \/ i + Z.of_nat n <= j ->
  byte_at (fill_aa n buf i) j = byte_at buf j.
Proof.
  revert buf i. induction n as [|n IH]; intros buf i Hj Hout; [reflexivity|].
  cbn [fill_aa]. rewrite IH by lia. apply set_byte_other; lia.
Qed.

Lemma fill_aa_inside n buf i j :
  0 <= i <= j -> j < i + Z.of_nat n -> j < Z.of_nat (length buf) ->
  byte_at (fill_aa n buf i) j = 170.
Proof.
  revert buf i. induction n as [|n IH]; intros buf i Hi Hn Hlen; [lia|].
  cbn [fill_aa]. destruct (Z.eq_dec i j) as [->|Hne].
  - rewrite fill_aa_other by lia. rewrite set_byte_same by lia. reflexivity.
  - apply IH; [lia|lia|]. rewrite set_byte_length. lia.
Qed.

Lemma g_strlcpy_fmt buf i :
  g_strlcpy buf i (codes "%s"%string) 2 = set_byte (set_byte buf i 37) (i + 1) 0.
Proof. reflexivity. Qed.

Lemma inject_fmt_length buf i caplen :
  length (inject_fmt buf i caplen) = length buf.
Proof.
  unfold inject_fmt. rewrite g_strlcpy_fmt.
  destruct (wrap32u i <? wrap32u (caplen - 2)); [|reflexivity].
  rewrite !set_byte_length. reflexivity.
Qed.

Lemma inject_fmt_other buf i caplen j :
  2 <= caplen < 2 ^ 31 -> 0 <= i < caplen ->
  0 <= j -> j < i \/ caplen <= j ->
  byte_at (inject_fmt buf i caplen) j = byte_at buf j.
Proof.
  intros Hcap Hi Hj Hout. unfold inject_fmt. rewrite g_strlcpy_fmt.
  rewrite !wrap32u_id by lia.
  destruct (Z.ltb_spec i (caplen - 2)); [|reflexivity].
  rewrite !set_byte_other by lia. reflexivity.
Qed.

Section Draws.

Variable rng : Type.
Variable rand : rng -> Z * rng.
Variable RAND_MAX : Z.
Variable err_hit : Z -> bool.

(** The outcome as a table of cumulative weights: one comparison chain
    over the draw, with no running subtraction. *)
Definition inject_table (buf : list Z) (i caplen err_type : Z) (g : rng)
  : list Z * Z * rng :=
  if err_type <? 5 then
    (set_byte buf i
       (Z.lxor (byte_at buf i) (Z.shiftl 1 ((rand g).1 / (RAND_MAX / 8 + 1)))),
     i, (rand g).2)
  else if err_type <? 10 then
    (set_byte buf i ((rand g).1 / (RAND_MAX / 255 + 1)), i, (rand g).2)
  else if err_type <? 15 then
    (set_byte buf i
       (byte_at ALNUM_CHARS ((rand g).1 / (RAND_MAX / ALNUM_LEN + 1))),
     i, (rand g).2)
  else if err_type <? 17 then (inject_fmt buf i caplen, i, g)
  else if err_type <? 18 then
    (fill_aa (Z.to_nat (wrap32s caplen - i)) buf i, wrap32s caplen, g)
  else (buf, i, g).

Lemma inject_as_table buf i caplen err_type g :
  inject rng rand RAND_MAX buf i caplen err_type g
  = inject_table buf i caplen err_type g.
Proof.
  unfold inject, inject_table, ERR_WT_BIT, ERR_WT_BYTE, ERR_WT_ALNUM,
    ERR_WT_FMT, ERR_WT_AA, ERR_WT_TOTAL.
  destruct (rand g) as [r g'] eqn:Hr. cbn [fst snd].
  destruct (Z.ltb_spec err_type 5).
  { cbn. reflexivity. }
  destruct (Z.ltb_spec (err_type - 5) 5).
  { destruct (Z.ltb_spec err_type 10); [|lia]. rewrite Hr. cbn. reflexivity. }
  destruct (Z.ltb_spec err_type 10); [lia|].
  destruct (Z.ltb_spec (err_type - 5 - 5) 5).
  { destruct (Z.ltb_spec err_type 15); [|lia]. rewrite Hr. cbn. reflexivity. }
  destruct (Z.ltb_spec err_type 15); [lia|].
  destruct (Z.ltb_spec (err_type - 5 - 5 - 5) 2).
  { destruct (Z.ltb_spec err_type 17); [|lia]. cbn. reflexivity. }
  destruct (Z.ltb_spec err_type 17); [lia|].
  destruct (Z.ltb_spec (err_type - 5 - 5 - 5 - 2) 1).
  { destruct (Z.ltb_spec err_type 18); [|lia]. reflexivity. }
  destruct (Z.ltb_spec err_type 18); [lia|]. reflexivity.
Qed.

(** X18. The cascade of tests with running subtraction (lines 1815-1848) picks
    the outcome that a table of cumulative weights picks: bit flip for a
    draw below 5, random byte below 10, alphanumeric below 15, format
    below 17, fill below 18, and nothing from 18 on.  Exactly one outcome
    is applied, and only the first three consume a number. *)
Theorem inject_cumulative_table buf i caplen err_type g :
  inject rng rand RAND_MAX buf i caplen err_type g
  = inject_table buf i caplen err_type g.
Proof.
  unfold inject, inject_table, ERR_WT_BIT, ERR_WT_BYTE, ERR_WT_ALNUM,
    ERR_WT_FMT, ERR_WT_AA, ERR_WT_TOTAL.
  destruct (rand g) as [r g'] eqn:Hr. cbn [fst snd].
  destruct (Z.ltb_spec err_type 5).
  { cbn. reflexivity. }
  destruct (Z.ltb_spec (err_type - 5) 5).
  { destruct (Z.ltb_spec err_type 10); [|lia]. rewrite Hr. cbn. reflexivity. }
  destruct (Z.ltb_spec err_type 10); [lia|].
  destruct (Z.ltb_spec (err_type - 5 - 5) 5).
  { destruct (Z.ltb_spec err_type 15); [|lia]. rewrite Hr. cbn. reflexivity. }
  destruct (Z.ltb_spec err_type 15); [lia|].
  destruct (Z.ltb_spec (err_type - 5 - 5 - 5) 2).
  { destruct (Z.ltb_spec err_type 17); [|lia]. cbn. reflexivity. }
  destruct (Z.ltb_spec err_type 17); [lia|].
  destruct (Z.ltb_spec (err_type - 5 - 5 - 5 - 2) 1).
  { destruct (Z.ltb_spec err_type 18); [|lia]. reflexivity. }
  destruct (Z.ltb_spec err_type 18); [lia|]. reflexivity.
Qed.


Lemma lxor_byte a k :
  0 <= a < 256 -> 0 <= k < 8 -> 0 <= Z.lxor a (2 ^ k) < 256.
Proof.
  intros Ha Hk.
  assert (0 < 2 ^ k) by (apply Z.pow_pos_nonneg; lia).
  assert (Hnn : 0 <= Z.lxor a (2 ^ k)) by (apply Z.lxor_nonneg; lia).
  split; [exact Hnn|].
  destruct (Z.eq_dec (Z.lxor a (2 ^ k)) 0) as [->|Hne]; [lia|].
  change 256 with (2 ^ 8). apply Z.log2_lt_pow2; [lia|].
  pose proof (Z.log2_lxor a (2 ^ k) ltac:(lia) ltac:(lia)) as Hl.
  rewrite Z.log2_pow2 in Hl by lia.
  assert (Z.log2 a < 8).
  { destruct (Z.eq_dec a 0) as [->|]; [cbn; lia|].
    apply Z.log2_lt_pow2; [lia|]. change (2 ^ 8) with 256. lia. }
  lia.
Qed.

(** X19. The bit outcome flips exactly one of the eight bits of the byte at
    the position, leaves the rest of the buffer and the position alone,
    and consumes one number. *)
Theorem inject_bit_flips_one_bit buf i caplen err_type g :
  err_type < ERR_WT_BIT ->
  0 <= (rand g).1 <= RAND_MAX ->
  0 <= i < Z.of_nat (length buf) ->
  0 <= byte_at buf i < 256 ->
  exists k, 0 <= k < 8
    /\ inject rng rand RAND_MAX buf i caplen err_type g
       = (<[Z.to_nat i := Z.lxor (byte_at buf i) (2 ^ k)]> buf, i, (rand g).2)
    /\ forall b, 0 <= b ->
         Z.testbit (Z.lxor (byte_at buf i) (2 ^ k)) b
         = xorb (Z.testbit (byte_at buf i) b) (b =? k).
Proof.
  unfold ERR_WT_BIT. intros He Hr Hi Hb.
  pose proof (draw_range RAND_MAX 8 (rand g).1 ltac:(lia) Hr) as Hk.
  exists ((rand g).1 / (RAND_MAX / 8 + 1)). split; [exact Hk|]. split.
  - rewrite inject_as_table. unfold inject_table.
    destruct (Z.ltb_spec err_type 5); [|lia].
    rewrite Z.shiftl_1_l. unfold set_byte.
    destruct (Z.ltb_spec i 0); [lia|].
    rewrite Z.mod_small by (apply lxor_byte; assumption). reflexivity.
  - intros b Hb0. rewrite Z.lxor_spec, Z.pow2_bits_eqb by lia.
    rewrite (Z.eqb_sym b). reflexivity.
Qed.

(** The byte outcome stores a value between 0 and 254: the quotient by
    [RAND_MAX / 255 + 1] never reaches 255. *)
Theorem inject_byte_below_255 buf i caplen err_type g :
  ERR_WT_BIT <= err_type < ERR_WT_BIT + ERR_WT_BYTE ->
  0 <= (rand g).1 <= RAND_MAX ->
  0 <= i < Z.of_nat (length buf) ->
  exists v, 0 <= v < 255
    /\ inject rng rand RAND_MAX buf i caplen err_type g
       = (<[Z.to_nat i := v]> buf, i, (rand g).2).
Proof.
  unfold ERR_WT_BIT, ERR_WT_BYTE. intros He Hr Hi.
  pose proof (draw_range RAND_MAX 255 (rand g).1 ltac:(lia) Hr) as Hv.
  exists ((rand g).1 / (RAND_MAX / 255 + 1)). split; [exact Hv|].
  rewrite inject_as_table. unfold inject_table.
  destruct (Z.ltb_spec err_type 5); [lia|].
  destruct (Z.ltb_spec err_type 10); [|lia].
  unfold set_byte. destruct (Z.ltb_spec i 0); [lia|].
  rewrite Z.mod_small by lia. reflexivity.
Qed.

Lemma ALNUM_CHARS_bytes : Forall (fun c => 0 <= c < 256) ALNUM_CHARS.
Proof. unfold ALNUM_CHARS. cbn. repeat constructor; lia. Qed.

(** The alphanumeric outcome stores one of the 62 characters of
    [ALNUM_CHARS]; the index never leaves the table. *)
Theorem inject_alnum_char buf i caplen err_type g :
  ERR_WT_BIT + ERR_WT_BYTE <= err_type
    < ERR_WT_BIT + ERR_WT_BYTE + ERR_WT_ALNUM ->
  0 <= (rand g).1 <= RAND_MAX ->
  0 <= i < Z.of_nat (length buf) ->
  exists c, c ∈ ALNUM_CHARS
    /\ inject rng rand RAND_MAX buf i caplen err_type g
       = (<[Z.to_nat i := c]> buf, i, (rand g).2).
Proof.
  unfold ERR_WT_BIT, ERR_WT_BYTE, ERR_WT_ALNUM. intros He Hr Hi.
  pose proof (draw_range RAND_MAX ALNUM_LEN (rand g).1 ltac:(reflexivity) Hr)
    as Hk.
  set (k := (rand g).1 / (RAND_MAX / ALNUM_LEN + 1)) in *.
  destruct (lookup_lt_is_Some_2 ALNUM_CHARS (Z.to_nat k)) as [c Hc].
  { unfold ALNUM_LEN in Hk. lia. }
  exists c. split; [eapply list_elem_of_lookup_2; exact Hc|].
  rewrite inject_as_table. unfold inject_table.
  destruct (Z.ltb_spec err_type 5); [lia|].
  destruct (Z.ltb_spec err_type 10); [lia|].
  destruct (Z.ltb_spec err_type 15); [|lia].
  fold k. unfold byte_at at 1. rewrite Hc. cbn [default].
  unfold set_byte. destruct (Z.ltb_spec i 0); [lia|].
  pose proof (proj1 (Forall_lookup _ _) ALNUM_CHARS_bytes _ _ Hc) as Hb.
  cbn beta in Hb. change (id c) with c.
  rewrite Z.mod_small by lia. reflexivity.
Qed.

Lemma inject_frame buf i caplen err_type g :
  2 <= caplen < 2 ^ 31 -> 0 <= i < caplen ->
  length (inject rng rand RAND_MAX buf i caplen err_type g).1.1 = length buf
  /\ ((inject rng rand RAND_MAX buf i caplen err_type g).1.2 = i
      \/ (inject rng rand RAND_MAX buf i caplen err_type g).1.2 = caplen)
  /\ forall j, 0 <= j -> j < i \/ caplen <= j ->
       byte_at (inject rng rand RAND_MAX buf i caplen err_type g).1.1 j
       = byte_at buf j.
Proof.
  intros Hcap Hi. rewrite inject_as_table. unfold inject_table.
  rewrite (wrap32s_id caplen) by lia.
  repeat match goal with
         | |- context [if ?a <? ?b then _ else _] => destruct (a <? b)
         end; cbn [fst snd];
    (split; [|split; [auto|]]);
    rewrite ?set_byte_length, ?inject_fmt_length, ?fill_aa_length;
    try reflexivity; intros j Hj Hout;
    rewrite ?set_byte_other by lia; try reflexivity.
  - apply inject_fmt_other; assumption.
  - apply fill_aa_other; lia.
Qed.

Lemma mutate_frame start caplen n :
  2 <= caplen < 2 ^ 31 - 1 -> 0 <= start ->
  forall buf i g, start <= i ->
    length (mutate rng rand RAND_MAX err_hit n buf i caplen g).1 = length buf
    /\ forall j, 0 <= j -> j < start \/ caplen <= j ->
         byte_at (mutate rng rand RAND_MAX err_hit n buf i caplen g).1 j
         = byte_at buf j.
Proof.
  intros Hcap Hstart. induction n as [|n IH]; intros buf i g Hi.
  { cbn. split; reflexivity. }
  cbn [mutate]. rewrite (wrap32s_id caplen) by lia.
  destruct (Z.ltb_spec i caplen); [|cbn; split; reflexivity].
  destruct (rand g) as [r g1].
  destruct (err_hit r).
  - destruct (rand g1) as [r2 g2].
    pose proof (inject_frame buf i caplen (r2 / (RAND_MAX / ERR_WT_TOTAL + 1))
                  g2 ltac:(lia) ltac:(lia)) as (Hlen & Hpos & Hout).
    destruct (inject rng rand RAND_MAX buf i caplen
                (r2 / (RAND_MAX / ERR_WT_TOTAL + 1)) g2) as [[buf' i'] g'].
    cbn [fst snd] in *.
    assert (Hw : wrap32s (i' + 1) = i' + 1) by (apply wrap32s_id; lia).
    rewrite Hw.
    destruct (IH buf' (i' + 1) g' ltac:(lia)) as [IHlen IHout].
    split; [congruence|].
    intros j Hj Hj'. rewrite IHout by assumption. apply Hout; lia.
  - rewrite wrap32s_id by lia. apply IH. lia.
Qed.

(** The loop needs no more rounds than there are positions from the start
    to [caplen]: more rounds give the same result. *)
Lemma mutate_rounds caplen n :
  2 <= caplen < 2 ^ 31 - 1 ->
  forall m buf i g, 0 <= i -> caplen - i <= Z.of_nat n ->
    caplen - i <= Z.of_nat m ->
    mutate rng rand RAND_MAX err_hit n buf i caplen g
    = mutate rng rand RAND_MAX err_hit m buf i caplen g.
Proof.
  intros Hcap. induction n as [|n IH]; intros m buf i g Hi Hn Hm.
  - destruct m as [|m]; [reflexivity|]. cbn [mutate].
    rewrite (wrap32s_id caplen) by lia.
    destruct (Z.ltb_spec i caplen); [lia|reflexivity].
  - cbn [mutate]. rewrite (wrap32s_id caplen) by lia.
    destruct (Z.ltb_spec i caplen) as [Hlt|Hge].
    + destruct m as [|m]; [lia|]. cbn [mutate].
      rewrite (wrap32s_id caplen) by lia.
      destruct (Z.ltb_spec i caplen); [|lia].
      destruct (rand g) as [r g1].
      destruct (err_hit r).
      * destruct (rand g1) as [r2 g2].
        pose proof (inject_frame buf i caplen
                      (r2 / (RAND_MAX / ERR_WT_TOTAL + 1))
                      g2 ltac:(lia) ltac:(lia)) as (_ & Hpos & _).
        destruct (inject rng rand RAND_MAX buf i caplen
                    (r2 / (RAND_MAX / ERR_WT_TOTAL + 1)) g2)
          as [[buf' i'] g'].
        cbn [fst snd] in *.
        rewrite (wrap32s_id (i' + 1)) by lia. apply IH; lia.
      * rewrite wrap32s_id by lia. apply IH; lia.
    + destruct m as [|m]; [reflexivity|]. cbn [mutate].
      rewrite (wrap32s_id caplen) by lia.
      destruct (Z.ltb_spec i caplen); [lia|reflexivity].
Qed.

(** X20. When the draw selects the fill outcome, every byte from the position
    to the end of the captured data becomes 0xAA and the packet's loop
    ends: no later position is visited and no further number is drawn. *)
Theorem mutate_fill_rest n buf i caplen g :
  err_hit (rand g).1 = true ->
  (rand (rand g).2).1 / (RAND_MAX / ERR_WT_TOTAL + 1) = ERR_WT_TOTAL - 1 ->
  0 <= i < caplen -> caplen < 2 ^ 31 - 1 ->
  mutate rng rand RAND_MAX err_hit (S n) buf i caplen g
  = (fill_aa (Z.to_nat (caplen - i)) buf i, (rand (rand g).2).2)
  /\ forall j, i <= j < caplen -> j < Z.of_nat (length buf) ->
       byte_at (fill_aa (Z.to_nat (caplen - i)) buf i) j = 170.
Proof.
  intros Hhit Hdraw Hi Hcap. split.
  - cbn [mutate]. rewrite (wrap32s_id caplen) by lia.
    destruct (Z.ltb_spec i caplen); [|lia].
    destruct (rand g) as [r g1]. cbn [fst snd] in *. rewrite Hhit.
    destruct (rand g1) as [r2 g2]. cbn [fst snd] in *. rewrite Hdraw.
    rewrite inject_as_table. unfold inject_table.
    change (ERR_WT_TOTAL - 1) with 17. cbn [Z.ltb Z.compare Pos.compare
      Pos.compare_cont].
    rewrite (wrap32s_id caplen) by lia.
    rewrite (wrap32s_id (caplen + 1)) by lia.
    destruct n as [|n]; [reflexivity|]. cbn [mutate].
    rewrite (wrap32s_id caplen) by lia.
    destruct (Z.ltb_spec (caplen + 1) caplen); [lia|reflexivity].
  - intros j Hj Hlen. apply fill_aa_inside; lia.
Qed.

(** X21. The mutation stage changes no byte before the start of the data to
    mutate (the end of the DCT2000 header, if any, plus the change offset)
    and no byte at or after [caplen], and it keeps the length of the
    buffer, for a captured length of at least 2.  This holds whatever the
    generator draws, and also when the change offset exceeds [caplen] (the
    packet is then left alone). *)
Theorem mutation_stage_protects err_prob_positive (dct2000 : bool)
    change_offset caplen buf g start :
  2 <= caplen < 2 ^ 31 - 1 ->
  (if dct2000 then find_dct2000_real_data buf else Some 0) = Some start ->
  0 <= start -> 0 <= change_offset -> start + change_offset < 2 ^ 31 ->
  exists buf' g',
    mutation_stage rng rand RAND_MAX err_hit err_prob_positive dct2000
      change_offset caplen buf g = Some (buf', g')
    /\ length buf' = length buf
    /\ forall j, 0 <= j -> j < start + change_offset \/ caplen <= j ->
         byte_at buf' j = byte_at buf j.
Proof.
  intros Hcap Hstart Hs Hoff Hsum. unfold mutation_stage.
  destruct (err_prob_positive && negb (caplen <? change_offset)).
  - rewrite Hstart. cbn [mbind option_bind].
    rewrite (wrap32s_id (start + change_offset)) by lia.
    set (res := mutate _ _ _ _ _ _ _ _ _).
    pose proof (mutate_frame (start + change_offset) caplen
                  (Z.to_nat (wrap32s caplen - (start + change_offset)))
                  Hcap ltac:(lia) buf (start + change_offset) g ltac:(lia))
      as [Hlen Hout].
    fold res in Hlen, Hout.
    exists (fst res), (snd res).
    split; [rewrite <- surjective_pairing; reflexivity|].
    split; assumption.
  - exists buf, g. repeat split; reflexivity.
Qed.

End Draws.

Ltac by_eval :=
  first [ reflexivity
        | cbn; lia
        | vm_compute; lia
        | split; vm_compute;
          first [ reflexivity | discriminate | intro; discriminate ] ].

(** A generator that hits at every even number. *)
Definition even_hit (r : Z) : bool := r mod 2 =? 0.

Lemma inject_bit_flips_one_bit_witness :
  exists k, 0 <= k < 8
    /\ inject Z next_number 2147483647 [65; 66; 67] 1 3 0 1500000000
       = (<[Z.to_nat 1 := Z.lxor (byte_at [65; 66; 67] 1) (2 ^ k)]>
            [65; 66; 67], 1, (next_number 1500000000).2)
    /\ forall b, 0 <= b ->
         Z.testbit (Z.lxor (byte_at [65; 66; 67] 1) (2 ^ k)) b
         = xorb (Z.testbit (byte_at [65; 66; 67] 1) b) (b =? k).
Proof.
  apply (inject_bit_flips_one_bit Z next_number 2147483647
           [65; 66; 67] 1 3 0 1500000000);
    by_eval.
Defined.

Lemma inject_byte_below_255_witness :
  exists v, 0 <= v < 255
    /\ inject Z next_number 2147483647 [65; 66; 67] 1 3 7 2147483647
       = (<[Z.to_nat 1 := v]> [65; 66; 67], 1, (next_number 2147483647).2).
Proof.
  apply (inject_byte_below_255 Z next_number 2147483647
           [65; 66; 67] 1 3 7 2147483647);
    by_eval.
Defined.

Lemma inject_alnum_char_witness :
  exists c, c ∈ ALNUM_CHARS
    /\ inject Z next_number 2147483647 [65; 66; 67] 1 3 12 2147483647
       = (<[Z.to_nat 1 := c]> [65; 66; 67], 1, (next_number 2147483647).2).
Proof.
  apply (inject_alnum_char Z next_number 2147483647
           [65; 66; 67] 1 3 12 2147483647);
    by_eval.
Defined.

Lemma mutate_fill_rest_witness :
  mutate Z next_number 17 even_hit 1 [65; 66; 67; 68] 1 3 16
  = (fill_aa (Z.to_nat (3 - 1)) [65; 66; 67; 68] 1, (next_number 17).2)
  /\ forall j, 1 <= j < 3 -> j < Z.of_nat (length [65; 66; 67; 68]) ->
       byte_at (fill_aa (Z.to_nat (3 - 1)) [65; 66; 67; 68] 1) j = 170.
Proof.
  apply (mutate_fill_rest Z next_number 17 even_hit 0 [65; 66; 67; 68] 1 3 16);
    by_eval.
Defined.

Lemma mutation_stage_protects_witness :
  exists buf' g',
    mutation_stage Z next_number 17 even_hit true true 1 16
      (dct2000_header [65; 66] 7 [49] [80] [50] [51] 1 2 ++ [200; 201]) 16
    = Some (buf', g')
    /\ length buf'
       = length (dct2000_header [65; 66] 7 [49] [80] [50] [51] 1 2
                   ++ [200; 201])
    /\ forall j, 0 <= j -> j < 14 + 1 \/ 16 <= j ->
         byte_at buf' j
         = byte_at (dct2000_header [65; 66] 7 [49] [80] [50] [51] 1 2
                      ++ [200; 201]) j.
Proof.
  apply (mutation_stage_protects Z next_number 17 even_hit true true 1 16
           (dct2000_header [65; 66] 7 [49] [80] [50] [51] 1 2 ++ [200; 201])
           16 14);
    by_eval.
Defined.

End ErrMore.

(** ** Properties of the packet selection *)

Module SelectFacts.
Import Select.

(** An entry of the table lies at or below [m]. *)
Definition below (m : Z) (item : select_item) : Prop :=
  if inclusive item then second item <= m else first item <= m.

Lemma below_mono m m' item : m <= m' -> below m item -> below m' item.
Proof. unfold below. destruct (inclusive item); lia. Qed.

Lemma selected_below selectfrm m n :
  Forall (below m) selectfrm -> selected selectfrm n = true -> n <= m.
Proof.
  induction 1 as [|item rest Hitem _ IH]; cbn [selected]; [discriminate|].
  unfold below in Hitem. destruct (inclusive item).
  - destruct (Z.leb_spec (first item) n), (Z.leb_spec n (second item));
      cbn [andb]; intros; first [lia | auto].
  - destruct (Z.eqb_spec n (first item)); intros; first [lia | auto].
Qed.

Section Range.

Variable get_guint32 : list Z -> Z.
Hypothesis get_guint32_range : forall s, 0 <= get_guint32 s <= G_MAXUINT.

Lemma add_selection_below sel selectfrm m :
  Forall (below m) selectfrm -> m <= G_MAXUINT ->
  Forall (below (add_selection get_guint32 sel selectfrm m).2)
         (add_selection get_guint32 sel selectfrm m).1.2
  /\ (add_selection get_guint32 sel selectfrm m).2 <= G_MAXUINT.
Proof.
  intros Hall Hm. unfold add_selection.
  destruct (MAX_SELECTIONS <=? Z.of_nat (length selectfrm));
    [cbn [fst snd]; auto|].
  destruct (split_dash sel) as [[before next]|].
  - pose proof (get_guint32_range next) as Hn.
    destruct (Z.eqb_spec (get_guint32 next) 0); cbn [fst snd].
    + split; [|lia]. apply Forall_app. split.
      * eapply Forall_impl; [exact Hall|]. intros x. apply below_mono. lia.
      * repeat constructor. unfold below. cbn. lia.
    + destruct (Z.ltb_spec m (get_guint32 next)).
      * split; [|lia]. apply Forall_app. split.
        -- eapply Forall_impl; [exact Hall|]. intros x. apply below_mono. lia.
        -- repeat constructor. unfold below. cbn. lia.
      * split; [|lia]. apply Forall_app. split; [exact Hall|].
        repeat constructor. unfold below. cbn. lia.
  - pose proof (get_guint32_range sel) as Hn. cbn [fst snd].
    destruct (Z.ltb_spec m (get_guint32 sel)).
    + split; [|lia]. apply Forall_app. split.
      * eapply Forall_impl; [exact Hall|]. intros x. apply below_mono. lia.
      * repeat constructor. unfold below. cbn. lia.
    + split; [|lia]. apply Forall_app. split; [exact Hall|].
      repeat constructor. unfold below. cbn. lia.
Qed.

Lemma add_selections_below args selectfrm m :
  Forall (below m) selectfrm -> m <= G_MAXUINT ->
  Forall (below (add_selections get_guint32 args selectfrm m).2)
         (add_selections get_guint32 args selectfrm m).1
  /\ (add_selections get_guint32 args selectfrm m).2 <= G_MAXUINT.
Proof.
  revert selectfrm m. induction args as [|sel rest IH]; intros s m Hall Hm.
  { cbn. auto. }
  cbn [add_selections].
  pose proof (add_selection_below sel s m Hall Hm) as [Hall' Hm'].
  destruct (add_selection get_guint32 sel s m) as [[ok s'] m'].
  cbn [fst snd] in *. destruct ok; [apply IH; assumption|].
  cbn [fst snd]. auto.
Qed.

End Range.

(** Past the largest selected number nothing is kept when selected
    packets are the ones to keep. *)
Lemma read_loop_past cfg m recs read_count :
  keep_em cfg = true -> Forall (below m) (selectfrm cfg) ->
  0 <= read_count -> m <= read_count ->
  read_count + Z.of_nat (length recs) < G_MAXUINT ->
  read_loop cfg G_MAXUINT recs read_count (read_count + 1) = [].
Proof.
  intros Hkeep Hall. revert read_count.
  induction recs as [|rec rest IH]; intros rc Hrc Hm Hlen; [reflexivity|].
  cbn [read_loop length] in *. unfold G_MAXUINT in *.
  destruct (Z.leb_spec 4294967295 rc); [reflexivity|].
  rewrite !wrap32u_id by lia.
  replace (keep cfg (rc + 1) rec) with false.
  - cbn [app]. apply IH; lia.
  - unfold keep. rewrite Hkeep.
    destruct (selected (selectfrm cfg) (rc + 1)) eqn:Hsel.
    + apply (selected_below _ m) in Hsel; [lia|exact Hall].
    + cbn. rewrite andb_false_r. reflexivity.
Qed.

Lemma read_loop_stop cfg m recs read_count :
  keep_em cfg = true -> Forall (below m) (selectfrm cfg) ->
  0 <= read_count ->
  read_count + Z.of_nat (length recs) < G_MAXUINT ->
  read_loop cfg m recs read_count (read_count + 1)
  = read_loop cfg G_MAXUINT recs read_count (read_count + 1).
Proof.
  intros Hkeep Hall. revert read_count.
  induction recs as [|rec rest IH]; intros rc Hrc Hlen; [reflexivity|].
  destruct (Z.le_gt_cases m rc) as [Hpast|Hin].
  - rewrite (read_loop_past cfg m) by assumption.
    cbn [read_loop]. destruct (Z.leb_spec m rc); [reflexivity|lia].
  - cbn [read_loop length] in *.
    destruct (Z.leb_spec m rc); [lia|].
    unfold G_MAXUINT in *.
    destruct (Z.leb_spec 4294967295 rc); [lia|].
    rewrite !wrap32u_id by lia. f_equal. apply IH; lia.
Qed.

(** X22. With [-r], reading stops at the largest selected number; the records
    written are those that reading the whole file would have written: no
    selected record lies past the stop. *)
Theorem read_loop_early_stop get_guint32 cfg args recs :
  (forall s, 0 <= get_guint32 s <= G_MAXUINT) ->
  keep_em cfg = true ->
  selectfrm cfg = (selection_setup get_guint32 true args).1 ->
  Z.of_nat (length recs) < G_MAXUINT ->
  read_loop cfg (selection_setup get_guint32 true args).2 recs 0 1
  = read_loop cfg G_MAXUINT recs 0 1.
Proof.
  intros Hrange Hkeep Htable Hlen.
  apply (read_loop_stop cfg _ recs 0); [exact Hkeep| |lia|lia].
  rewrite Htable. unfold selection_setup.
  pose proof (add_selections_below get_guint32 Hrange args [] 0
                (Forall_nil_2 _) ltac:(unfold G_MAXUINT; lia)) as [Hall _].
  destruct (add_selections get_guint32 args [] 0) as [s m].
  exact Hall.
Qed.

Lemma add_selections_room get_guint32 args selectfrm m :
  Z.of_nat (length selectfrm) <= MAX_SELECTIONS ->
  add_selections get_guint32 args selectfrm m
  = add_selections get_guint32
      (take (Z.to_nat MAX_SELECTIONS - length selectfrm) args) selectfrm m
  /\ Z.of_nat (length (add_selections get_guint32 args selectfrm m).1)
     <= MAX_SELECTIONS.
Proof.
  revert selectfrm m. induction args as [|sel rest IH]; intros s m Hs.
  { rewrite take_nil. cbn. auto. }
  cbn [add_selections].
  destruct (Z.leb_spec MAX_SELECTIONS (Z.of_nat (length s))) as [Hfull|Hroom].
  - replace (Z.to_nat MAX_SELECTIONS - length s)%nat with 0%nat by lia.
    unfold add_selection.
    destruct (Z.leb_spec MAX_SELECTIONS (Z.of_nat (length s))); [|lia].
    cbn. auto.
  - replace (Z.to_nat MAX_SELECTIONS - length s)%nat
      with (S (Z.to_nat MAX_SELECTIONS - S (length s)))%nat by lia.
    cbn [take add_selections].
    assert (Hadd : (add_selection get_guint32 sel s m).1.1 = true
                   /\ length (add_selection get_guint32 sel s m).1.2
                      = S (length s)).
    { unfold add_selection.
      destruct (Z.leb_spec MAX_SELECTIONS (Z.of_nat (length s))); [lia|].
      destruct (split_dash sel) as [[before next]|];
        [destruct (get_guint32 next =? 0)|];
        cbn [fst snd]; rewrite length_app; cbn [length]; split; lia. }
    destruct (add_selection get_guint32 sel s m) as [[ok s'] m'].
    cbn [fst snd] in Hadd. destruct Hadd as [-> Hlen].
    rewrite <- Hlen. apply IH. lia.
Qed.

(** The table holds at most [MAX_SELECTIONS] selections: the first 512 of
    the command line are honoured, the later ones make no difference. *)
Theorem add_selections_capped get_guint32 args :
  add_selections get_guint32 args [] 0
  = add_selections get_guint32 (take (Z.to_nat MAX_SELECTIONS) args) [] 0
  /\ Z.of_nat (length (add_selections get_guint32 args [] 0).1)
     <= MAX_SELECTIONS.
Proof.
  pose proof (add_selections_room get_guint32 args [] 0
                ltac:(unfold MAX_SELECTIONS; cbn; lia)) as H.
  cbn [length] in H. rewrite Nat.sub_0_r in H. exact H.
Qed.

(** A reader of unsigned decimal numbers for the examples. *)
Definition read_decimal (s : list Z) : Z :=
  Z.min G_MAXUINT (fold_left (fun n c => 10 * n + Z.max 0 (Z.min 9 (c - 48))) s 0).

Lemma read_decimal_range s : 0 <= read_decimal s <= G_MAXUINT.
Proof.
  unfold read_decimal.
  assert (H : forall n, 0 <= n ->
            0 <= fold_left (fun n c => 10 * n + Z.max 0 (Z.min 9 (c - 48))) s n).
  { induction s as [|c s IH]; intros n Hn; cbn [fold_left]; [exact Hn|].
    apply IH. lia. }
  specialize (H 0 ltac:(lia)). unfold G_MAXUINT in *. lia.
Qed.

Definition sample_selection : sel_config :=
  mk_sel_config
    (selection_setup read_decimal true [ErrInj.codes "2-3"%string]).1
    true false 0 0.

Lemma read_loop_early_stop_witness :
  read_loop sample_selection
    (selection_setup read_decimal true [ErrInj.codes "2-3"%string]).2
    (replicate 5 (mk_sel_rec false 0)) 0 1
  = read_loop sample_selection G_MAXUINT (replicate 5 (mk_sel_rec false 0)) 0 1.
Proof.
  apply (read_loop_early_stop read_decimal sample_selection
           [ErrInj.codes "2-3"%string] (replicate 5 (mk_sel_rec false 0))
           read_decimal_range);
    reflexivity.
Defined.

End SelectFacts.

(** ** Properties of the removal of the VLAN tag *)

Module VlanFacts.
Import Chop Vlan.

(** X23. On a Linux cooked frame that carries a VLAN tag (0x8100 at offset 14),
    the four bytes of the tag are removed: the captured bytes become the
    14 bytes before the tag followed by the bytes after it, the length
    drops by 4, and the buffer keeps its size. *)
Theorem sll_remove_vlan_info_strips hdr t1 t2 rest tail :
  length hdr = 14%nat ->
  18 + Z.of_nat (length rest) < 2 ^ 31 ->
  exists fd',
    sll_remove_vlan_info (hdr ++ 129 :: 0 :: t1 :: t2 :: rest ++ tail)
      (18 + Z.of_nat (length rest))
    = Some (fd', 14 + Z.of_nat (length rest))
    /\ take (Z.to_nat (14 + Z.of_nat (length rest))) fd' = hdr ++ rest
    /\ length fd' = length (hdr ++ 129 :: 0 :: t1 :: t2 :: rest ++ tail).
Proof.
  intros Hhdr Hlen.
  set (fd := hdr ++ 129 :: 0 :: t1 :: t2 :: rest ++ tail).
  assert (Hfd : length fd = (18 + length rest + length tail)%nat).
  { unfold fd. rewrite length_app. cbn [length]. rewrite length_app. lia. }
  unfold sll_remove_vlan_info, LINUX_SLL_OFFSETP, VLAN_SIZE, ETHERTYPE_VLAN.
  assert (Htag : pntoh16 fd 14 = 33024).
  { unfold pntoh16, fd.
    rewrite !lookup_app_r by (rewrite Hhdr; lia). rewrite Hhdr.
    reflexivity. }
  rewrite Htag. cbn [Z.eqb Pos.eqb].
  rewrite wrap32s_id by lia.
  replace (18 + Z.of_nat (length rest) - (14 + 4))
    with (Z.of_nat (length rest)) by lia.
  unfold memmove.
  repeat match goal with
         | |- context [?a <=? ?b] =>
             destruct (Z.leb_spec a b); [|lia]
         end.
  cbn [andb mbind option_bind]. rewrite wrap32u_id by lia.
  eexists. split; [f_equal; f_equal; lia|].
  rewrite Nat2Z.id.
  assert (Htake : take (Z.to_nat 14) fd = hdr).
  { unfold fd. replace (Z.to_nat 14) with (length hdr) by lia.
    apply take_app_length. }
  assert (Hmid : take (length rest) (drop (Z.to_nat (14 + 4)) fd) = rest).
  { unfold fd. replace (Z.to_nat (14 + 4)) with (length hdr + 4)%nat by lia.
    rewrite drop_app_add'; [|reflexivity]. cbn [drop].
    apply take_app_length. }
  rewrite Htake, Hmid. split.
  - rewrite app_assoc.
    replace (Z.to_nat (14 + Z.of_nat (length rest)))
      with (length (hdr ++ rest)) by (rewrite length_app; lia).
    apply take_app_length.
  - rewrite !length_app, length_drop, Hfd. lia.
Qed.

Lemma sll_remove_vlan_info_strips_witness :
  exists fd',
    sll_remove_vlan_info
      (replicate 14 7 ++ 129 :: 0 :: 0 :: 5 :: [8; 0; 69] ++ [99])
      (18 + Z.of_nat (length [8; 0; 69]))
    = Some (fd', 14 + Z.of_nat (length [8; 0; 69]))
    /\ take (Z.to_nat (14 + Z.of_nat (length [8; 0; 69]))) fd'
       = replicate 14 7 ++ [8; 0; 69]
    /\ length fd'
       = length (replicate 14 7 ++ 129 :: 0 :: 0 :: 5 :: [8; 0; 69] ++ [99]).
Proof.
  apply (sll_remove_vlan_info_strips (replicate 14 7) 0 5 [8; 0; 69] [99]);
    reflexivity.
Defined.

(** X24. A tagged frame cut short of the end of the tag (fewer than 18
    captured bytes) makes [rest_len] negative: the move is given a size
    beyond the buffer, and nothing is returned. *)
Theorem sll_remove_vlan_info_short fd len :
  pntoh16 fd LINUX_SLL_OFFSETP = ETHERTYPE_VLAN ->
  0 <= len < LINUX_SLL_OFFSETP + VLAN_SIZE ->
  sll_remove_vlan_info fd len = None.
Proof.
  unfold sll_remove_vlan_info, LINUX_SLL_OFFSETP, VLAN_SIZE.
  intros -> Hlen. rewrite Z.eqb_refl.
  rewrite wrap32s_id by lia. unfold memmove.
  destruct (Z.leb_spec 0 (len - (14 + 4))); [lia|].
  rewrite andb_false_r. reflexivity.
Qed.

Lemma sll_remove_vlan_info_short_witness :
  sll_remove_vlan_info (replicate 14 7 ++ [129; 0; 0; 5]) 16 = None.
Proof.
  apply sll_remove_vlan_info_short; [reflexivity|].
  unfold LINUX_SLL_OFFSETP, VLAN_SIZE. lia.
Defined.

End VlanFacts.

(** ** Properties of the file names *)

Module FilesetFacts.
Import Fileset.

Lemma strrchr_none s c : strrchr s c = None -> Forall (fun x => x <> c) s.
Proof.
  induction s as [|x s IH]; cbn [strrchr]; intros H; [constructor|].
  destruct (strrchr s c); [discriminate|].
  destruct (Z.eqb_spec x c); [discriminate|]. constructor; auto.
Qed.

Lemma strrchr_some s c n :
  strrchr s c = Some n ->
  s !! n = Some c /\ Forall (fun x => x <> c) (drop (S n) s).
Proof.
  revert n. induction s as [|x s IH]; cbn [strrchr]; intros n H;
    [discriminate|].
  destruct (strrchr s c) as [m|] eqn:Hm.
  - injection H as <-. destruct (IH m eq_refl) as [Hat Hafter].
    split; [exact Hat|exact Hafter].
  - destruct (Z.eqb_spec x c) as [->|]; [|discriminate].
    injection H as <-. split; [reflexivity|].
    cbn [drop]. rewrite drop_0. apply strrchr_none. exact Hm.
Qed.

Lemma lookup_after (s : list Z) n m x (P : Z -> Prop) :
  Forall P (drop n s) -> s !! m = Some x -> (n <= m)%nat -> P x.
Proof.
  intros Hall Hm Hle.
  apply (proj1 (Forall_lookup _ _) Hall (m - n)%nat x).
  rewrite lookup_drop. replace (n + (m - n))%nat with m by lia. exact Hm.
Qed.

(** X25. The name is cut at the last dot of its last path component: prefix
    and suffix together give the name back, and the suffix is a dot
    followed by characters that are neither dots nor separators.  There is
    no suffix exactly when every dot is followed, somewhere, by a
    separator. *)
Theorem fileset_extract_prefix_suffix_split sep fname :
  sep <> 46 ->
  (fileset_extract_prefix_suffix sep fname).1
    ++ default [] (fileset_extract_prefix_suffix sep fname).2 = fname
  /\ match (fileset_extract_prefix_suffix sep fname).2 with
     | Some fsuffix =>
         exists ext, fsuffix = 46 :: ext
                     /\ Forall (fun c => c <> 46 /\ c <> sep) ext
     | None =>
         forall n, fname !! n = Some 46 -> sep ∈ drop n fname
     end.
Proof.
  intros Hsep. unfold fileset_extract_prefix_suffix.
  destruct (strrchr fname 46) as [pfx|] eqn:Hdot.
  - destruct (strrchr_some _ _ _ Hdot) as [Hat Hafter].
    destruct (strrchr fname sep) as [sp|] eqn:Hsp.
    + destruct (strrchr_some _ _ _ Hsp) as [Hsat Hsafter].
      destruct (Nat.ltb_spec sp pfx) as [Hlt|Hge]; cbn [fst snd default].
      * split; [apply take_drop|].
        exists (drop (S pfx) fname). split; [apply drop_S; exact Hat|].
        apply Forall_and. split; [exact Hafter|].
        replace (S pfx) with (S sp + (S pfx - S sp))%nat by lia.
        rewrite <- drop_drop. apply Forall_drop. exact Hsafter.
      * split; [apply app_nil_r|]. intros n Hn.
        assert (n <= pfx)%nat.
        { destruct (Nat.le_gt_cases n pfx) as [|Hgt]; [assumption|].
          exfalso.
          apply (lookup_after fname (S pfx) n 46 _ Hafter Hn); [lia|].
          reflexivity. }
        apply (list_elem_of_lookup_2 _ (sp - n)%nat).
        rewrite lookup_drop. replace (n + (sp - n))%nat with sp by lia.
        exact Hsat.
    + cbn [fst snd default]. split; [apply take_drop|].
      exists (drop (S pfx) fname). split; [apply drop_S; exact Hat|].
      apply Forall_and. split; [exact Hafter|].
      apply Forall_drop. apply strrchr_none. exact Hsp.
  - cbn [fst snd default]. split; [apply app_nil_r|]. intros n Hn.
    exfalso. apply strrchr_none in Hdot.
    apply (proj1 (Forall_lookup _ _) Hdot n 46 Hn). reflexivity.
Qed.

Lemma fileset_extract_prefix_suffix_split_witness :
  (fileset_extract_prefix_suffix 47 (ErrInj.codes "a.b/out.pcap"%string)).1
    ++ default []
         (fileset_extract_prefix_suffix 47
            (ErrInj.codes "a.b/out.pcap"%string)).2
  = ErrInj.codes "a.b/out.pcap"%string
  /\ match (fileset_extract_prefix_suffix 47
              (ErrInj.codes "a.b/out.pcap"%string)).2 with
     | Some fsuffix =>
         exists ext, fsuffix = 46 :: ext
                     /\ Forall (fun c => c <> 46 /\ c <> 47) ext
     | None =>
         forall n, ErrInj.codes "a.b/out.pcap"%string !! n = Some 46 ->
                   47 ∈ drop n (ErrInj.codes "a.b/out.pcap"%string)
     end.
Proof.
  apply (fileset_extract_prefix_suffix_split 47
           (ErrInj.codes "a.b/out.pcap"%string)).
  lia.
Defined.

End FilesetFacts.

(** ** Properties of the file rotation *)

Module SplitFacts.
Import Nstime NstimeFacts TimeAdj Split.

Definition block_at (secs_per_block : Z) (block_start : nstime_t) (k : Z)
  : nstime_t :=
  mk_nstime (secs block_start + k * secs_per_block) (nsecs block_start).

Lemma next_block_steps spb ts k :
  forall rounds block_start block_cnt,
    (forall j, (j < k)%nat ->
       block_over spb (block_at spb block_start (Z.of_nat j)) ts = true) ->
    block_over spb (block_at spb block_start (Z.of_nat k)) ts = false ->
    (k < rounds)%nat ->
    - 2 ^ 31 <= block_cnt -> block_cnt + Z.of_nat k < 2 ^ 31 ->
    next_block rounds spb block_start block_cnt ts
    = Some (block_at spb block_start (Z.of_nat k), block_cnt + Z.of_nat k).
Proof.
  induction k as [|k IH]; intros rounds bs cnt Hover Hstop Hr Hlo Hhi.
  - destruct rounds as [|rounds]; [lia|]. cbn [next_block].
    assert (Hbs : block_at spb bs (Z.of_nat 0) = bs).
    { unfold block_at. destruct bs. cbn. f_equal. lia. }
    rewrite Hbs in Hstop. rewrite Hstop, Hbs. do 2 f_equal. lia.
  - destruct rounds as [|rounds]; [lia|]. cbn [next_block].
    assert (Hbs : block_at spb bs (Z.of_nat 0) = bs).
    { unfold block_at. destruct bs. cbn. f_equal. lia. }
    pose proof (Hover 0%nat ltac:(lia)) as H0. rewrite Hbs in H0.
    rewrite H0. rewrite wrap32s_id by lia.
    assert (Hshift : forall j,
              block_at spb (mk_nstime (secs bs + spb) (nsecs bs)) (Z.of_nat j)
              = block_at spb bs (Z.of_nat (S j))).
    { intros j. unfold block_at. cbn [secs nsecs]. f_equal. lia. }
    rewrite IH.
    + rewrite Hshift. do 2 f_equal. lia.
    + intros j Hj. rewrite Hshift. apply Hover. lia.
    + rewrite Hshift. exact Hstop.
    + lia.
    + lia.
    + lia.
Qed.

(** Within [2^32] seconds after the start of the block, the test of the
    loop says whether the record lies a whole block or more after it. *)
Lemma block_over_later spb block_start ts :
  0 < spb < 2 ^ 32 ->
  normalized block_start -> normalized ts ->
  0 <= secs ts - secs block_start < 2 ^ 32 ->
  block_over spb block_start ts
  = (spb * ONE_BILLION <=? ns_of ts - ns_of block_start).
Proof.
  unfold normalized, block_over, ns_of, ONE_BILLION.
  intros Hspb Hb Ht Hd. rewrite wrap32u_id by lia.
  cmp_cases; first [ reflexivity | exfalso; lia ].
Qed.

(** X26. Splitting by time, for a record at or after the start of the current
    block: the loop ends, the block it leaves contains the record (the
    record is at or after its start and less than [secs_per_block] seconds
    after it), and one file was opened for each block passed. *)
Theorem next_block_contains rounds spb block_start block_cnt ts :
  0 < spb < 2 ^ 32 ->
  normalized block_start -> normalized ts ->
  ns_of block_start <= ns_of ts ->
  secs ts - secs block_start < 2 ^ 32 ->
  (secs ts - secs block_start) / spb + 1 < Z.of_nat rounds ->
  0 <= block_cnt -> block_cnt + (secs ts - secs block_start) / spb + 1 < 2 ^ 31 ->
  exists k,
    next_block rounds spb block_start block_cnt ts
    = Some (block_at spb block_start k, block_cnt + k)
    /\ 0 <= k
    /\ ns_of (block_at spb block_start k) <= ns_of ts
       < ns_of (block_at spb block_start k) + spb * ONE_BILLION.
Proof.
  intros Hspb Hb Ht Hle Hd Hrounds Hcnt Hcnt'.
  set (D := ns_of ts - ns_of block_start).
  set (S := spb * ONE_BILLION).
  assert (HS : 0 < S) by (unfold S, ONE_BILLION; lia).
  assert (HD : 0 <= D) by (unfold D; lia).
  pose proof (Z.div_mod D S ltac:(lia)) as Hdm.
  pose proof (Z.mod_pos_bound D S HS) as Hmod.
  assert (Hk0 : 0 <= D / S) by (apply Z.div_pos; lia).
  assert (Hsecs : 0 <= secs ts - secs block_start).
  { unfold normalized, ns_of, ONE_BILLION in *. lia. }
  assert (Hkle : D / S <= (secs ts - secs block_start) / spb).
  { apply Z.div_le_lower_bound; [lia|].
    assert (S * (D / S) <= D) by lia.
    assert (D < (secs ts - secs block_start + 1) * ONE_BILLION).
    { unfold D, normalized, ns_of, ONE_BILLION in *. lia. }
    unfold S in *. unfold ONE_BILLION in *. nia. }
  assert (Hns : forall j, ns_of (block_at spb block_start j)
                          = ns_of block_start + j * S).
  { intros j. unfold block_at, ns_of, S. cbn [secs nsecs]. ring. }
  assert (Hover : forall j, 0 <= j <= D / S ->
            block_over spb (block_at spb block_start j) ts
            = (S <=? D - j * S)).
  { intros j Hj.
    rewrite block_over_later; [|lia|exact Hb|exact Ht|].
    - rewrite Hns. fold S. f_equal. unfold D. ring.
    - unfold block_at. cbn [secs].
      assert (j * S <= D) by nia.
      assert (j * spb <= secs ts - secs block_start).
      { unfold D, S, normalized, ns_of, ONE_BILLION in *. nia. }
      nia. }
  exists (D / S). split; [|split; [exact Hk0|]].
  - rewrite <- (Z2Nat.id (D / S)) by lia.
    apply next_block_steps.
    + intros j Hj. rewrite Hover by lia.
      apply Z.leb_le. nia.
    + rewrite Z2Nat.id by lia. rewrite Hover by lia.
      apply Z.leb_gt. lia.
    + lia.
    + lia.
    + lia.
  - rewrite Hns. fold S. unfold D in *. lia.
Qed.

Lemma next_block_contains_witness :
  exists k,
    next_block 5 10 (mk_nstime 100 500) 1 (mk_nstime 125 400)
    = Some (block_at 10 (mk_nstime 100 500) k, 1 + k)
    /\ 0 <= k
    /\ ns_of (block_at 10 (mk_nstime 100 500) k) <= ns_of (mk_nstime 125 400)
       < ns_of (block_at 10 (mk_nstime 100 500) k) + 10 * ONE_BILLION.
Proof.
  apply (next_block_contains 5 10 (mk_nstime 100 500) 1 (mk_nstime 125 400));
    first [ reflexivity
          | unfold normalized, ns_of, ONE_BILLION; cbn; lia
          | cbn; lia ].
Defined.

(** The test of the loop for a record stamped before the block: the cast
    to [guint32] turns the negative difference into a large one. *)
Lemma block_over_earlier spb block_start ts :
  - 2 ^ 32 <= secs ts - secs block_start < 0 ->
  block_over spb block_start ts
  = (spb <? 2 ^ 32 + (secs ts - secs block_start))
    || ((2 ^ 32 + (secs ts - secs block_start) =? spb)
        && (nsecs block_start <=? nsecs ts)).
Proof.
  intros H. unfold block_over. rewrite wrap32u_neg by lia.
  rewrite (Z.add_comm _ (2 ^ 32)). reflexivity.
Qed.

(** X27. Splitting by time, for a record stamped [d] seconds before the start
    of the current block: the cast to [guint32] makes the loop run on,
    opening a file each round, until the block start has moved ahead by
    [2^32 - d] seconds, to within one block. *)
Theorem next_block_earlier rounds spb block_start block_cnt ts d :
  0 < spb ->
  secs ts = secs block_start - d -> 0 < d -> d + spb < 2 ^ 32 ->
  2 ^ 32 / spb < Z.of_nat rounds ->
  0 <= block_cnt -> block_cnt + 2 ^ 32 / spb < 2 ^ 31 ->
  exists k,
    next_block rounds spb block_start block_cnt ts
    = Some (block_at spb block_start k, block_cnt + k)
    /\ 2 ^ 32 - d - spb <= k * spb <= 2 ^ 32 - d.
Proof.
  intros Hspb Hts Hd Hsum Hrounds Hcnt Hcnt'.
  set (W := 2 ^ 32 - d).
  assert (HW : spb < W < 2 ^ 32) by (unfold W; lia).
  pose proof (Z.div_mod W spb ltac:(lia)) as Hdm.
  pose proof (Z.mod_pos_bound W spb Hspb) as Hmod.
  assert (Hq : 1 <= W / spb) by (apply Z.div_le_lower_bound; lia).
  assert (Hq' : W / spb <= 2 ^ 32 / spb) by (apply Z.div_le_mono; lia).
  assert (Hover : forall j, 0 <= j -> j * spb <= W ->
            block_over spb (block_at spb block_start j) ts
            = (spb <? W - j * spb)
              || ((W - j * spb =? spb)
                  && (nsecs block_start <=? nsecs ts))).
  { intros j Hj Hle. rewrite block_over_earlier.
    - unfold block_at. cbn [secs nsecs]. rewrite Hts.
      replace (2 ^ 32 + (secs block_start - d
                         - (secs block_start + j * spb)))
        with (W - j * spb) by (unfold W; ring).
      reflexivity.
    - unfold block_at. cbn [secs]. rewrite Hts. unfold W in *. nia. }
  assert (Hfirst : forall k j, k * spb + spb < W -> (j < Z.to_nat k)%nat ->
            0 <= k ->
            block_over spb (block_at spb block_start (Z.of_nat j)) ts = true).
  { intros k j Hk Hj Hk0. rewrite Hover by nia.
    destruct (Z.ltb_spec spb (W - Z.of_nat j * spb)); [reflexivity|nia]. }
  destruct (Z.eq_dec (W mod spb) 0) as [Hr0|Hr].
  - (* [W] is a multiple of the block length *)
    destruct (Z.leb_spec (nsecs block_start) (nsecs ts)) as [Hns|Hns].
    + exists (W / spb). split; [|nia].
      rewrite <- (Z2Nat.id (W / spb)) by lia.
      apply next_block_steps; try lia.
      * intros j Hj. rewrite Hover by nia.
        destruct (Z.ltb_spec spb (W - Z.of_nat j * spb)); [reflexivity|].
        destruct (Z.eqb_spec (W - Z.of_nat j * spb) spb); [|nia].
        destruct (Z.leb_spec (nsecs block_start) (nsecs ts)); [reflexivity|lia].
      * rewrite Z2Nat.id by lia. rewrite Hover by nia.
        destruct (Z.ltb_spec spb (W - W / spb * spb)); [nia|].
        destruct (Z.eqb_spec (W - W / spb * spb) spb); [nia|reflexivity].
    + exists (W / spb - 1). split; [|nia].
      rewrite <- (Z2Nat.id (W / spb - 1)) by lia.
      apply next_block_steps; try lia.
      * intros j Hj. rewrite Hover by nia.
        destruct (Z.ltb_spec spb (W - Z.of_nat j * spb)); [reflexivity|nia].
      * rewrite Z2Nat.id by lia. rewrite Hover by nia.
        destruct (Z.ltb_spec spb (W - (W / spb - 1) * spb)); [nia|].
        destruct (Z.leb_spec (nsecs block_start) (nsecs ts)); [lia|].
        apply andb_false_r.
  - exists (W / spb). split; [|nia].
    rewrite <- (Z2Nat.id (W / spb)) by lia.
    apply next_block_steps; try lia.
    + intros j Hj. rewrite Hover by nia.
      destruct (Z.ltb_spec spb (W - Z.of_nat j * spb)); [reflexivity|nia].
    + rewrite Z2Nat.id by lia. rewrite Hover by nia.
      destruct (Z.ltb_spec spb (W - W / spb * spb)); [nia|].
      destruct (Z.eqb_spec (W - W / spb * spb) spb); [nia|reflexivity].
Qed.

Lemma next_block_earlier_witness :
  exists k,
    next_block 4 2000000000 (mk_nstime 100 0) 1 (mk_nstime 99 0)
    = Some (block_at 2000000000 (mk_nstime 100 0) k, 1 + k)
    /\ 2 ^ 32 - 1 - 2000000000 <= k * 2000000000 <= 2 ^ 32 - 1.
Proof.
  apply (next_block_earlier 4 2000000000 (mk_nstime 100 0) 1
           (mk_nstime 99 0) 1);
    first [ reflexivity | cbn; lia ].
Defined.

Lemma split_run_written spc n :
  0 < spc < 2 ^ 32 ->
  forall w c, 0 <= w -> w + Z.of_nat n < 2 ^ 31 ->
    c - 1 = (if w =? 0 then 0 else (w - 1) / spc) ->
    split_run spc w c (replicate n true)
    = (fun i => (w + Z.of_nat i) / spc) <$> seq 0 n.
Proof.
  intros Hspc. induction n as [|n IH]; intros w c Hw Hn Hc; [reflexivity|].
  cbn [replicate split_run seq fmap list_fmap].
  assert (Hc1 : w <> 0 -> c - 1 = (w - 1) / spc).
  { intros Hw0. rewrite Hc. destruct (Z.eqb_spec w 0); [lia|reflexivity]. }
  assert (Hc2 : w = 0 -> c = 1).
  { intros ->. cbn in Hc. lia. }
  assert (Hdiv : w <> 0 -> 0 <= (w - 1) / spc <= w - 1).
  { intros Hw0. split; [apply Z.div_pos; lia|].
    apply Z.div_le_upper_bound; nia. }
  assert (Hnext : (if count_over spc w then wrap32s (c + 1) else c) - 1
                  = w / spc).
  { unfold count_over. rewrite wrap32u_id by lia.
    destruct (Z.eqb_spec spc 0); [lia|]. cbn [negb andb].
    destruct (Z.eq_dec w 0) as [->|Hw0].
    - cbn. rewrite Z.div_0_l by lia. lia.
    - destruct (Z.ltb_spec 0 w); [|lia]. cbn [andb].
      pose proof (Z.div_mod w spc ltac:(lia)).
      pose proof (Z.mod_pos_bound w spc ltac:(lia)).
      pose proof (Z.div_mod (w - 1) spc ltac:(lia)).
      pose proof (Z.mod_pos_bound (w - 1) spc ltac:(lia)).
      specialize (Hc1 Hw0). specialize (Hdiv Hw0).
      destruct (Z.eqb_spec (w mod spc) 0) as [Hm|Hm].
      + rewrite wrap32s_id by lia. nia.
      + nia. }
  assert (Hc0 : 0 <= w / spc <= w).
  { split; [apply Z.div_pos; lia|]. apply Z.div_le_upper_bound; nia. }
  rewrite Hnext. rewrite wrap32s_id by lia.
  f_equal; [f_equal; lia|].
  rewrite IH.
  - rewrite <- fmap_S_seq, <- list_fmap_compose.
    apply list_fmap_ext. intros i x _. cbn. f_equal. lia.
  - lia.
  - lia.
  - destruct (Z.eqb_spec (w + 1) 0); [lia|].
    replace (w + 1 - 1) with w by lia. lia.
Qed.

(** X28. Splitting by count when every record read is written: the record
    that is the [i]-th to be written (from 0) goes to the file with the
    index [i / split_packet_count], so every file but the last holds
    exactly [split_packet_count] records. *)
Theorem split_run_all_written spc n :
  0 < spc < 2 ^ 32 -> Z.of_nat n < 2 ^ 31 ->
  split_run spc 0 1 (replicate n true)
  = (fun i => Z.of_nat i / spc) <$> seq 0 n.
Proof.
  intros Hspc Hn.
  rewrite (split_run_written spc n Hspc 0 1) by (cbn; lia).
  apply list_fmap_ext. intros i x _. f_equal.
Qed.

Lemma split_run_all_written_witness :
  split_run 2 0 1 (replicate 5 true)
  = (fun i => Z.of_nat i / 2) <$> seq 0 5.
Proof.
  apply (split_run_all_written 2 5); lia.
Defined.

(** Splitting by count with records that are read but not written: when
    a file has just been filled, every such record opens a file that stays
    empty, and the next written record opens one more and goes there. *)
Theorem split_run_skipped_open_files spc w c k rest :
  0 < spc -> 0 < w < 2 ^ 31 - 1 -> w mod spc = 0 ->
  - 2 ^ 31 <= c -> c + Z.of_nat k + 1 < 2 ^ 31 ->
  split_run spc w c (replicate k false ++ true :: rest)
  = (c + Z.of_nat k) :: split_run spc (w + 1) (c + Z.of_nat k + 1) rest.
Proof.
  intros Hspc Hw Hmod. revert c.
  assert (Hover : count_over spc w = true).
  { unfold count_over. rewrite wrap32u_id by lia. rewrite Hmod.
    destruct (Z.eqb_spec spc 0); [lia|].
    destruct (Z.ltb_spec 0 w); [reflexivity|lia]. }
  induction k as [|k IH]; intros c Hc Hck.
  - cbn [replicate app split_run]. rewrite Hover.
    rewrite !wrap32s_id by lia. f_equal; [lia|]. f_equal. lia.
  - cbn [replicate app split_run]. rewrite Hover.
    rewrite wrap32s_id by lia. rewrite IH by lia.
    f_equal; [lia|]. f_equal. lia.
Qed.

Lemma split_run_skipped_open_files_witness :
  split_run 2 2 1 (replicate 3 false ++ true :: [true])
  = (1 + Z.of_nat 3) :: split_run 2 (2 + 1) (1 + Z.of_nat 3 + 1) [true].
Proof.
  apply (split_run_skipped_open_files 2 2 1 3 [true]);
    first [ reflexivity | lia ].
Defined.

End SplitFacts.

(** ** Properties of the time values of the options *)

Module TimeOptFacts.
Import Nstime NstimeFacts TimeAdj TimeOpt.

(** The number a text of decimal digits denotes. *)
Definition decimal (ds : list Z) : Z :=
  fold_left (fun acc c => 10 * acc + (c - 48)) ds 0.

Definition all_digits (ds : list Z) : Prop :=
  Forall (fun c => isdigit c = true) ds.

Lemma digits_prefix s : forall acc,
  0 <= acc ->
  exists pre,
    s = pre ++ (digits s acc).2
    /\ all_digits pre
    /\ acc * 10 ^ Z.of_nat (length pre) <= (digits s acc).1
       < (acc + 1) * 10 ^ Z.of_nat (length pre).
Proof.
  induction s as [|c s IH]; intros acc Hacc.
  { exists []. cbn. repeat split; [constructor|lia|lia]. }
  cbn [digits]. destruct (isdigit c) eqn:Hc.
  - assert (0 <= c - 48 <= 9).
    { unfold isdigit in Hc. apply andb_true_iff in Hc as [H1 H2].
      apply Z.leb_le in H1, H2. lia. }
    destruct (IH (10 * acc + (c - 48)) ltac:(lia)) as (pre & Hs & Hd & Hv).
    exists (c :: pre). split; [cbn; f_equal; exact Hs|].
    split; [constructor; assumption|].
    cbn [length]. rewrite Nat2Z.inj_succ, Z.pow_succ_r by lia.
    assert (0 < 10 ^ Z.of_nat (length pre)) by (apply Z.pow_pos_nonneg; lia).
    nia.
  - exists []. cbn. repeat split; [constructor|lia|lia].
Qed.

Lemma skip_spaces_prefix s :
  exists pre, s = pre ++ skip_spaces s
              /\ Forall (fun c => isspace c = true) pre.
Proof.
  induction s as [|c s (pre & Hs & Hp)].
  { exists []. split; [reflexivity|constructor]. }
  cbn [skip_spaces]. destruct (isspace c) eqn:Hc.
  - exists (c :: pre). split; [cbn; f_equal; exact Hs|].
    constructor; assumption.
  - exists []. split; [reflexivity|constructor].
Qed.

(** What [strtol] passes over. *)
Definition passed (c : Z) : Prop :=
  isspace c = true \/ c = 45 \/ c = 43 \/ isdigit c = true.

Lemma strtol_consumed LONG_MAX s :
  0 <= LONG_MAX ->
  0 <= (strtol LONG_MAX s).2 <= Z.of_nat (length s)
  /\ Forall passed (take (Z.to_nat (strtol LONG_MAX s).2) s)
  /\ (0 <= (strtol LONG_MAX s).1 ->
      (strtol LONG_MAX s).1 < 10 ^ (strtol LONG_MAX s).2).
Proof.
  intros Hlong. unfold strtol.
  destruct (skip_spaces_prefix s) as (sp & Hs & Hsp).
  set (body := skip_spaces s) in *.
  assert (Hsign : exists sg negative body',
            body = sg ++ body'
            /\ Forall passed sg
            /\ match body with
               | 45 :: rest => (true, rest)
               | 43 :: rest => (false, rest)
               | _ => (false, body)
               end = (negative, body')).
  { destruct body as [|c rest].
    - exists [], false, []. repeat split; constructor.
    - destruct (Z.eq_dec c 45) as [->|H45].
      + exists [45], true, rest.
        split; [reflexivity|]. split; [|reflexivity].
        constructor; [right; left; reflexivity|constructor].
      + destruct (Z.eq_dec c 43) as [->|H43].
        * exists [43], false, rest.
          split; [reflexivity|]. split; [|reflexivity].
          constructor; [right; right; left; reflexivity|constructor].
        * exists [], false, (c :: rest). split; [reflexivity|].
          split; [constructor|].
          destruct c as [|p|p]; try reflexivity.
          do 6 (destruct p as [p|p|]; try reflexivity; try lia). }
  destruct Hsign as (sg & negative & body' & Hbody & Hsg & ->).
  destruct (digits_prefix body' 0 ltac:(lia)) as (ds & Hds & Hdig & Hv).
  destruct (digits body' 0) as [v rest] eqn:Hd. cbn [fst snd] in *.
  rewrite Z.mul_0_l, Z.add_0_l, Z.mul_1_l in Hv.
  destruct (Nat.eqb_spec (length rest) (length body')) as [Hno|Hsome].
  { cbn [fst snd]. split; [lia|]. split; [constructor|]. cbn. lia. }
  cbn [fst snd].
  assert (Hlen : length s
                 = (length sp + length sg + length ds + length rest)%nat).
  { rewrite Hs, Hbody, Hds. rewrite !length_app. lia. }
  assert (Hds0 : (0 < length ds)%nat).
  { rewrite Hds, length_app in Hsome. lia. }
  split; [lia|]. split.
  - replace (Z.to_nat (Z.of_nat (length s - length rest)))
      with (length (sp ++ sg ++ ds)) by (rewrite !length_app; lia).
    replace s with ((sp ++ sg ++ ds) ++ rest)
      by (rewrite Hs, Hbody, Hds, <- !app_assoc; reflexivity).
    rewrite take_app_length. rewrite !Forall_app. repeat split.
    + eapply Forall_impl; [exact Hsp|]. intros c Hc. left. exact Hc.
    + exact Hsg.
    + eapply Forall_impl; [exact Hdig|]. intros c Hc.
      right. right. right. exact Hc.
  - intros Hnn.
    assert (10 ^ Z.of_nat (length ds)
            <= 10 ^ Z.of_nat (length s - length rest)).
    { apply Z.pow_le_mono_r; lia. }
    assert (0 < 10 ^ Z.of_nat (length ds)) by (apply Z.pow_pos_nonneg; lia).
    unfold LONG_MIN in *. destruct negative; lia.
Qed.

Lemma scale_pow n val : scale n val = val * 10 ^ Z.of_nat n.
Proof.
  revert val. induction n as [|n IH]; intros val; cbn [scale].
  - cbn. lia.
  - rewrite IH, Nat2Z.inj_succ, Z.pow_succ_r by lia. ring.
Qed.

Lemma scale_fraction val len :
  0 <= val < ONE_BILLION -> 0 <= len -> val < 10 ^ len ->
  0 <= scale (Z.to_nat (9 - len)) val < ONE_BILLION.
Proof.
  intros Hval Hlen Hpow. rewrite scale_pow.
  destruct (Z.le_gt_cases 9 len) as [H9|H9].
  - replace (Z.to_nat (9 - len)) with 0%nat by lia. cbn. lia.
  - rewrite Z2Nat.id by lia.
    assert (0 < 10 ^ (9 - len)) by (apply Z.pow_pos_nonneg; lia).
    assert (10 ^ len * 10 ^ (9 - len) = ONE_BILLION).
    { rewrite <- Z.pow_add_r by lia.
      replace (len + (9 - len)) with 9 by lia. reflexivity. }
    nia.
Qed.

Lemma time_whole_nonneg LONG_MAX s val used :
  time_whole LONG_MAX s = Some (val, used) -> 0 <= val.
Proof.
  unfold time_whole.
  assert (Hgen : (let '(val, used) := strtol LONG_MAX s in
                  if (used =? 0) || (val =? LONG_MIN LONG_MAX)
                     || (val =? LONG_MAX)
                  then None
                  else if val <? 0 then None else Some (val, used))
                 = Some (val, used) -> 0 <= val).
  { destruct (strtol LONG_MAX s) as [v u].
    destruct ((u =? 0) || (v =? LONG_MIN LONG_MAX) || (v =? LONG_MAX));
      [discriminate|].
    destruct (Z.ltb_spec v 0); [discriminate|].
    intros H'. injection H' as <- _. lia. }
  destruct s as [|c rest]; [exact Hgen|].
  destruct (Z.eq_dec c 46) as [->|Hc].
  - intros H'. injection H' as <- _. lia.
  - destruct c as [|p|p]; try exact Hgen.
    do 6 (destruct p as [p|p|]; try exact Hgen; try lia).
Qed.

Lemma time_fraction_valid LONG_MAX frac t :
  0 <= LONG_MAX -> normalized t ->
  (time_fraction LONG_MAX frac t).1 = true ->
  secs (time_fraction LONG_MAX frac t).2 = secs t
  /\ normalized (time_fraction LONG_MAX frac t).2.
Proof.
  intros Hlong Ht. unfold time_fraction.
  destruct frac as [|dot after]; [cbn; auto|].
  set (r := if 9 <? (strtol LONG_MAX after).2
            then strtol LONG_MAX (<[9%nat := 116]> after)
            else strtol LONG_MAX after).
  assert (Hr : (let '(val, len) := strtol LONG_MAX after in
                if 9 <? len then strtol LONG_MAX (<[9%nat := 116]> after)
                else (val, len)) = r).
  { unfold r. destruct (strtol LONG_MAX after) as [v0 l0]. reflexivity. }
  assert (Hspec : 0 <= r.2 /\ (0 <= r.1 -> r.1 < 10 ^ r.2)).
  { unfold r. destruct (9 <? (strtol LONG_MAX after).2).
    - pose proof (strtol_consumed LONG_MAX (<[9%nat := 116]> after) Hlong)
        as (H1 & _ & H3). split; [lia|exact H3].
    - pose proof (strtol_consumed LONG_MAX after Hlong) as (H1 & _ & H3).
      split; [lia|exact H3]. }
  destruct Hspec as [Hlen Hval].
  destruct (strtol LONG_MAX after) as [v0 l0]. cbn beta iota in Hr |- *.
  rewrite Hr. destruct r as [v l]. cbn [fst snd] in *.
  destruct (negb (dot =? 46)); [discriminate|]. cbn [orb].
  destruct (Z.ltb_spec v 0); [discriminate|]. cbn [orb].
  destruct (Z.leb_spec ONE_BILLION v); [discriminate|]. cbn [orb].
  destruct ((v =? LONG_MIN LONG_MAX) || (v =? LONG_MAX)); [discriminate|].
  cbn [fst snd secs]. intros _. split; [reflexivity|].
  pose proof (scale_fraction v l ltac:(lia) Hlen (Hval ltac:(lia))) as Hs.
  unfold normalized. cbn [nsecs]. unfold ONE_BILLION in *.
  rewrite wrap32s_id by lia. exact Hs.
Qed.

Lemma time_value_valid LONG_MAX s old :
  0 <= LONG_MAX ->
  normalized old ->
  (time_value LONG_MAX s old).1 = true ->
  0 <= secs (time_value LONG_MAX s old).2
  /\ normalized (time_value LONG_MAX s old).2.
Proof.
  intros Hlong Hold. unfold time_value.
  destruct (time_whole LONG_MAX s) as [[val used]|] eqn:Hw; [|discriminate].
  apply time_whole_nonneg in Hw. intros Hok.
  destruct (time_fraction_valid LONG_MAX (drop (Z.to_nat used) s)
              (mk_nstime val (nsecs old)) Hlong Hold Hok) as [Hs Hn].
  rewrite Hs. cbn [secs]. auto.
Qed.

(** X29. A value that an option function accepts is a time the adjustments
    can work with: seconds that are not negative and nanoseconds below one
    billion.  This holds for [-t], [-S] and [-w] alike, whatever the text
    was. *)
Theorem time_options_valid LONG_MAX optarg adj :
  0 <= LONG_MAX -> normalized (tv adj) ->
  ((set_time_adjustment LONG_MAX optarg adj).1 = true ->
   adj_valid (set_time_adjustment LONG_MAX optarg adj).2)
  /\ ((set_strict_time_adj LONG_MAX optarg adj).1 = true ->
      adj_valid (set_strict_time_adj LONG_MAX optarg adj).2)
  /\ ((set_rel_time LONG_MAX optarg (tv adj)).1 = true ->
      0 <= secs (set_rel_time LONG_MAX optarg (tv adj)).2
      /\ normalized (set_rel_time LONG_MAX optarg (tv adj)).2).
Proof.
  intros Hlong Hn.
  assert (Hadj : forall s negative,
            (let '(ok, t) := time_value LONG_MAX s (tv adj) in
             (ok, mk_adj t negative)).1 = true ->
            adj_valid (let '(ok, t) := time_value LONG_MAX s (tv adj) in
                       (ok, mk_adj t negative)).2).
  { intros s negative.
    pose proof (time_value_valid LONG_MAX s (tv adj) Hlong Hn) as H.
    destruct (time_value LONG_MAX s (tv adj)) as [ok t].
    cbn [fst snd] in *. intros Hok. unfold adj_valid. cbn [tv]. auto. }
  split; [|split].
  - unfold set_time_adjustment.
    destruct (match skip_blanks optarg with
              | 45 :: rest => (true, rest)
              | _ => (is_negative adj, skip_blanks optarg)
              end) as [negative s].
    apply Hadj.
  - unfold set_strict_time_adj.
    destruct (match skip_blanks optarg with
              | 45 :: rest => (true, rest)
              | _ => (is_negative adj, skip_blanks optarg)
              end) as [negative s].
    apply Hadj.
  - unfold set_rel_time. apply time_value_valid; assumption.
Qed.

Lemma isdigit_range c : isdigit c = true -> 48 <= c <= 57.
Proof.
  unfold isdigit. intros H. apply andb_true_iff in H as [H1 H2].
  apply Z.leb_le in H1, H2. lia.
Qed.

Lemma not_digit_dot : isdigit 46 = false.
Proof. reflexivity. Qed.

Lemma digits_app ds rest : forall acc,
  all_digits ds ->
  match rest with [] => True | c :: _ => isdigit c = false end ->
  digits (ds ++ rest) acc
  = (fold_left (fun acc c => 10 * acc + (c - 48)) ds acc, rest).
Proof.
  induction ds as [|d ds IH]; intros acc Hds Hrest.
  - cbn [app fold_left]. destruct rest as [|c rest]; [reflexivity|].
    cbn [digits]. rewrite Hrest. reflexivity.
  - inversion Hds as [|? ? Hd Hds']; subst.
    cbn [app digits fold_left]. rewrite Hd. apply IH; assumption.
Qed.

Lemma decimal_bounds ds :
  all_digits ds -> 0 <= decimal ds < 10 ^ Z.of_nat (length ds).
Proof.
  intros Hds.
  destruct (digits_prefix ds 0 ltac:(lia)) as (pre & Hpre & _ & Hv).
  assert (Hd : digits ds 0 = (decimal ds, [])).
  { pose proof (digits_app ds [] 0 Hds I) as H.
    rewrite app_nil_r in H. exact H. }
  rewrite Hd in Hpre, Hv. cbn [fst snd] in *.
  rewrite app_nil_r in Hpre. subst pre. lia.
Qed.

Lemma head_other_45 {A} c (rest : list Z) (f : list Z -> A) (y : A) :
  c <> 45 -> match c :: rest with 45 :: r => f r | _ => y end = y.
Proof.
  intros Hc. destruct c as [|p|p]; try reflexivity.
  do 6 (destruct p as [p|p|]; try reflexivity; try lia).
Qed.

Lemma head_other_sign {A} c (rest : list Z) (f g : list Z -> A) (y : A) :
  c <> 45 -> c <> 43 ->
  match c :: rest with 45 :: r => f r | 43 :: r => g r | _ => y end = y.
Proof.
  intros Hc Hc'. destruct c as [|p|p]; try reflexivity.
  do 6 (destruct p as [p|p|]; try reflexivity; try lia).
Qed.

Lemma head_other_46 {A} c (rest : list Z) (x y : A) :
  c <> 46 -> match c :: rest with 46 :: _ => x | _ => y end = y.
Proof.
  intros Hc. destruct c as [|p|p]; try reflexivity.
  do 6 (destruct p as [p|p|]; try reflexivity; try lia).
Qed.

Lemma strtol_digits LONG_MAX d ds rest :
  all_digits (d :: ds) ->
  match rest with [] => True | c :: _ => isdigit c = false end ->
  strtol LONG_MAX ((d :: ds) ++ rest)
  = (Z.min LONG_MAX (decimal (d :: ds)), Z.of_nat (length (d :: ds))).
Proof.
  intros Hds Hrest. unfold strtol.
  inversion Hds as [|? ? Hd Hds']; subst.
  pose proof (isdigit_range d Hd) as Hr.
  assert (Hsp : skip_spaces ((d :: ds) ++ rest) = (d :: ds) ++ rest).
  { cbn [app skip_spaces]. unfold isspace.
    destruct (Z.eqb_spec d 32); [lia|].
    destruct (Z.leb_spec d 13); [lia|]. rewrite andb_false_r. reflexivity. }
  rewrite Hsp. cbn [app].
  rewrite (head_other_sign d (ds ++ rest) (fun r => (true, r))
             (fun r => (false, r))) by lia.
  change (d :: ds ++ rest) with ((d :: ds) ++ rest).
  rewrite (digits_app (d :: ds) rest 0 Hds Hrest).
  rewrite length_app.
  destruct (Nat.eqb_spec (length rest) (length (d :: ds) + length rest))
    as [Heq|_]; [cbn [length] in Heq; lia|].
  f_equal. f_equal. lia.
Qed.

Lemma strtol_nil LONG_MAX : strtol LONG_MAX [] = (0, 0).
Proof. reflexivity. Qed.

(** The fraction of a value: the digits after the dot, at most nine. *)
Lemma fraction_digits LONG_MAX fs :
  2 ^ 31 - 1 <= LONG_MAX -> all_digits fs -> (length fs <= 9)%nat ->
  strtol LONG_MAX fs = (decimal fs, Z.of_nat (length fs))
  /\ 0 <= decimal fs < ONE_BILLION.
Proof.
  intros Hlong Hfs Hlen.
  pose proof (decimal_bounds fs Hfs) as Hb.
  assert (10 ^ Z.of_nat (length fs) <= 10 ^ 9)
    by (apply Z.pow_le_mono_r; lia).
  change (10 ^ 9) with ONE_BILLION in *.
  split; [|lia].
  destruct fs as [|f fs]; [reflexivity|].
  rewrite <- (app_nil_r (f :: fs)) at 1.
  rewrite (strtol_digits LONG_MAX f fs [] Hfs I).
  f_equal. unfold ONE_BILLION in *. lia.
Qed.

Lemma time_whole_digits LONG_MAX d ds rest :
  0 <= LONG_MAX -> all_digits (d :: ds) -> decimal (d :: ds) < LONG_MAX ->
  match rest with [] => True | c :: _ => isdigit c = false end ->
  time_whole LONG_MAX ((d :: ds) ++ rest)
  = Some (decimal (d :: ds), Z.of_nat (length (d :: ds))).
Proof.
  intros Hlong Hds Hmax Hrest. unfold time_whole.
  inversion Hds as [|? ? Hd Hds']; subst.
  pose proof (isdigit_range d Hd) as Hr.
  pose proof (decimal_bounds (d :: ds) Hds) as Hb.
  cbn [app]. rewrite (head_other_46 d (ds ++ rest)) by lia.
  change (d :: ds ++ rest) with ((d :: ds) ++ rest).
  rewrite (strtol_digits LONG_MAX d ds rest Hds Hrest).
  rewrite Z.min_r by lia.
  destruct (Z.eqb_spec (Z.of_nat (length (d :: ds))) 0) as [H0|_];
    [cbn [length] in H0; lia|].
  unfold LONG_MIN.
  destruct (Z.eqb_spec (decimal (d :: ds)) (- LONG_MAX - 1)); [lia|].
  destruct (Z.eqb_spec (decimal (d :: ds)) LONG_MAX); [lia|].
  cbn [orb]. destruct (Z.ltb_spec (decimal (d :: ds)) 0); [lia|].
  reflexivity.
Qed.

Lemma time_fraction_decimal LONG_MAX fs t :
  2 ^ 31 - 1 <= LONG_MAX -> all_digits fs -> (length fs <= 9)%nat ->
  time_fraction LONG_MAX (46 :: fs) t
  = (true, mk_nstime (secs t)
             (decimal fs * 10 ^ (9 - Z.of_nat (length fs)))).
Proof.
  intros Hlong Hfs Hlen.
  destruct (fraction_digits LONG_MAX fs Hlong Hfs Hlen) as [Hfrac Hfb].
  pose proof (decimal_bounds fs Hfs) as Hfp.
  unfold time_fraction. rewrite Hfrac.
  destruct (Z.ltb_spec 9 (Z.of_nat (length fs))); [lia|].
  cbn [negb Z.eqb Pos.eqb orb].
  destruct (Z.ltb_spec (decimal fs) 0); [lia|].
  destruct (Z.leb_spec ONE_BILLION (decimal fs)); [lia|].
  unfold LONG_MIN.
  destruct (Z.eqb_spec (decimal fs) (- LONG_MAX - 1)); [lia|].
  destruct (Z.eqb_spec (decimal fs) LONG_MAX);
    [unfold ONE_BILLION in *; lia|].
  cbn [orb]. do 2 f_equal.
  pose proof (scale_fraction (decimal fs) (Z.of_nat (length fs)) Hfb
                ltac:(lia) ltac:(lia)) as Hs.
  unfold ONE_BILLION in Hs. rewrite wrap32s_id by lia.
  rewrite scale_pow, Z2Nat.id by lia. reflexivity.
Qed.

Lemma time_value_decimal LONG_MAX ds fs old :
  2 ^ 31 - 1 <= LONG_MAX ->
  all_digits ds -> all_digits fs -> (length fs <= 9)%nat ->
  decimal ds < LONG_MAX ->
  time_value LONG_MAX (ds ++ 46 :: fs) old
  = (true, mk_nstime (decimal ds)
             (decimal fs * 10 ^ (9 - Z.of_nat (length fs)))).
Proof.
  intros Hlong Hds Hfs Hlen Hmax. unfold time_value.
  destruct ds as [|d ds].
  - cbn [app]. change (time_whole LONG_MAX (46 :: fs)) with (Some (0, 0)).
    cbn beta iota. change (drop (Z.to_nat 0) (46 :: fs)) with (46 :: fs).
    rewrite time_fraction_decimal by assumption. reflexivity.
  - rewrite (time_whole_digits LONG_MAX d ds (46 :: fs))
      by (try assumption; try lia; reflexivity).
    rewrite Nat2Z.id, drop_app_length.
    rewrite time_fraction_decimal by assumption. reflexivity.
Qed.

Lemma skip_blanks_head c rest :
  c <> 32 -> c <> 9 -> skip_blanks (c :: rest) = c :: rest.
Proof.
  intros H1 H2. cbn [skip_blanks].
  destruct (Z.eqb_spec c 32); [lia|]. destruct (Z.eqb_spec c 9); [lia|].
  reflexivity.
Qed.

(** X30. A text of digits, a dot and up to nine digits, with or without a
    minus sign in front, is accepted by [-t] and read as a decimal number:
    the digits before the dot are the seconds, the digits after it are
    scaled to nanoseconds.  A minus sign sets the negative flag; without
    one the flag stays as it was. *)
Theorem set_time_adjustment_decimal LONG_MAX (minus : bool) ds fs adj :
  2 ^ 31 - 1 <= LONG_MAX ->
  all_digits ds -> all_digits fs -> (length fs <= 9)%nat ->
  decimal ds < LONG_MAX ->
  set_time_adjustment LONG_MAX
    ((if minus then [45] else []) ++ ds ++ 46 :: fs) adj
  = (true,
     mk_adj (mk_nstime (decimal ds)
               (decimal fs * 10 ^ (9 - Z.of_nat (length fs))))
            (minus || is_negative adj)).
Proof.
  intros Hlong Hds Hfs Hlen Hmax. unfold set_time_adjustment.
  assert (Hhead : exists c rest, ds ++ 46 :: fs = c :: rest
                                 /\ c <> 32 /\ c <> 9 /\ c <> 45).
  { destruct ds as [|d ds].
    - exists 46, fs. repeat split; lia.
    - inversion Hds as [|? ? Hd _]; subst.
      pose proof (isdigit_range d Hd).
      exists d, (ds ++ 46 :: fs). repeat split; lia. }
  destruct Hhead as (c & rest & Hs & Hc1 & Hc2 & Hc3).
  destruct minus; cbn [app orb].
  - rewrite skip_blanks_head by lia.
    rewrite (time_value_decimal LONG_MAX ds fs (tv adj)) by assumption.
    reflexivity.
  - rewrite Hs, skip_blanks_head by assumption.
    rewrite (head_other_45 c rest (fun r => (true, r))) by assumption.
    rewrite <- Hs.
    rewrite (time_value_decimal LONG_MAX ds fs (tv adj)) by assumption.
    reflexivity.
Qed.

(** A text of digits alone is accepted by [-t] and sets the seconds only:
    the nanoseconds and the negative flag of an earlier [-t] stay. *)
Theorem set_time_adjustment_whole LONG_MAX d ds adj :
  0 <= LONG_MAX ->
  all_digits (d :: ds) -> decimal (d :: ds) < LONG_MAX ->
  set_time_adjustment LONG_MAX (d :: ds) adj
  = (true, mk_adj (mk_nstime (decimal (d :: ds)) (nsecs (tv adj)))
             (is_negative adj)).
Proof.
  intros Hlong Hds Hmax. unfold set_time_adjustment.
  inversion Hds as [|? ? Hd Hds']; subst.
  pose proof (isdigit_range d Hd) as Hr.
  rewrite skip_blanks_head by lia.
  rewrite (head_other_45 d ds (fun r => (true, r))) by lia.
  unfold time_value.
  pose proof (time_whole_digits LONG_MAX d ds [] Hlong Hds Hmax I) as Hw.
  rewrite app_nil_r in Hw. rewrite Hw.
  rewrite Nat2Z.id, drop_all. reflexivity.
Qed.

Definition LONG_MAX_64 : Z := 2 ^ 63 - 1.

Ltac digit_text := unfold all_digits; repeat constructor.

Lemma time_options_valid_witness :
  adj_valid (set_time_adjustment LONG_MAX_64 (ErrInj.codes "1.5"%string)
               (mk_adj NSTIME_INIT_ZERO false)).2
  /\ adj_valid (set_strict_time_adj LONG_MAX_64 (ErrInj.codes "1.5"%string)
                  (mk_adj NSTIME_INIT_ZERO false)).2
  /\ 0 <= secs (set_rel_time LONG_MAX_64 (ErrInj.codes "1.5"%string)
                  NSTIME_INIT_ZERO).2.
Proof.
  destruct (time_options_valid LONG_MAX_64 (ErrInj.codes "1.5"%string)
              (mk_adj NSTIME_INIT_ZERO false))
    as (H1 & H2 & H3).
  - unfold LONG_MAX_64. lia.
  - unfold normalized, ONE_BILLION. cbn. lia.
  - split; [apply H1; reflexivity|].
    split; [apply H2; reflexivity|]. apply H3. reflexivity.
Defined.

Lemma set_time_adjustment_decimal_witness :
  set_time_adjustment LONG_MAX_64 (ErrInj.codes "-1.5"%string)
    (mk_adj NSTIME_INIT_ZERO false)
  = (true, mk_adj (mk_nstime 1 500000000) true).
Proof.
  apply (set_time_adjustment_decimal LONG_MAX_64 true [49] [53]
           (mk_adj NSTIME_INIT_ZERO false));
    first [ unfold LONG_MAX_64; cbn; lia | digit_text ].
Defined.

Lemma set_time_adjustment_whole_witness :
  set_time_adjustment LONG_MAX_64 (ErrInj.codes "3"%string)
    (mk_adj (mk_nstime 0 500000000) true)
  = (true, mk_adj (mk_nstime 3 500000000) true).
Proof.
  apply (set_time_adjustment_whole LONG_MAX_64 51 []
           (mk_adj (mk_nstime 0 500000000) true));
    first [ unfold LONG_MAX_64; cbn; lia | digit_text ].
Defined.

End TimeOptFacts.
